(** * Webhook Actions: a shallow embedding of the webhook execution engine

    Sources embedded here:
    - [custom_components/webhook_actions/const.py]
    - [custom_components/webhook_actions/storage.py]
      ([WebhookStorage], [WebhookConfigManager])
    - [custom_components/webhook_actions/webhook.py] ([WebhookExecutor])
    - [custom_components/webhook_actions/__init__.py] ([handle_webhook_call])

    Python [str] values are sequences of Unicode code points, Python [dict]s
    are insertion-ordered association lists with unique keys, and the
    [async] methods are functions in a state-and-exception monad whose state
    carries the outside world and the list of effects performed so far. *)

From Stdlib Require Import ZArith List Bool Lia.
From Stdlib Require String Ascii DecimalString.
Import ListNotations.
Import String.StringSyntax.
Set Warnings "-register-all,-notation-for-abbreviation".
Delimit Scope string_scope with string.
Open Scope Z_scope.

(** ** Python strings *)

(** A code point. *)
Notation char := Z (only parsing).

(** A Python [str]. *)
Definition text : Type := list char.

(** An ASCII literal as a [text]. *)
Definition T (s : String.string) : text :=
  map (fun a => Z.of_N (Ascii.N_of_ascii a)) (String.list_ascii_of_string s).

Arguments T s%_string.

Fixpoint text_eqb (a b : text) : bool :=
  match a, b with
  | [], [] => true
  | x :: a', y :: b' => (x =? y) && text_eqb a' b'
  | _, _ => false
  end.

(** [len(x)] *)
Definition len {A : Type} (l : list A) : Z := Z.of_nat (length l).

(** [x[:n]] for a bound [n >= 0], the only kind the code slices with. *)
Fixpoint slice_to {A : Type} (n : Z) (l : list A) : list A :=
  match l with
  | [] => []
  | x :: r => if n <=? 0 then [] else x :: slice_to (n - 1) r
  end.

(** [s.startswith(p)] *)
Fixpoint startswith (p s : text) : bool :=
  match p, s with
  | [], _ => true
  | _ :: _, [] => false
  | x :: p', y :: s' => (x =? y) && startswith p' s'
  end.

(** [p in s] for strings: [p] occurs in [s] as a contiguous run. *)
Fixpoint contains (p s : text) : bool :=
  startswith p s ||
  match s with
  | [] => false
  | _ :: s' => contains p s'
  end.

(** The code points [str.strip()] removes ([Py_UNICODE_ISSPACE]). *)
Definition is_space (c : char) : bool :=
  ((0x09 <=? c) && (c <=? 0x0D)) || ((0x1C <=? c) && (c <=? 0x20))
  || (c =? 0x85) || (c =? 0xA0) || (c =? 0x1680)
  || ((0x2000 <=? c) && (c <=? 0x200A))
  || (c =? 0x2028) || (c =? 0x2029) || (c =? 0x202F) || (c =? 0x205F)
  || (c =? 0x3000).

Fixpoint lstrip (s : text) : text :=
  match s with
  | [] => []
  | c :: s' => if is_space c then lstrip s' else s
  end.

Definition rstrip (s : text) : text := rev (lstrip (rev s)).

(** [s.strip()] *)
Definition strip (s : text) : text := rstrip (lstrip s).

(** [str(n)] for an [int]. *)
Definition str_of_int (n : Z) : text := T (DecimalString.NilZero.string_of_int (Z.to_int n)).

(** ** Python dicts: insertion-ordered, one binding per key *)

Definition dict (V : Type) : Type := list (text * V).

Fixpoint dict_get {V : Type} (k : text) (d : dict V) : option V :=
  match d with
  | [] => None
  | (k', v) :: d' => if text_eqb k k' then Some v else dict_get k d'
  end.

(** [d[k] = v]: an existing key keeps its place, a new key goes last. *)
Fixpoint dict_set {V : Type} (k : text) (v : V) (d : dict V) : dict V :=
  match d with
  | [] => [(k, v)]
  | (k', v') :: d' =>
      if text_eqb k k' then (k', v) :: d' else (k', v') :: dict_set k v d'
  end.

(** [d.update(o)]: the bindings of [o] are assigned in [o]'s order. *)
Fixpoint dict_update {V : Type} (d o : dict V) : dict V :=
  match o with
  | [] => d
  | (k, v) :: o' => dict_update (dict_set k v d) o'
  end.

Definition keys {V : Type} (d : dict V) : list text := map fst d.

(** [k in d] *)
Definition dict_mem {V : Type} (k : text) (d : dict V) : bool :=
  match dict_get k d with Some _ => true | None => false end.

(** ** JSON-like values: what a payload and a parsed body are made of *)

Inductive json : Type :=
| JNull                               (* None *)
| JBool (b : bool)
| JInt (n : Z)
| JFloat (bits : Z)                   (* a binary64, by its bit pattern *)
| JStr (s : text)
| JList (items : list json)
| JDict (items : list (text * json)).

(** ** The UTF-8 codec ([str.encode('utf-8')], [bytes.decode('utf-8', errors='ignore')]) *)

Module Utf8.

Notation byte := Z (only parsing).

(** Code points [str.encode('utf-8')] accepts: all but the surrogates. *)
Definition is_scalar (c : char) : bool :=
  ((0 <=? c) && (c <? 0xD800)) || ((0xE000 <=? c) && (c <=? 0x10FFFF)).

Definition encode_char (c : char) : list byte :=
  if c <? 0x80 then [c]
  else if c <? 0x800 then [0xC0 + c / 64; 0x80 + c mod 64]
  else if c <? 0x10000 then
    [0xE0 + c / 4096; 0x80 + (c / 64) mod 64; 0x80 + c mod 64]
  else
    [0xF0 + c / 262144; 0x80 + (c / 4096) mod 64; 0x80 + (c / 64) mod 64;
     0x80 + c mod 64].

(** [s.encode('utf-8')]; [None] is [UnicodeEncodeError]. *)
Fixpoint encode (s : text) : option (list byte) :=
  match s with
  | [] => Some []
  | c :: s' =>
      if is_scalar c then
        match encode s' with
        | Some bs => Some (encode_char c ++ bs)
        | None => None
        end
      else None
  end.

Definition is_cont (b : byte) : bool := (0x80 <=? b) && (b <=? 0xBF).

(** The second byte a three-byte lead admits. *)
Definition second_of_3 (b0 b1 : byte) : bool :=
  if b0 =? 0xE0 then (0xA0 <=? b1) && (b1 <=? 0xBF)
  else if b0 =? 0xED then (0x80 <=? b1) && (b1 <=? 0x9F)
  else is_cont b1.

(** The second byte a four-byte lead admits. *)
Definition second_of_4 (b0 b1 : byte) : bool :=
  if b0 =? 0xF0 then (0x90 <=? b1) && (b1 <=? 0xBF)
  else if b0 =? 0xF4 then (0x80 <=? b1) && (b1 <=? 0x8F)
  else is_cont b1.

(** [bs.decode('utf-8', errors='ignore')]: a malformed run (an invalid lead
    byte, a lead with the well-formed part of its continuation, or a sequence
    the end of the input cuts short) yields nothing, and decoding resumes at
    the first byte after it. *)
Fixpoint decode_ignore (bs : list byte) : text :=
  match bs with
  | [] => []
  | b0 :: r0 =>
      if b0 <? 0x80 then b0 :: decode_ignore r0
      else if (0xC2 <=? b0) && (b0 <=? 0xDF) then
        match r0 with
        | [] => []
        | b1 :: r1 =>
            if is_cont b1
            then ((b0 - 0xC0) * 64 + (b1 - 0x80)) :: decode_ignore r1
            else decode_ignore r0
        end
      else if (0xE0 <=? b0) && (b0 <=? 0xEF) then
        match r0 with
        | [] => []
        | b1 :: r1 =>
            if second_of_3 b0 b1 then
              match r1 with
              | [] => []
              | b2 :: r2 =>
                  if is_cont b2
                  then ((b0 - 0xE0) * 4096 + (b1 - 0x80) * 64 + (b2 - 0x80))
                         :: decode_ignore r2
                  else decode_ignore r1
              end
            else decode_ignore r0
        end
      else if (0xF0 <=? b0) && (b0 <=? 0xF4) then
        match r0 with
        | [] => []
        | b1 :: r1 =>
            if second_of_4 b0 b1 then
              match r1 with
              | [] => []
              | b2 :: r2 =>
                  if is_cont b2 then
                    match r2 with
                    | [] => []
                    | b3 :: r3 =>
                        if is_cont b3
                        then ((b0 - 0xF0) * 262144 + (b1 - 0x80) * 4096
                              + (b2 - 0x80) * 64 + (b3 - 0x80))
                               :: decode_ignore r3
                        else decode_ignore r2
                    end
                  else decode_ignore r1
              end
            else decode_ignore r0
        end
      else decode_ignore r0
  end.

(** The number of bytes [encode] spends on a text of scalar values. *)
Fixpoint byte_len (s : text) : Z :=
  match s with
  | [] => 0
  | c :: s' => len (encode_char c) + byte_len s'
  end.

(** The longest prefix of [s] whose encoding fits in [cap] bytes. *)
Fixpoint fit_prefix (cap : Z) (s : text) : text :=
  match s with
  | [] => []
  | c :: s' =>
      if len (encode_char c) <=? cap
      then c :: fit_prefix (cap - len (encode_char c)) s'
      else []
  end.

(** The four shapes of an encoded character. *)
Inductive encoded (c : char) : list byte -> Prop :=
| Enc1 : 0 <= c < 0x80 -> encoded c [c]
| Enc2 : 0x80 <= c < 0x800 -> encoded c [0xC0 + c / 64; 0x80 + c mod 64]
| Enc3 : 0x800 <= c < 0xD800 \/ 0xE000 <= c < 0x10000 ->
         encoded c [0xE0 + c / 64 / 64; 0x80 + (c / 64) mod 64;
                    0x80 + c mod 64]
| Enc4 : 0x10000 <= c <= 0x10FFFF ->
         encoded c [0xF0 + c / 64 / 64 / 64; 0x80 + (c / 64 / 64) mod 64;
                    0x80 + (c / 64) mod 64; 0x80 + c mod 64].

End Utf8.

(** ** const.py *)

Definition CONF_WEBHOOK_ID : text := T "webhook_id".
Definition DEFAULT_METHOD : text := T "POST".
Definition DEFAULT_TIMEOUT : Z := 10.
Definition DEFAULT_RETRY_ATTEMPTS : Z := 3.
Definition DEFAULT_RETRY_BACKOFF : Z := 2.
Definition MAX_RESPONSE_SIZE : Z := 1024 * 1024.
Definition ERROR_CONNECTION : text := T "connection_error".
Definition ERROR_TIMEOUT : text := T "timeout_error".
Definition ERROR_HTTP : text := T "http_error".
Definition ERROR_TEMPLATE : text := T "template_error".

(** ** Webhook definitions

    A configuration is a [dict[str, Any]] over the keys of const.py; a field
    is [None] when its key is absent, which is what [config.get(key)] and
    [config.get(key, default)] observe.  Timeouts are whole seconds: the
    [float(...)] conversion of [execute] is exact on them. *)

Record config : Type := {
  cfg_webhook_id : option text;
  cfg_name : option text;
  cfg_url : option text;
  cfg_method : option text;
  cfg_headers : option (dict text);
  cfg_payload : option json;
  cfg_timeout : option Z;
  cfg_retry_attempts : option Z;
  cfg_retry_backoff : option Z
}.

Definition is_some {A : Type} (o : option A) : bool :=
  match o with Some _ => true | None => false end.

(** [bool(config)]: a dict is true when it has a key. *)
Definition config_truthy (c : config) : bool :=
  is_some (cfg_webhook_id c) || is_some (cfg_name c) || is_some (cfg_url c)
  || is_some (cfg_method c) || is_some (cfg_headers c)
  || is_some (cfg_payload c) || is_some (cfg_timeout c)
  || is_some (cfg_retry_attempts c) || is_some (cfg_retry_backoff c).

(** [bool(s)] for [s : str | None]. *)
Definition str_truthy (o : option text) : bool :=
  match o with Some (_ :: _) => true | _ => false end.

(** [bool(n)] for [n : int | None]. *)
Definition int_truthy (o : option Z) : bool :=
  match o with Some n => negb (n =? 0) | None => false end.

(** [bool(d)] for [d : dict | None]. *)
Definition dict_truthy {V : Type} (o : option (dict V)) : bool :=
  match o with Some (_ :: _) => true | _ => false end.

(** [d.get(key, default)] on a field of a configuration. *)
Definition get_or {A : Type} (field : option A) (default : A) : A :=
  match field with Some v => v | None => default end.

(** ** storage.py *)

(** [WebhookStorage]: [data.get(CONF_WEBHOOKS, {})] is all the class reads. *)
Record WebhookStorage : Type := {
  data_webhooks : option (dict config)
}.

Definition storage_webhooks (st : WebhookStorage) : dict config :=
  get_or (data_webhooks st) [].

Definition storage_get_webhook (st : WebhookStorage) (webhook_id : text)
  : option config :=
  dict_get webhook_id (storage_webhooks st).

Definition storage_get_all_webhooks (st : WebhookStorage) : dict config :=
  storage_webhooks st.

Definition storage_webhook_exists (st : WebhookStorage) (webhook_id : text)
  : bool :=
  dict_mem webhook_id (storage_webhooks st).

(** [WebhookConfigManager]: [yaml_webhooks] is [yaml_config[CONF_WEBHOOKS]],
    [None] when the key is missing. *)
Record WebhookConfigManager : Type := {
  yaml_webhooks : option (list config);
  storage : WebhookStorage
}.

(** The loop of [get_all_webhooks] over the YAML list. *)
Fixpoint collect_yaml (l : list config) (webhooks : dict config)
  : dict config :=
  match l with
  | [] => webhooks
  | webhook :: l' =>
      let webhook_id := cfg_webhook_id webhook in
      if str_truthy webhook_id
      then collect_yaml l' (dict_set (get_or webhook_id []) webhook webhooks)
      else collect_yaml l' webhooks
  end.

Definition get_all_webhooks (m : WebhookConfigManager) : dict config :=
  let webhooks :=
    match yaml_webhooks m with
    | Some l => collect_yaml l []
    | None => []
    end in
  let ui_webhooks := storage_get_all_webhooks (storage m) in
  dict_update webhooks ui_webhooks.

(** [webhook.get(CONF_WEBHOOK_ID) == webhook_id] *)
Definition id_is (webhook : config) (webhook_id : text) : bool :=
  match cfg_webhook_id webhook with
  | Some i => text_eqb i webhook_id
  | None => false
  end.

(** The loop of [get_webhook] over the YAML list: the first match. *)
Fixpoint find_yaml (l : list config) (webhook_id : text) : option config :=
  match l with
  | [] => None
  | webhook :: l' =>
      if id_is webhook webhook_id then Some webhook else find_yaml l' webhook_id
  end.

(** [bool(c)] for [c : dict | None]. *)
Definition config_opt_truthy (o : option config) : bool :=
  match o with Some c => config_truthy c | None => false end.

Definition get_webhook (m : WebhookConfigManager) (webhook_id : text)
  : option config :=
  let ui_webhook := storage_get_webhook (storage m) webhook_id in
  if config_opt_truthy ui_webhook then ui_webhook
  else
    match yaml_webhooks m with
    | Some l => find_yaml l webhook_id
    | None => None
    end.

Definition webhook_exists (m : WebhookConfigManager) (webhook_id : text)
  : bool :=
  if storage_webhook_exists (storage m) webhook_id then true
  else
    match yaml_webhooks m with
    | Some l => existsb (fun webhook => id_is webhook webhook_id) l
    | None => false
    end.

(** ** webhook.py: values exchanged with the outside *)

(** The exceptions the executor tells apart, in the order of its [except]
    clauses, and the rest of [Exception]. *)
Inductive exn : Type :=
| ClientConnectorError (msg : text)
| TimeoutError (msg : text)
| ClientResponseError (status : Z) (message : text)
| TemplateError (msg : text)
| HomeAssistantError (msg : text)
| OtherException (msg : text).

(** What [_make_request] hands to [session.request]. *)
Inductive body : Type :=
| NoBody
| JsonBody (payload : json)           (* json=payload *)
| DataBody (data : text).             (* data=str(payload) *)

Record request : Type := {
  req_method : text;
  req_url : json;                     (* a [str], or [None] when no url is set *)
  req_headers : dict text;
  req_timeout : Z;
  req_body : body
}.

(** What [_make_request] observes of the [aiohttp] response object. *)
Record response : Type := {
  resp_status : Z;                        (* response.status *)
  resp_reason : text;                     (* the message of raise_for_status *)
  resp_content_length : option text;      (* response.headers.get("Content-Length") *)
  resp_headers : dict text;               (* dict(response.headers) *)
  resp_text : exn + text                  (* await response.text() *)
}.

(** The dict [_make_request] returns; [rd_json] is [JNull] for [None]. *)
Record response_data : Type := {
  rd_status_code : Z;
  rd_headers : dict text;
  rd_body : text;
  rd_json : json
}.

(** Events on the bus. *)
Inductive event : Type :=
| WebhookSuccess (webhook_id : text) (status_code : Z) (attempt : Z)
| WebhookError (webhook_id error_type error_message : text) (attempt : Z)
    (status_code : option Z).

Inductive level : Type := Debug | Info | Warning | Error.

(** The logging calls, by call site. *)
Inductive log_site : Type :=
| LogTemplateFailed | LogSuccess | LogConnectionError | LogTimeout
| LogNonRetryable | LogHttpError | LogUnexpected | LogWaiting
| LogMakingRequest | LogTruncating | LogCallOk | LogCallFailed.

(** What an execution does to the outside, in order. *)
Inductive effect : Type :=
| ERender (template : text)           (* Template(value, hass).async_render() *)
| ERequest (r : request)              (* session.request(...) *)
| ESleep (seconds : Z)                (* asyncio.sleep(...) *)
| EFire (e : event)                   (* hass.bus.async_fire(...) *)
| ELog (lvl : level) (site : log_site).

(** The collaborators the integration is written against: Home Assistant's
    template engine, the [aiohttp] session, the event loop's clock and the
    Python built-ins whose results the code branches on. *)
Class Env : Type := {
  World : Type;
  (** [Template(value, hass).async_render()] in a state of the world: the
      rendered string, or the message of a [TemplateError]. *)
  async_render : World -> text -> text + text;
  (** [session.request(method, url, **kwargs)]: an exception or a response,
      and the world after the exchange. *)
  session_request : World -> request -> (exn + response) * World;
  (** The world after [asyncio.sleep(seconds)]. *)
  asyncio_sleep : Z -> World -> World;
  (** [json.loads]; [None] is [JSONDecodeError]. *)
  json_loads : text -> option json;
  (** [int(s)] on a string; [None] is [ValueError]. *)
  py_int : text -> option Z;
  (** [s.upper()] *)
  py_upper : text -> text;
  (** [str(v)] on a float, a list or a dict. *)
  py_repr : json -> text;
  (** [str(err)] for a [ClientResponseError]. *)
  response_error_str : Z -> text -> text
}.

Section Executor.

Context {E : Env}.

Record state : Type := {
  world : World;
  trace : list effect
}.

(** An [async] method: it may raise, and it acts on the world and the trace. *)
Definition M (A : Type) : Type := state -> (exn + A) * state.

Definition ret {A : Type} (a : A) : M A := fun s => (inr a, s).

Definition raise {A : Type} (e : exn) : M A := fun s => (inl e, s).

Definition bind {A B : Type} (m : M A) (k : A -> M B) : M B :=
  fun s =>
    match m s with
    | (inr a, s') => k a s'
    | (inl e, s') => (inl e, s')
    end.

(** Record an effect that leaves the world as it is. *)
Definition emit (e : effect) : M unit :=
  fun s => (inr tt, {| world := world s; trace := trace s ++ [e] |}).

Definition log (lvl : level) (site : log_site) : M unit := emit (ELog lvl site).

(** [hass.bus.async_fire] *)
Definition async_fire (e : event) : M unit := emit (EFire e).

(** [await asyncio.sleep(seconds)] *)
Definition sleep (seconds : Z) : M unit :=
  fun s => (inr tt, {| world := asyncio_sleep seconds (world s);
                       trace := trace s ++ [ESleep seconds] |}).

End Executor.

Declare Scope monad_scope.
Delimit Scope monad_scope with monad.
Notation "x <- c ;; k" := (bind c (fun x => k))
  (at level 61, c at next level, right associativity) : monad_scope.
Notation "c ;;; k" := (bind c (fun _ => k))
  (at level 61, right associativity) : monad_scope.
Open Scope monad_scope.

Section ExecutorMethods.

Context {E : Env}.

(** [str(err)] *)
Definition str_exn (e : exn) : text :=
  match e with
  | ClientConnectorError msg | TimeoutError msg | TemplateError msg
  | HomeAssistantError msg | OtherException msg => msg
  | ClientResponseError status message => response_error_str status message
  end.

(** [str(v)] *)
Definition py_str (v : json) : text :=
  match v with
  | JStr s => s
  | JNull => T "None"
  | JBool true => T "True"
  | JBool false => T "False"
  | JInt n => str_of_int n
  | _ => py_repr v
  end.

(** [WebhookExecutor._fire_error_event] *)
Definition _fire_error_event (webhook_id error_type error_message : text)
    (attempt : Z) (status_code : option Z) : M unit :=
  async_fire
    (WebhookError webhook_id error_type error_message attempt
       (if int_truthy status_code then status_code else None)).

(** [WebhookExecutor._render_template] *)
Definition _render_template (value : json) : M json :=
  match value with
  | JStr v =>
      if contains (T "{{") v || contains (T "{%") v then
        fun s =>
          let s' := {| world := world s; trace := trace s ++ [ERender v] |} in
          match async_render (world s) v with
          | inr rendered => (inr (JStr rendered), s')
          | inl msg => (inl (TemplateError msg), s')
          end
      else ret value
  | _ => ret value
  end.

(** [WebhookExecutor._render_headers] *)
Fixpoint render_headers_from (items : dict text) (rendered : dict text)
  : M (dict text) :=
  match items with
  | [] => ret rendered
  | (key, value) :: items' =>
      r <- _render_template (JStr value) ;;
      render_headers_from items' (dict_set key (py_str r) rendered)
  end.

Definition _render_headers (headers : dict text) : M (dict text) :=
  render_headers_from headers [].

(** [rendered.strip().startswith(("{", "["))] *)
Definition looks_like_json (rendered : text) : bool :=
  startswith (T "{") (strip rendered) || startswith (T "[") (strip rendered).

(** [WebhookExecutor._render_payload] *)
Fixpoint _render_payload (payload : json) : M json :=
  match payload with
  | JNull => ret JNull
  | JStr _ =>
      r <- _render_template payload ;;
      match r with
      | JStr rendered =>
          if looks_like_json rendered then
            match json_loads rendered with
            | Some parsed => ret parsed
            | None => ret (JStr rendered)
            end
          else ret (JStr rendered)
      | _ => raise (OtherException (T "AttributeError"))
      end
  | JDict items =>
      (fix each (items : list (text * json)) (rendered : dict json)
         : M json :=
         match items with
         | [] => ret (JDict rendered)
         | (key, value) :: items' =>
             v <- _render_payload value ;;
             each items' (dict_set key v rendered)
         end) items []
  | JList items =>
      l <- (fix each (items : list json) : M (list json) :=
              match items with
              | [] => ret []
              | item :: items' =>
                  v <- _render_payload item ;;
                  vs <- each items' ;;
                  ret (v :: vs)
              end) items ;;
      ret (JList l)
  | _ => ret payload
  end.

(** The [json=] or [data=] argument of the request, if any. *)
Definition request_body (method : text) (payload : json) : body :=
  let up := py_upper method in
  if (text_eqb up (T "POST") || text_eqb up (T "PUT") || text_eqb up (T "PATCH"))
     && negb (match payload with JNull => true | _ => false end)
  then
    match payload with
    | JDict _ | JList _ => JsonBody payload
    | _ => DataBody (py_str payload)
    end
  else NoBody.

(** [self.session.request(method, url, **request_kwargs)] *)
Definition do_request (r : request) : M response :=
  fun s =>
    let (res, w') := session_request (world s) r in
    (res, {| world := w'; trace := trace s ++ [ERequest r] |}).

(** The check of the declared size, lines 216-225. *)
Definition check_content_length (content_length : option text) : M unit :=
  if str_truthy content_length then
    let cl := get_or content_length [] in
    match py_int cl with
    | Some n =>
        if n >? MAX_RESPONSE_SIZE then
          raise (HomeAssistantError
                   (T "Response size (" ++ cl
                    ++ T " bytes) exceeds maximum allowed ("
                    ++ str_of_int MAX_RESPONSE_SIZE ++ T " bytes)"))
        else ret tt
    | None => ret tt                  (* ValueError: continue anyway *)
    end
  else ret tt.

(** The check of the size read, lines 230-239. *)
Definition limit_text (response_text : text) : M text :=
  match Utf8.encode response_text with
  | None => raise (OtherException (T "UnicodeEncodeError"))
  | Some response_bytes =>
      if len response_bytes >? MAX_RESPONSE_SIZE then
        log Warning LogTruncating ;;;
        ret (Utf8.decode_ignore (slice_to MAX_RESPONSE_SIZE response_bytes))
      else ret response_text
  end.

(** [WebhookExecutor._make_request] *)
Definition _make_request (url : json) (method : text) (headers : dict text)
    (payload : json) (timeout : Z) : M response_data :=
  let r := {| req_method := method; req_url := url; req_headers := headers;
              req_timeout := timeout;
              req_body := request_body method payload |} in
  log Debug LogMakingRequest ;;;
  response <- do_request r ;;
  (* response.raise_for_status() *)
  if 400 <=? resp_status response then
    raise (ClientResponseError (resp_status response) (resp_reason response))
  else
    check_content_length (resp_content_length response) ;;;
    response_text <- (fun s => (resp_text response, s)) ;;
    response_text <- limit_text response_text ;;
    let response_json :=
      match response_text with
      | [] => JNull
      | _ :: _ =>
          match json_loads response_text with
          | Some j => j
          | None => JNull
          end
      end in
    ret {| rd_status_code := resp_status response;
           rd_headers := resp_headers response;
           rd_body := response_text;
           rd_json := response_json |}.

(** [a, a+1, ...], [m] integers. *)
Fixpoint count_from (a : Z) (m : nat) : list Z :=
  match m with
  | O => []
  | S m' => a :: count_from (a + 1) m'
  end.

(** [range(n)] *)
Definition range (n : Z) : list Z := count_from 0 (Z.to_nat n).

(** The wait at the end of the loop body, lines 167-176. *)
Definition backoff_wait (attempt retry_attempts retry_backoff : Z) : M unit :=
  if attempt <? retry_attempts - 1 then
    let wait_time := retry_backoff ^ attempt in
    log Debug LogWaiting ;;;
    sleep wait_time
  else ret tt.

(** The statements after the loop, lines 178-187. *)
Definition exhausted (webhook_id : text) (retry_attempts : Z)
    (last_error : option (text * text)) : M (option response_data) :=
  match last_error with
  | Some (error_type, error_message) =>
      _fire_error_event webhook_id error_type error_message retry_attempts
        None ;;;
      raise (HomeAssistantError
               (T "Webhook " ++ webhook_id ++ T " failed after "
                ++ str_of_int retry_attempts ++ T " attempts: "
                ++ error_message))
  | None => ret None
  end.

(** The [for attempt in range(retry_attempts)] loop, lines 82-176, run over
    the attempts [attempts] that remain, followed by lines 178-187. *)
Fixpoint retry_loop (webhook_id : text) (url : json) (method : text)
    (headers : dict text) (payload : json) (timeout : Z)
    (retry_attempts retry_backoff : Z)
    (attempts : list Z) (last_error : option (text * text))
  : M (option response_data) :=
  match attempts with
  | [] => exhausted webhook_id retry_attempts last_error
  | attempt :: rest =>
      let continue last_error :=
        backoff_wait attempt retry_attempts retry_backoff ;;;
        retry_loop webhook_id url method headers payload timeout
          retry_attempts retry_backoff rest last_error in
      fun s =>
        match _make_request url method headers payload timeout s with
        | (inr response_data, s1) =>
            (async_fire (WebhookSuccess webhook_id
                           (rd_status_code response_data) (attempt + 1)) ;;;
             log Debug LogSuccess ;;;
             ret (Some response_data)) s1
        | (inl (ClientConnectorError msg), s1) =>
            (log Warning LogConnectionError ;;;
             continue (Some (ERROR_CONNECTION, msg))) s1
        | (inl (TimeoutError msg), s1) =>
            (log Warning LogTimeout ;;;
             continue (Some (ERROR_TIMEOUT, msg))) s1
        | (inl (ClientResponseError status message), s1) =>
            let last_error :=
              (ERROR_HTTP,
               T "HTTP " ++ str_of_int status ++ T ": " ++ message) in
            if (400 <=? status) && (status <? 500) && negb (status =? 429)
            then
              (log Error LogNonRetryable ;;;
               _fire_error_event webhook_id (fst last_error) (snd last_error)
                 (attempt + 1) (Some status) ;;;
               raise (ClientResponseError status message)) s1
            else
              (log Warning LogHttpError ;;;
               continue (Some last_error)) s1
        | (inl err, s1) =>
            (log Error LogUnexpected ;;;
             continue (Some (ERROR_CONNECTION, str_exn err))) s1
        end
  end.

(** The url, headers, payload and timeout [execute] settles on before any
    template is rendered, lines 56-68. *)
Record built : Type := {
  b_url : json;
  b_method : text;
  b_headers : dict text;
  b_payload : json;
  b_timeout : Z;
  b_retry_attempts : Z;
  b_retry_backoff : Z
}.

Definition build (config : config) (url_override : option text)
    (headers_override : option (dict text)) (payload_override : json)
    (timeout_override : option Z) : built :=
  let url := if str_truthy url_override then url_override else cfg_url config in
  let method := get_or (cfg_method config) (T "POST") in
  let headers := get_or (cfg_headers config) [] in
  let headers :=
    if dict_truthy headers_override
    then dict_update headers (get_or headers_override [])
    else headers in
  let payload :=
    match payload_override with
    | JNull => get_or (cfg_payload config) JNull
    | _ => payload_override
    end in
  let timeout :=
    if int_truthy timeout_override then get_or timeout_override 0
    else get_or (cfg_timeout config) DEFAULT_TIMEOUT in
  {| b_url := match url with Some u => JStr u | None => JNull end;
     b_method := method;
     b_headers := headers;
     b_payload := payload;
     b_timeout := timeout;
     b_retry_attempts := get_or (cfg_retry_attempts config) DEFAULT_RETRY_ATTEMPTS;
     b_retry_backoff := get_or (cfg_retry_backoff config) DEFAULT_RETRY_BACKOFF |}.

(** The three renderings of lines 72-74. *)
Definition render_all (b : built) : M (json * dict text * json) :=
  url <- _render_template (b_url b) ;;
  headers <- _render_headers (b_headers b) ;;
  payload <- _render_payload (b_payload b) ;;
  ret (url, headers, payload).

(** [WebhookExecutor.execute]; [None] is the [None] a Python function
    returns when it falls off its end. *)
Definition execute (config : config) (url_override : option text)
    (headers_override : option (dict text)) (payload_override : json)
    (timeout_override : option Z) : M (option response_data) :=
  let webhook_id := get_or (cfg_webhook_id config) (T "unknown") in
  let b := build config url_override headers_override payload_override
             timeout_override in
  fun s =>
    match render_all b s with
    | (inr (url, headers, payload), s1) =>
        retry_loop webhook_id url (b_method b) headers payload (b_timeout b)
          (b_retry_attempts b) (b_retry_backoff b)
          (range (b_retry_attempts b)) None s1
    | (inl (TemplateError msg), s1) =>
        (log Error LogTemplateFailed ;;;
         _fire_error_event webhook_id ERROR_TEMPLATE msg 0 None ;;;
         raise (TemplateError msg)) s1
    | (inl err, s1) => (inl err, s1)
    end.

(** ** __init__.py: the service handler *)

(** [call.data] under [service_schema]. *)
Record ServiceCall : Type := {
  call_webhook_id : text;
  call_url_override : option text;
  call_headers_override : option (dict text);
  call_payload_override : json;
  call_timeout_override : option Z
}.

(** [handle_webhook_call]; reading [response["status_code"]] off the [None]
    of an [execute] that fell off its end is a [TypeError] inside the [try]. *)
Definition handle_webhook_call (config_manager : WebhookConfigManager)
    (call : ServiceCall) : M response_data :=
  let webhook_id := call_webhook_id call in
  let webhook_config := get_webhook config_manager webhook_id in
  let failed (err : text) : M response_data :=
    log Error LogCallFailed ;;;
    raise (HomeAssistantError (T "Webhook execution failed: " ++ err)) in
  match webhook_config with
  | Some c =>
      if config_truthy c then
        fun s =>
          match execute c (call_url_override call)
                  (call_headers_override call) (call_payload_override call)
                  (call_timeout_override call) s with
          | (inr (Some response), s1) =>
              (log Debug LogCallOk ;;; ret response) s1
          | (inr None, s1) =>
              failed (T "'NoneType' object is not subscriptable") s1
          | (inl err, s1) => failed (str_exn err) s1
          end
      else
        raise (HomeAssistantError
                 (T "Webhook '" ++ webhook_id ++ T "' not found"))
  | None =>
      raise (HomeAssistantError
               (T "Webhook '" ++ webhook_id ++ T "' not found"))
  end.

End ExecutorMethods.

(** ** Reading a trace *)

Definition events (tr : list effect) : list event :=
  flat_map (fun e => match e with EFire ev => [ev] | _ => [] end) tr.

Definition requests (tr : list effect) : list request :=
  flat_map (fun e => match e with ERequest r => [r] | _ => [] end) tr.

Definition sleeps (tr : list effect) : list Z :=
  flat_map (fun e => match e with ESleep n => [n] | _ => [] end) tr.

Definition renders (tr : list effect) : list text :=
  flat_map (fun e => match e with ERender t => [t] | _ => [] end) tr.

(** The effects of [s'] that [s] does not have yet. *)
Definition since {E : Env} (s s' : state) : list effect :=
  skipn (length (trace s)) (trace s').


(** The failures after which the retry loop goes on: all but an HTTP error
    with a 4xx status other than 429. *)
Definition retryable (e : exn) : bool :=
  match e with
  | ClientResponseError status _ =>
      negb ((400 <=? status) && (status <? 500) && negb (status =? 429))
  | _ => true
  end.

(** The [last_error] slot after a failure. *)
Definition last_error_of {E : Env} (e : exn) : text * text :=
  match e with
  | ClientConnectorError msg => (ERROR_CONNECTION, msg)
  | TimeoutError msg => (ERROR_TIMEOUT, msg)
  | ClientResponseError status message =>
      (ERROR_HTTP, T "HTTP " ++ str_of_int status ++ T ": " ++ message)
  | _ => (ERROR_CONNECTION, str_exn e)
  end.

(** The log entry of a failure the loop goes on after. *)
Definition failure_log (e : exn) : effect :=
  match e with
  | ClientConnectorError _ => ELog Warning LogConnectionError
  | TimeoutError _ => ELog Warning LogTimeout
  | ClientResponseError _ _ => ELog Warning LogHttpError
  | _ => ELog Error LogUnexpected
  end.

(** The size a response declares is an integer above the cap. *)
Definition declared_over_cap {E : Env} (content_length : option text) : bool :=
  str_truthy content_length &&
  match py_int (get_or content_length []) with
  | Some n => n >? MAX_RESPONSE_SIZE
  | None => false
  end.

(** A state with more effects on record. *)
Definition record {E : Env} (s : state) (w : World) (tl : list effect)
  : state :=
  {| world := w; trace := trace s ++ tl |}.

(** ** The outcomes of [_make_request] and of an attempt *)

Section Outcomes.

Context {E : Env}.

(** The request [_make_request] issues. *)
Definition request_of (url : json) (method : text) (headers : dict text)
    (payload : json) (timeout : Z) : request :=
  {| req_method := method; req_url := url; req_headers := headers;
     req_timeout := timeout; req_body := request_body method payload |}.

(** The error of a declared size above the cap. *)
Definition size_error (content_length : option text) : exn :=
  HomeAssistantError
    (T "Response size (" ++ get_or content_length []
     ++ T " bytes) exceeds maximum allowed ("
     ++ str_of_int MAX_RESPONSE_SIZE ++ T " bytes)").

(** The [json] entry of the returned dict. *)
Definition parse_body (response_text : text) : json :=
  match response_text with
  | [] => JNull
  | _ :: _ =>
      match json_loads response_text with
      | Some j => j
      | None => JNull
      end
  end.

(** The dict [_make_request] returns for a response and the text kept. *)
Definition data_of (response : response) (response_text : text)
  : response_data :=
  {| rd_status_code := resp_status response;
     rd_headers := resp_headers response;
     rd_body := response_text;
     rd_json := parse_body response_text |}.

(** The loop of [_render_payload] over the items of a list. *)
Fixpoint render_items (items : list json) : M (list json) :=
  match items with
  | [] => ret []
  | item :: items' =>
      v <- _render_payload item ;;
      vs <- render_items items' ;;
      ret (v :: vs)
  end.

(** The loop of [_render_payload] over the items of a dict. *)
Fixpoint render_entries (items : list (text * json)) (rendered : dict json)
  : M json :=
  match items with
  | [] => ret (JDict rendered)
  | (key, value) :: items' =>
      v <- _render_payload value ;;
      render_entries items' (dict_set key v rendered)
  end.

(** [m] only reads the world and records renderings: in a world [w] it has
    one result and one list of rendered templates, whatever the trace so
    far, and it fails with a [TemplateError] if it fails. *)
Definition renders_only {A : Type} (m : M A) : Prop :=
  forall w : World,
  exists (res : exn + A) (tl : list effect),
    Forall (fun e => exists t, e = ERender t) tl /\
    (forall e, res = inl e -> exists msg, e = TemplateError msg) /\
    forall s, world s = w -> m s = (res, record s w tl).


(** [d[k] = v] for each binding of [items], in order. *)
Definition set_all {V : Type} (items d : dict V) : dict V :=
  fold_left (fun d kv => dict_set (fst kv) (snd kv) d) items d.

Variables (webhook_id : text) (url : json) (method : text)
  (headers : dict text) (payload : json) (timeout : Z)
  (retry_attempts retry_backoff : Z).

(** The state the loop goes on from after a failed attempt. *)
Definition waited (attempt : Z) (e : exn) (s1 : state) : state :=
  if attempt <? retry_attempts - 1 then
    record s1 (asyncio_sleep (retry_backoff ^ attempt) (world s1))
      [failure_log e; ELog Debug LogWaiting; ESleep (retry_backoff ^ attempt)]
  else record s1 (world s1) [failure_log e].

(** The three ways an attempt ends. *)
Inductive attempt_case (attempt : Z) (rest : list Z)
    (last_error : option (text * text)) (s : state) : Prop :=
| CaseSuccess (rd : response_data) (s1 : state) :
    _make_request url method headers payload timeout s = (inr rd, s1) ->
    retry_loop webhook_id url method headers payload timeout retry_attempts
      retry_backoff (attempt :: rest) last_error s =
      (inr (Some rd),
       record s1 (world s1)
         [EFire (WebhookSuccess webhook_id (rd_status_code rd) (attempt + 1));
          ELog Debug LogSuccess]) ->
    attempt_case attempt rest last_error s
| CaseAbort (status : Z) (message : text) (s1 : state) :
    _make_request url method headers payload timeout s =
      (inl (ClientResponseError status message), s1) ->
    retryable (ClientResponseError status message) = false ->
    retry_loop webhook_id url method headers payload timeout retry_attempts
      retry_backoff (attempt :: rest) last_error s =
      (inl (ClientResponseError status message),
       record s1 (world s1)
         [ELog Error LogNonRetryable;
          EFire (WebhookError webhook_id ERROR_HTTP
                   (T "HTTP " ++ str_of_int status ++ T ": " ++ message)
                   (attempt + 1) (Some status))]) ->
    attempt_case attempt rest last_error s
| CaseRetry (e : exn) (s1 : state) :
    _make_request url method headers payload timeout s = (inl e, s1) ->
    retryable e = true ->
    retry_loop webhook_id url method headers payload timeout retry_attempts
      retry_backoff (attempt :: rest) last_error s =
      retry_loop webhook_id url method headers payload timeout retry_attempts
        retry_backoff rest (Some (last_error_of e))
        (waited attempt e s1) ->
    attempt_case attempt rest last_error s.

End Outcomes.

(** The requests and waits of a trace, in order. *)
Inductive step : Type :=
| Attempt
| Wait (seconds : Z).

Definition schedule (tr : list effect) : list step :=
  flat_map (fun e => match e with
                     | ERequest _ => [Attempt]
                     | ESleep n => [Wait n]
                     | _ => []
                     end) tr.

(** [r] attempts, the first numbered [a + 1], with a wait of
    [base ** (k - 1)] seconds between attempt [k] and attempt [k + 1]. *)
Fixpoint backoff_schedule (base a : Z) (r : nat) : list step :=
  match r with
  | O => []
  | S O => [Attempt]
  | S r' => Attempt :: Wait (base ^ a) :: backoff_schedule base (a + 1) r'
  end.

(** The reading of "a fresh render per attempt": between two requests the
    renderer is invoked at least once.  [rendered] tells whether it has
    been invoked since the last request. *)
Fixpoint fresh_render_from (rendered : bool) (tr : list effect) : bool :=
  match tr with
  | [] => true
  | ERender _ :: tr' => fresh_render_from true tr'
  | ERequest _ :: tr' => rendered && fresh_render_from false tr'
  | _ :: tr' => fresh_render_from rendered tr'
  end.

Definition fresh_render_per_attempt (tr : list effect) : bool :=
  fresh_render_from false tr.

(** ** A scripted world, for running the executor on concrete inputs *)

Module Sim.

(** The world is a clock and the outcomes the next requests will meet. *)
Record sim_world : Type := {
  clock : Z;
  script : list (exn + response)
}.

(** Templates render to the time on the clock; a template naming [bad]
    fails. *)
Definition sim_render (w : sim_world) (template : text) : text + text :=
  if contains (T "bad") template then inl (T "UndefinedError: bad")
  else inr (T "http://host/" ++ str_of_int (clock w)).

Definition sim_request (w : sim_world) (_ : request)
  : (exn + response) * sim_world :=
  match script w with
  | [] => (inl (ClientConnectorError (T "refused")),
           {| clock := clock w + 1; script := [] |})
  | o :: rest => (o, {| clock := clock w + 1; script := rest |})
  end.

Definition sim_sleep (seconds : Z) (w : sim_world) : sim_world :=
  {| clock := clock w + seconds; script := script w |}.

Definition sim_json_loads (s : text) : option json :=
  if text_eqb s (T "{}") then Some (JDict [])
  else if text_eqb s (T "[]") then Some (JList [])
  else if text_eqb s (T "2") then Some (JInt 2)
  else None.

Fixpoint digits (acc : Z) (s : text) : option Z :=
  match s with
  | [] => Some acc
  | c :: s' =>
      if (48 <=? c) && (c <=? 57) then digits (10 * acc + (c - 48)) s'
      else None
  end.

Definition sim_int (s : text) : option Z :=
  match s with
  | [] => None
  | _ :: _ => digits 0 s
  end.

Definition sim_upper (s : text) : text :=
  map (fun c => if (97 <=? c) && (c <=? 122) then c - 32 else c) s.

Definition env : Env := {|
  World := sim_world;
  async_render := sim_render;
  session_request := sim_request;
  asyncio_sleep := sim_sleep;
  json_loads := sim_json_loads;
  py_int := sim_int;
  py_upper := sim_upper;
  py_repr := fun _ => T "<repr>";
  response_error_str := fun status message =>
    str_of_int status ++ T ", message=" ++ message
|}.

Definition start (outcomes : list (exn + response)) : @state env :=
  {| world := ({| clock := 0; script := outcomes |} : @World env);
     trace := [] |}.

Definition ok (status : Z) (body_text : text) : exn + response :=
  inr {| resp_status := status; resp_reason := T "OK";
         resp_content_length := None; resp_headers := [];
         resp_text := inr body_text |}.

Definition webhook (webhook_id url : text) (retry_attempts : Z) : config :=
  {| cfg_webhook_id := Some webhook_id; cfg_name := Some (T "demo");
     cfg_url := Some url; cfg_method := Some (T "POST");
     cfg_headers := Some []; cfg_payload := None;
     cfg_timeout := Some 10; cfg_retry_attempts := Some retry_attempts;
     cfg_retry_backoff := Some 2 |}.

(** One [a] and 524288 two-byte characters: one byte more than the cap. *)
Definition long_text : text := 97 :: repeat 233 (Z.to_nat 524288).


(** The same response, declaring 2 MiB. *)
Definition declared_response : response :=
  {| resp_status := 200; resp_reason := T "OK";
     resp_content_length := Some (T "2097152"); resp_headers := [];
     resp_text := inr long_text |}.

(** The world once the only request of the script is made. *)
Definition after_one : @World env := {| clock := 1; script := [] |}.


Definition refused : exn + response :=
  inl (ClientConnectorError (T "refused")).

(** A response with an empty body. *)
Definition http (status : Z) (reason : text) : exn + response :=
  inr {| resp_status := status; resp_reason := reason;
         resp_content_length := None; resp_headers := [];
         resp_text := inr [] |}.

Definition manager (yaml : list config) (stored : dict config)
  : WebhookConfigManager :=
  {| yaml_webhooks := Some yaml;
     storage := {| data_webhooks := Some stored |} |}.

Definition call (webhook_id : text) : ServiceCall :=
  {| call_webhook_id := webhook_id; call_url_override := None;
     call_headers_override := None; call_payload_override := JNull;
     call_timeout_override := None |}.

Definition empty_config : config :=
  {| cfg_webhook_id := None; cfg_name := None; cfg_url := None;
     cfg_method := None; cfg_headers := None; cfg_payload := None;
     cfg_timeout := None; cfg_retry_attempts := None;
     cfg_retry_backoff := None |}.

End Sim.

(** ** Payloads without templates *)

(** No key occurs twice: what every Python dict satisfies. *)
Fixpoint distinct (ks : list text) : bool :=
  match ks with
  | [] => true
  | k :: ks' => negb (existsb (text_eqb k) ks') && distinct ks'
  end.

(** Every dict of the value has one binding per key. *)
Fixpoint well_formed (p : json) : bool :=
  match p with
  | JList items => forallb well_formed items
  | JDict items =>
      distinct (keys items) && forallb (fun kv => well_formed (snd kv)) items
  | _ => true
  end.

(** A string [_render_payload] leaves alone: it has no template marker and
    does not start, after_call whitespace, with a brace or a bracket. *)
Definition plain_text (s : text) : bool :=
  negb (contains (T "{{") s || contains (T "{%") s)
  && negb (looks_like_json s).

(** A payload all of whose strings are plain. *)
Fixpoint plain (p : json) : bool :=
  match p with
  | JStr s => plain_text s
  | JList items => forallb plain items
  | JDict items => forallb (fun kv => plain (snd kv)) items
  | _ => true
  end.



(** ** storage.py: the methods that change the stored configurations *)

(** [del d[k]] for a key [k] of [d]. *)
Fixpoint dict_del {V : Type} (k : text) (d : dict V) : dict V :=
  match d with
  | [] => []
  | (k', v) :: d' =>
      if text_eqb k k' then d' else (k', v) :: dict_del k d'
  end.

(** The log lines of [WebhookStorage], with the values they print. *)
Inductive storage_log : Type :=
| LogLoaded (count : Z)
| LogSaved (count : Z)
| LogAddedWebhook (webhook_id : text)
| LogRemovedWebhook (webhook_id : text).

(** A [WebhookStorage] object: its [self.data], what its [Store] holds
    ([None] before the first save), and the lines it has logged. *)
Record storage_state : Type := {
  ss_data : WebhookStorage;
  ss_store : option WebhookStorage;
  ss_log : list (level * storage_log)
}.

(** [WebhookStorage.__init__] over a store. *)
Definition new_storage (store : option WebhookStorage) : storage_state :=
  {| ss_data := {| data_webhooks := Some [] |};
     ss_store := store;
     ss_log := [] |}.

(** [bool(data)] for what [Store.async_load] returns: [None], or a dict that
    is empty when it lacks the [webhooks] key. *)
Definition data_truthy (data : option WebhookStorage) : bool :=
  match data with
  | Some d => is_some (data_webhooks d)
  | None => false
  end.

(** [WebhookStorage.async_load] *)
Definition storage_async_load (st : storage_state) : storage_state :=
  let data := ss_store st in
  let self_data :=
    if data_truthy data then get_or data (ss_data st) else ss_data st in
  {| ss_data := self_data;
     ss_store := ss_store st;
     ss_log := ss_log st
               ++ [(Debug, LogLoaded (len (storage_webhooks self_data)))] |}.

(** [WebhookStorage.async_save] *)
Definition storage_async_save (st : storage_state) : storage_state :=
  {| ss_data := ss_data st;
     ss_store := Some (ss_data st);
     ss_log := ss_log st
               ++ [(Debug, LogSaved (len (storage_webhooks (ss_data st))))] |}.

Definition storage_log_info (l : storage_log) (st : storage_state)
  : storage_state :=
  {| ss_data := ss_data st; ss_store := ss_store st;
     ss_log := ss_log st ++ [(Info, l)] |}.

(** [WebhookStorage.async_add_webhook] *)
Definition storage_async_add_webhook (webhook_id : text) (config : config)
    (st : storage_state) : storage_state :=
  let webhooks := get_or (data_webhooks (ss_data st)) [] in
  let st1 :=
    {| ss_data := {| data_webhooks := Some (dict_set webhook_id config webhooks) |};
       ss_store := ss_store st;
       ss_log := ss_log st |} in
  storage_log_info (LogAddedWebhook webhook_id) (storage_async_save st1).

(** [WebhookStorage.async_remove_webhook] *)
Definition storage_async_remove_webhook (webhook_id : text)
    (st : storage_state) : storage_state :=
  if dict_mem webhook_id (storage_webhooks (ss_data st)) then
    let st1 :=
      {| ss_data :=
           {| data_webhooks :=
                Some (dict_del webhook_id (storage_webhooks (ss_data st))) |};
         ss_store := ss_store st;
         ss_log := ss_log st |} in
    storage_log_info (LogRemovedWebhook webhook_id) (storage_async_save st1)
  else st.

(** A [WebhookConfigManager] object. *)
Record manager_state : Type := {
  ms_yaml : option (list config);
  ms_storage : storage_state
}.

(** What the reading methods of the manager see. *)
Definition manager_of (m : manager_state) : WebhookConfigManager :=
  {| yaml_webhooks := ms_yaml m; storage := ss_data (ms_storage m) |}.

(** [WebhookConfigManager.__init__] *)
Definition new_manager (yaml : option (list config))
    (store : option WebhookStorage) : manager_state :=
  {| ms_yaml := yaml; ms_storage := new_storage store |}.

(** [WebhookConfigManager.async_setup] *)
Definition manager_async_setup (m : manager_state) : manager_state :=
  {| ms_yaml := ms_yaml m; ms_storage := storage_async_load (ms_storage m) |}.

(** [WebhookConfigManager.async_add_webhook] *)
Definition manager_async_add_webhook (webhook_id : text) (config : config)
    (m : manager_state) : manager_state :=
  {| ms_yaml := ms_yaml m;
     ms_storage := storage_async_add_webhook webhook_id config (ms_storage m) |}.

(** [WebhookConfigManager.async_remove_webhook] *)
Definition manager_async_remove_webhook (webhook_id : text)
    (m : manager_state) : manager_state :=
  {| ms_yaml := ms_yaml m;
     ms_storage := storage_async_remove_webhook webhook_id (ms_storage m) |}.

(** The declarative entries carry ids, all non-empty and all different. *)
Definition yaml_ids_distinct (l : list config) : bool :=
  forallb (fun webhook => str_truthy (cfg_webhook_id webhook)) l
  && distinct (map (fun webhook => get_or (cfg_webhook_id webhook) []) l).

(** ** __init__.py: setting up the component and its config entries *)

Definition DOMAIN : text := T "webhook_actions".
Definition CONF_NAME : text := T "name".

(** [KeyError(key)]; its [str] is the [repr] of the key. *)
Definition KeyError (key : text) : exn :=
  OtherException (T "'" ++ key ++ T "'").

(** A [ConfigEntry], of which the module reads [entry.data]. *)
Record ConfigEntry : Type := {
  entry_data : config
}.

(** [hass.data[DOMAIN]]: a key is [None] when absent.  [yaml_config] holds
    the [webhooks] list of the YAML configuration ([None] when the YAML has
    none); [config_manager] holds a reference to a manager object. *)
Record domain_data : Type := {
  dd_yaml_config : option (option (list config));
  dd_config_manager : option nat
}.

(** The log lines of the module with the values they print, and the
    registration of an update listener on an entry. *)
Inductive setup_effect : Type :=
| LogServicesRegistered
| LogInitialized (count : Z)
| LogEntryAdded (name : text)
| LogEntryRemoved (name : text)
| LogEntryUpdated (name : text)
| UpdateListenerAdded.

(** What the module sees and changes of a Home Assistant instance:
    [hass.data.get(DOMAIN)]; the [WebhookConfigManager] objects made so far,
    a reference being a position in the list; the manager that the handler
    registered for the service [call] closes over ([None] when
    [has_service] is false); what the store of [STORAGE_KEY] holds; and the
    effects so far. *)
Record hass : Type := {
  hass_data : option domain_data;
  hass_objects : list manager_state;
  hass_service : option nat;
  hass_store : option WebhookStorage;
  hass_trace : list setup_effect
}.

(** An instance on which nothing of the integration has run. *)
Definition hass_start (store : option WebhookStorage) : hass :=
  {| hass_data := None; hass_objects := []; hass_service := None;
     hass_store := store; hass_trace := [] |}.

Definition set_data (d : domain_data) (h : hass) : hass :=
  {| hass_data := Some d; hass_objects := hass_objects h;
     hass_service := hass_service h; hass_store := hass_store h;
     hass_trace := hass_trace h |}.

Definition setup_emit (e : setup_effect) (h : hass) : hass :=
  {| hass_data := hass_data h; hass_objects := hass_objects h;
     hass_service := hass_service h; hass_store := hass_store h;
     hass_trace := hass_trace h ++ [e] |}.

Fixpoint replace_at {A : Type} (r : nat) (x : A) (l : list A) : list A :=
  match l, r with
  | [], _ => []
  | _ :: l', O => x :: l'
  | y :: l', S r' => y :: replace_at r' x l'
  end.

(** Every [WebhookStorage] of the instance has its [Store] on the same key:
    a manager object works on what the instance's store holds. *)
Definition attach (store : option WebhookStorage) (m : manager_state)
  : manager_state :=
  {| ms_yaml := ms_yaml m;
     ms_storage := {| ss_data := ss_data (ms_storage m);
                      ss_store := store;
                      ss_log := ss_log (ms_storage m) |} |}.

(** A method call on the manager object behind a reference.  References
    are made by [new_config_manager] alone and objects are never freed, so
    the object is there. *)
Definition on_manager (r : nat) (method : manager_state -> manager_state)
    (h : hass) : hass :=
  match nth_error (hass_objects h) r with
  | Some m =>
      let m' := method (attach (hass_store h) m) in
      {| hass_data := hass_data h;
         hass_objects := replace_at r m' (hass_objects h);
         hass_service := hass_service h;
         hass_store := ss_store (ms_storage m');
         hass_trace := hass_trace h |}
  | None => h
  end.

(** [config_manager = WebhookConfigManager(hass, yaml_config)] followed by
    [await config_manager.async_setup()]: a new object, and its reference. *)
Definition new_config_manager (yaml_config : option (list config)) (h : hass)
  : nat * hass :=
  (length (hass_objects h),
   {| hass_data := hass_data h;
      hass_objects :=
        hass_objects h
        ++ [manager_async_setup (new_manager yaml_config (hass_store h))];
      hass_service := hass_service h;
      hass_store := hass_store h;
      hass_trace := hass_trace h |}).

(** [async_setup_services]: the handler registered closes over
    [config_manager], and replaces a handler registered before. *)
Definition async_setup_services (config_manager : nat) (h : hass) : hass :=
  setup_emit LogServicesRegistered
    {| hass_data := hass_data h; hass_objects := hass_objects h;
       hass_service := Some config_manager; hass_store := hass_store h;
       hass_trace := hass_trace h |}.

(** The manager a service call reads. *)
Definition service_manager (h : hass) : option WebhookConfigManager :=
  match hass_service h with
  | Some r => option_map manager_of (nth_error (hass_objects h) r)
  | None => None
  end.

(** [async_setup] *)
Definition async_setup (yaml_config : option (list config)) (h : hass)
  : bool * hass :=
  let '(config_manager, h1) := new_config_manager yaml_config h in
  let h2 :=
    set_data {| dd_yaml_config := Some yaml_config;
                dd_config_manager := Some config_manager |} h1 in
  let h3 := async_setup_services config_manager h2 in
  let count :=
    len (get_all_webhooks
           (manager_of
              (manager_async_setup
                 (new_manager yaml_config (hass_store h))))) in
  (true, setup_emit (LogInitialized count) h3).

(** [config_manager.async_add_webhook(entry.data[CONF_WEBHOOK_ID],
    entry.data)] and the log line that follows, which reads
    [entry.data[CONF_NAME]]. *)
Definition add_entry (config_manager : nat) (entry : ConfigEntry)
    (between : hass -> hass) (logged : text -> setup_effect) (h : hass)
  : (exn + unit) * hass :=
  match cfg_webhook_id (entry_data entry) with
  | None => (inl (KeyError CONF_WEBHOOK_ID), h)
  | Some webhook_id =>
      let h1 :=
        between
          (on_manager config_manager
             (manager_async_add_webhook webhook_id (entry_data entry)) h) in
      match cfg_name (entry_data entry) with
      | None => (inl (KeyError CONF_NAME), h1)
      | Some name => (inr tt, setup_emit (logged name) h1)
      end
  end.

(** The first part of [async_setup_entry]: afterwards [hass.data] holds a
    manager, whose reference is returned. *)
Definition ensure_manager (h : hass) : nat * hass :=
  let d :=
    get_or (hass_data h)
      {| dd_yaml_config := None; dd_config_manager := None |} in
  match dd_config_manager d with
  | Some r => (r, set_data d h)
  | None =>
      let '(r, h1) := new_config_manager None h in
      let h2 :=
        set_data {| dd_yaml_config := dd_yaml_config d;
                    dd_config_manager := Some r |} h1 in
      (r, if is_some (hass_service h2) then h2
          else async_setup_services r h2)
  end.

(** [async_setup_entry] *)
Definition async_setup_entry (entry : ConfigEntry) (h : hass)
  : (exn + bool) * hass :=
  let '(config_manager, h1) := ensure_manager h in
  match add_entry config_manager entry (setup_emit UpdateListenerAdded)
          LogEntryAdded h1 with
  | (inl e, h2) => (inl e, h2)
  | (inr _, h2) => (inr true, h2)
  end.

(** [hass.data[DOMAIN]["config_manager"]] *)
Definition data_config_manager (h : hass) : exn + nat :=
  match hass_data h with
  | None => inl (KeyError DOMAIN)
  | Some d =>
      match dd_config_manager d with
      | None => inl (KeyError (T "config_manager"))
      | Some r => inr r
      end
  end.

(** [async_unload_entry] *)
Definition async_unload_entry (entry : ConfigEntry) (h : hass)
  : (exn + bool) * hass :=
  match data_config_manager h with
  | inl e => (inl e, h)
  | inr config_manager =>
      match cfg_webhook_id (entry_data entry) with
      | None => (inl (KeyError CONF_WEBHOOK_ID), h)
      | Some webhook_id =>
          let h1 :=
            on_manager config_manager
              (manager_async_remove_webhook webhook_id) h in
          match cfg_name (entry_data entry) with
          | None => (inl (KeyError CONF_NAME), h1)
          | Some name => (inr true, setup_emit (LogEntryRemoved name) h1)
          end
      end
  end.

(** [async_reload_entry] *)
Definition async_reload_entry (entry : ConfigEntry) (h : hass)
  : (exn + unit) * hass :=
  match async_unload_entry entry h with
  | (inl e, h1) => (inl e, h1)
  | (inr _, h1) =>
      match async_setup_entry entry h1 with
      | (inl e, h2) => (inl e, h2)
      | (inr _, h2) => (inr tt, h2)
      end
  end.

(** [async_update_options] *)
Definition async_update_options (entry : ConfigEntry) (h : hass)
  : (exn + unit) * hass :=
  match data_config_manager h with
  | inl e => (inl e, h)
  | inr config_manager =>
      add_entry config_manager entry (fun h => h) LogEntryUpdated h
  end.

(** The calls Home Assistant makes into the module. *)
Inductive setup_call : Type :=
| CallSetup (yaml_config : option (list config))
| CallSetupEntry (entry : ConfigEntry)
| CallUnloadEntry (entry : ConfigEntry)
| CallReloadEntry (entry : ConfigEntry)
| CallUpdateOptions (entry : ConfigEntry).

(** The instance after_call a call, whether it returned or raised. *)
Definition after_call (c : setup_call) (h : hass) : hass :=
  match c with
  | CallSetup yaml_config => snd (async_setup yaml_config h)
  | CallSetupEntry entry => snd (async_setup_entry entry h)
  | CallUnloadEntry entry => snd (async_unload_entry entry h)
  | CallReloadEntry entry => snd (async_reload_entry entry h)
  | CallUpdateOptions entry => snd (async_update_options entry h)
  end.

Definition after_calls (cs : list setup_call) (h : hass) : hass :=
  fold_left (fun h c => after_call c h) cs h.

(** What a new [WebhookStorage] loads from a store. *)
Definition loaded (store : option WebhookStorage) : WebhookStorage :=
  ss_data (storage_async_load (new_storage store)).

(** The handler of the service reads the manager that [hass.data] holds,
    and that manager holds what a new storage would load, one binding per
    id. *)
Definition consistent (h : hass) : Prop :=
  NoDup (keys (storage_webhooks (loaded (hass_store h)))) /\
  match hass_data h with
  | None => hass_service h = None
  | Some d =>
      exists r m,
        dd_config_manager d = Some r /\
        hass_service h = Some r /\
        nth_error (hass_objects h) r = Some m /\
        ss_data (ms_storage m) = loaded (hass_store h)
  end.

(** A store holds a JSON object: one binding per id. *)
Definition store_distinct (store : option WebhookStorage) : bool :=
  match store with
  | Some d => distinct (keys (storage_webhooks d))
  | None => true
  end.

(** Two instances that differ at most in the effects recorded. *)
Definition same_instance (h h' : hass) : Prop :=
  hass_data h' = hass_data h /\ hass_objects h' = hass_objects h /\
  hass_service h' = hass_service h /\ hass_store h' = hass_store h.

(** ** Concrete cases *)

Module Cases.

(** A payload with no template in it. *)
Definition nested_payload : json :=
  JDict [(T "a", JStr (T "x"));
         (T "b", JList [JInt 1; JNull; JStr (T "plain text")])].



Definition short_response : response :=
  {| resp_status := 200; resp_reason := T "OK";
     resp_content_length := None; resp_headers := [];
     resp_text := inr (T "{}") |}.

(** A storage object holding two webhooks, never saved. *)
Definition two_stored : storage_state :=
  {| ss_data :=
       {| data_webhooks :=
            Some [(T "a", Sim.webhook (T "a") (T "http://a/") 3);
                  (T "b", Sim.webhook (T "b") (T "http://b/") 3)] |};
     ss_store := None;
     ss_log := [] |}.

(** The config entry of a webhook. *)
Definition entry (webhook_id url : text) : ConfigEntry :=
  {| entry_data := Sim.webhook webhook_id url 3 |}.

(** An entry whose data lacks the name. *)
Definition nameless_entry (webhook_id : text) : ConfigEntry :=
  {| entry_data :=
       {| cfg_webhook_id := Some webhook_id; cfg_name := None;
          cfg_url := Some (T "http://host/"); cfg_method := None;
          cfg_headers := None; cfg_payload := None; cfg_timeout := None;
          cfg_retry_attempts := None; cfg_retry_backoff := None |} |}.

(** An instance set up from YAML with one webhook, then given an entry
    under the same id. *)
Definition yaml_then_entry : hass :=
  after_calls
    [CallSetup (Some [Sim.webhook (T "w") (T "http://yaml/") 3]);
     CallSetupEntry (entry (T "w") (T "http://entry/"))]
    (hass_start None).

End Cases.

(** * Facts *)

(** ** The UTF-8 codec *)

Module Utf8Facts.
Import Utf8.

Ltac zbool :=
  unfold second_of_3, second_of_4, is_cont;
  repeat match goal with
         | |- context [?a =? ?b] => destruct (Z.eqb_spec a b)
         | |- context [?a <? ?b] => destruct (Z.ltb_spec a b)
         | |- context [?a <=? ?b] => destruct (Z.leb_spec a b)
         end;
  cbn [andb orb negb]; try reflexivity; exfalso; Z.div_mod_to_equations; lia.

Ltac settle_if :=
  match goal with
  | |- context [if ?b then _ else _] =>
      first [ replace b with true by (symmetry; zbool)
            | replace b with false by (symmetry; zbool) ];
      cbv beta iota
  end.

Lemma decode_ignore_cons (b0 : byte) (r0 : list byte) :
  decode_ignore (b0 :: r0) =
    if b0 <? 0x80 then b0 :: decode_ignore r0
    else if (0xC2 <=? b0) && (b0 <=? 0xDF) then
      match r0 with
      | [] => []
      | b1 :: r1 =>
          if is_cont b1
          then ((b0 - 0xC0) * 64 + (b1 - 0x80)) :: decode_ignore r1
          else decode_ignore r0
      end
    else if (0xE0 <=? b0) && (b0 <=? 0xEF) then
      match r0 with
      | [] => []
      | b1 :: r1 =>
          if second_of_3 b0 b1 then
            match r1 with
            | [] => []
            | b2 :: r2 =>
                if is_cont b2
                then ((b0 - 0xE0) * 4096 + (b1 - 0x80) * 64 + (b2 - 0x80))
                       :: decode_ignore r2
                else decode_ignore r1
            end
          else decode_ignore r0
      end
    else if (0xF0 <=? b0) && (b0 <=? 0xF4) then
      match r0 with
      | [] => []
      | b1 :: r1 =>
          if second_of_4 b0 b1 then
            match r1 with
            | [] => []
            | b2 :: r2 =>
                if is_cont b2 then
                  match r2 with
                  | [] => []
                  | b3 :: r3 =>
                      if is_cont b3
                      then ((b0 - 0xF0) * 262144 + (b1 - 0x80) * 4096
                            + (b2 - 0x80) * 64 + (b3 - 0x80))
                             :: decode_ignore r3
                      else decode_ignore r2
                  end
                else decode_ignore r1
            end
          else decode_ignore r0
      end
    else decode_ignore r0.
Proof. destruct r0 as [|b1 [|b2 [|b3 r3]]]; reflexivity. Qed.

Lemma is_scalar_range (c : char) :
  is_scalar c = true -> 0 <= c < 0xD800 \/ 0xE000 <= c <= 0x10FFFF.
Proof.
  unfold is_scalar. intros H.
  apply orb_true_iff in H as [H|H]; apply andb_true_iff in H as [H1 H2]; lia.
Qed.

Lemma div_4096 (c : Z) : c / 4096 = c / 64 / 64.
Proof. rewrite Z.div_div by lia. reflexivity. Qed.

Lemma div_262144 (c : Z) : c / 262144 = c / 64 / 64 / 64.
Proof. rewrite !Z.div_div by lia. reflexivity. Qed.

Lemma encode_char_shape (c : char) :
  is_scalar c = true -> encoded c (encode_char c).
Proof.
  intros H. apply is_scalar_range in H. unfold encode_char.
  rewrite div_262144, !div_4096.
  destruct (Z.ltb_spec c 0x80); [constructor; lia|].
  destruct (Z.ltb_spec c 0x800); [constructor; lia|].
  destruct (Z.ltb_spec c 0x10000); constructor; lia.
Qed.

Lemma decode_encode_char (c : char) (rest : list byte) :
  is_scalar c = true ->
  decode_ignore (encode_char c ++ rest) = c :: decode_ignore rest.
Proof.
  intros H. destruct (encode_char_shape c H); cbn [app];
    rewrite decode_ignore_cons; repeat settle_if.
  all: clear H.
  all: f_equal; Z.div_mod_to_equations; lia.
Qed.

Lemma len_app {A : Type} (l r : list A) : len (l ++ r) = len l + len r.
Proof. unfold len. rewrite length_app. lia. Qed.

Lemma len_nonneg {A : Type} (l : list A) : 0 <= len l.
Proof. unfold len. lia. Qed.

Lemma len_cons {A : Type} (x : A) (l : list A) : len (x :: l) = 1 + len l.
Proof. unfold len. cbn [length]. lia. Qed.

Lemma slice_to_nonpos {A : Type} (n : Z) (l : list A) :
  n <= 0 -> slice_to n l = [].
Proof.
  intros H. destruct l as [|x r]; [reflexivity|]. cbn [slice_to].
  destruct (Z.leb_spec n 0); [reflexivity | lia].
Qed.

Lemma slice_to_cons {A : Type} (n : Z) (x : A) (r : list A) :
  0 < n -> slice_to n (x :: r) = x :: slice_to (n - 1) r.
Proof.
  intros H. cbn [slice_to]. destruct (Z.leb_spec n 0); [lia | reflexivity].
Qed.

Lemma slice_to_app_ge {A : Type} (l r : list A) (n : Z) :
  len l <= n -> slice_to n (l ++ r) = l ++ slice_to (n - len l) r.
Proof.
  revert n. induction l as [|x l IH]; intros n H.
  - cbn. f_equal. unfold len. cbn. lia.
  - rewrite len_cons in *. pose proof (len_nonneg l).
    cbn [app]. rewrite slice_to_cons by lia. rewrite IH by lia.
    do 3 f_equal. lia.
Qed.

Lemma slice_to_app_lt {A : Type} (l r : list A) (n : Z) :
  n < len l -> slice_to n (l ++ r) = slice_to n l.
Proof.
  revert n. induction l as [|x l IH]; intros n H.
  - unfold len in H. cbn in H. now rewrite slice_to_nonpos by lia.
  - rewrite len_cons in H. cbn [app].
    destruct (Z.leb_spec n 0).
    + now rewrite !slice_to_nonpos by lia.
    + rewrite !slice_to_cons by lia. now rewrite IH by lia.
Qed.

Lemma encoded_len (c : char) (bs : list byte) :
  encoded c bs -> 1 <= len bs <= 4.
Proof. destruct 1; unfold len; cbn [length]; lia. Qed.

Lemma encode_char_len (c : char) :
  is_scalar c = true -> 1 <= len (encode_char c) <= 4.
Proof. intros H. now apply (encoded_len c), encode_char_shape. Qed.

(** A sequence the slice cuts short decodes to nothing. *)
Lemma decode_cut_char (c : char) (n : Z) :
  is_scalar c = true -> n < len (encode_char c) ->
  decode_ignore (slice_to n (encode_char c)) = [].
Proof.
  intros H. destruct (encode_char_shape c H) as [R|R|R|R]; clear H;
    unfold len; cbn [length]; intros Hn;
    (destruct (Z.leb_spec n 0); [now rewrite slice_to_nonpos by lia|]).
  - lia.
  - assert (n = 1) as -> by lia.
    rewrite slice_to_cons, slice_to_nonpos by lia.
    rewrite decode_ignore_cons. now repeat settle_if.
  - assert (n = 1 \/ n = 2) as [-> | ->] by lia.
    + rewrite slice_to_cons, slice_to_nonpos by lia.
      rewrite decode_ignore_cons. now repeat settle_if.
    + rewrite !slice_to_cons, slice_to_nonpos by lia.
      rewrite decode_ignore_cons. now repeat settle_if.
  - assert (n = 1 \/ n = 2 \/ n = 3) as [-> | [-> | ->]] by lia.
    + rewrite slice_to_cons, slice_to_nonpos by lia.
      rewrite decode_ignore_cons. now repeat settle_if.
    + rewrite !slice_to_cons, slice_to_nonpos by lia.
      rewrite decode_ignore_cons. now repeat settle_if.
    + rewrite !slice_to_cons, slice_to_nonpos by lia.
      rewrite decode_ignore_cons. now repeat settle_if.
Qed.

Lemma encode_cons_inv (c : char) (s : text) (bs : list byte) :
  encode (c :: s) = Some bs ->
  is_scalar c = true /\ exists bs', encode s = Some bs' /\ bs = encode_char c ++ bs'.
Proof.
  cbn [encode]. destruct (is_scalar c); [|discriminate].
  destruct (encode s) as [bs'|]; [|discriminate].
  intros [= <-]. eauto.
Qed.

(** Decoding a slice of an encoding keeps the characters that fit whole. *)
Lemma decode_slice (s : text) :
  forall (bs : list byte) (cap : Z),
    encode s = Some bs ->
    decode_ignore (slice_to cap bs) = fit_prefix cap s.
Proof.
  induction s as [|c s IH]; intros bs cap H.
  - injection H as <-. reflexivity.
  - apply encode_cons_inv in H as (Hc & bs' & Hs & ->).
    cbn [fit_prefix]. destruct (Z.leb_spec (len (encode_char c)) cap).
    + rewrite slice_to_app_ge by assumption.
      rewrite decode_encode_char by assumption. f_equal. now apply IH.
    + rewrite slice_to_app_lt by assumption. now apply decode_cut_char.
Qed.

Lemma encode_len (s : text) :
  forall bs, encode s = Some bs -> len bs = byte_len s.
Proof.
  induction s as [|c s IH]; intros bs H.
  - now injection H as <-.
  - apply encode_cons_inv in H as (Hc & bs' & Hs & ->).
    rewrite len_app. cbn [byte_len]. now rewrite (IH bs').
Qed.

Lemma encode_scalar (s : text) (bs : list byte) :
  encode s = Some bs -> Forall (fun c => is_scalar c = true) s.
Proof.
  revert bs. induction s as [|c s IH]; intros bs H; constructor.
  - now apply encode_cons_inv in H.
  - apply encode_cons_inv in H as (_ & bs' & Hs & _). eauto.
Qed.

Lemma fit_prefix_fits (s : text) :
  forall cap, 0 <= cap -> byte_len (fit_prefix cap s) <= cap.
Proof.
  induction s as [|c s IH]; intros cap H; cbn [fit_prefix byte_len]; [lia|].
  destruct (Z.leb_spec (len (encode_char c)) cap); cbn [byte_len]; [|lia].
  specialize (IH (cap - len (encode_char c))). lia.
Qed.

Lemma fit_prefix_tight (s : text) :
  Forall (fun c => is_scalar c = true) s ->
  forall cap, 0 <= cap < byte_len s -> cap - 3 <= byte_len (fit_prefix cap s).
Proof.
  induction 1 as [|c s Hc _ IH]; intros cap H; cbn [fit_prefix byte_len] in *;
    [lia|].
  pose proof (encode_char_len c Hc).
  destruct (Z.leb_spec (len (encode_char c)) cap); cbn [byte_len]; [|lia].
  specialize (IH (cap - len (encode_char c))). lia.
Qed.

Lemma fit_prefix_is_prefix (s : text) :
  forall cap, exists rest, s = fit_prefix cap s ++ rest.
Proof.
  induction s as [|c s IH]; intros cap; cbn [fit_prefix].
  - now exists [].
  - destruct (len (encode_char c) <=? cap).
    + destruct (IH (cap - len (encode_char c))) as [rest Hr].
      exists rest. cbn [app]. now f_equal.
    + now exists (c :: s).
Qed.

Lemma encode_total (s : text) :
  Forall (fun c => is_scalar c = true) s -> exists bs, encode s = Some bs.
Proof.
  induction 1 as [|c s Hc _ [bs IH]]; cbn [encode]; [now exists []|].
  rewrite Hc, IH. eauto.
Qed.




Lemma byte_len_repeat (c : char) (k : nat) :
  byte_len (repeat c k) = len (encode_char c) * Z.of_nat k.
Proof. induction k as [|k IH]; cbn [repeat byte_len]; lia. Qed.





End Utf8Facts.

(** ** Running the monad *)

Section RunFacts.

Context {E : Env}.

Lemma record_record (s : state) (w w' : World) (tl tl' : list effect) :
  record (record s w tl) w' tl' = record s w' (tl ++ tl').
Proof. unfold record. cbn. now rewrite app_assoc. Qed.

Lemma record_nil (s : state) : record s (world s) [] = s.
Proof. destruct s. unfold record. cbn. now rewrite app_nil_r. Qed.

Lemma since_record (s : state) (w : World) (tl : list effect) :
  since s (record s w tl) = tl.
Proof.
  unfold since, record. cbn [trace].
  rewrite skipn_app, skipn_all, Nat.sub_diag. reflexivity.
Qed.

Lemma emit_run (e : effect) (s : state) :
  emit e s = (inr tt, record s (world s) [e]).
Proof. reflexivity. Qed.

Lemma sleep_run (n : Z) (s : state) :
  sleep n s = (inr tt, record s (asyncio_sleep n (world s)) [ESleep n]).
Proof. reflexivity. Qed.

Lemma bind_run {A B : Type} (m : M A) (k : A -> M B) (s : state) :
  bind m k s =
    match m s with
    | (inr a, s') => k a s'
    | (inl e, s') => (inl e, s')
    end.
Proof. reflexivity. Qed.

Lemma check_content_length_run (cl : option text) (s : state) :
  check_content_length cl s =
    if declared_over_cap cl then (inl (size_error cl), s) else (inr tt, s).
Proof.
  unfold check_content_length, declared_over_cap, size_error.
  destruct (str_truthy cl); cbn [andb]; [|reflexivity].
  destruct (py_int (get_or cl [])) as [n|]; [|reflexivity].
  destruct (n >? MAX_RESPONSE_SIZE); reflexivity.
Qed.

(** [_make_request], outcome by outcome. *)
Lemma make_request_run (url : json) (method : text) (headers : dict text)
    (payload : json) (timeout : Z) (s : state) :
  let r := request_of url method headers payload timeout in
  let s1 w := record s w [ELog Debug LogMakingRequest; ERequest r] in
  _make_request url method headers payload timeout s =
    match session_request (world s) r with
    | (inl e, w) => (inl e, s1 w)
    | (inr response, w) =>
        if 400 <=? resp_status response then
          (inl (ClientResponseError (resp_status response)
                  (resp_reason response)), s1 w)
        else if declared_over_cap (resp_content_length response) then
          (inl (size_error (resp_content_length response)), s1 w)
        else
          match resp_text response with
          | inl e => (inl e, s1 w)
          | inr t =>
              match Utf8.encode t with
              | None => (inl (OtherException (T "UnicodeEncodeError")), s1 w)
              | Some bs =>
                  if len bs >? MAX_RESPONSE_SIZE then
                    (inr (data_of response
                            (Utf8.decode_ignore
                               (slice_to MAX_RESPONSE_SIZE bs))),
                     record s w [ELog Debug LogMakingRequest; ERequest r;
                                 ELog Warning LogTruncating])
                  else (inr (data_of response t), s1 w)
              end
          end
    end.
Proof.
  intros r s1. unfold _make_request. fold (request_of url method headers payload timeout). fold r.
  rewrite bind_run. unfold log at 1. rewrite emit_run.
  rewrite bind_run. unfold do_request. cbn [world trace record].
  destruct (session_request (world s) r) as [[e|response] w].
  - unfold s1, record. cbn. now rewrite <- app_assoc.
  - assert (Hs : {| world := w;
                    trace := (trace s ++ [ELog Debug LogMakingRequest]) ++ [ERequest r] |}
                 = s1 w).
    { unfold s1, record. cbn. now rewrite <- app_assoc. }
    rewrite Hs. clear Hs.
    destruct (400 <=? resp_status response); [reflexivity|].
    rewrite bind_run, check_content_length_run.
    destruct (declared_over_cap (resp_content_length response)); [reflexivity|].
    rewrite bind_run.
    destruct (resp_text response) as [e|t]; [reflexivity|].
    rewrite bind_run. unfold limit_text.
    destruct (Utf8.encode t) as [bs|]; [|reflexivity].
    destruct (len bs >? MAX_RESPONSE_SIZE); [|reflexivity].
    rewrite bind_run. unfold log. rewrite emit_run. unfold s1.
    rewrite record_record. reflexivity.
Qed.

End RunFacts.

(** ** The size limit of [_make_request] *)

Section SizeLimit.

Context {E : Env}.

Import Utf8Facts.

Lemma make_request_declared (url : json) (method : text) (headers : dict text)
    (payload : json) (timeout : Z) (s : state) (response : response)
    (w : World) :
  let r := request_of url method headers payload timeout in
  session_request (world s) r = (inr response, w) ->
  resp_status response < 400 ->
  declared_over_cap (resp_content_length response) = true ->
  _make_request url method headers payload timeout s =
    (inl (size_error (resp_content_length response)),
     record s w [ELog Debug LogMakingRequest; ERequest r]).
Proof.
  intros r Hreq Hst Hcl. rewrite make_request_run. fold r. rewrite Hreq.
  destruct (Z.leb_spec 400 (resp_status response)); [lia|].
  now rewrite Hcl.
Qed.


(** What is left of a text too long for the cap. *)
Lemma fit_prefix_cap (t : text) (bs : list Z) (cap : Z) :
  Utf8.encode t = Some bs -> 0 <= cap < len bs ->
  exists bs',
    Utf8.encode (Utf8.fit_prefix cap t) = Some bs' /\
    cap - 3 <= len bs' <= cap.
Proof.
  intros Hbs Hcap. pose proof (encode_scalar t bs Hbs) as Hsc.
  destruct (fit_prefix_is_prefix t cap) as [rest Hrest].
  assert (Hp : Forall (fun c => Utf8.is_scalar c = true) (Utf8.fit_prefix cap t)).
  { rewrite Hrest in Hsc. now apply Forall_app in Hsc. }
  destruct (encode_total _ Hp) as [bs' Hbs']. exists bs'. split; [assumption|].
  rewrite (encode_len _ _ Hbs'). rewrite (encode_len _ _ Hbs) in Hcap.
  split; [now apply fit_prefix_tight | apply fit_prefix_fits; lia].
Qed.


End SizeLimit.

(** ** Reading the trace of a run *)

Lemma events_app (a b : list effect) : events (a ++ b) = events a ++ events b.
Proof. apply flat_map_app. Qed.

Lemma requests_app (a b : list effect) :
  requests (a ++ b) = requests a ++ requests b.
Proof. apply flat_map_app. Qed.

Lemma renders_app (a b : list effect) :
  renders (a ++ b) = renders a ++ renders b.
Proof. apply flat_map_app. Qed.

Lemma sleeps_app (a b : list effect) : sleeps (a ++ b) = sleeps a ++ sleeps b.
Proof. apply flat_map_app. Qed.

Lemma schedule_app (a b : list effect) :
  schedule (a ++ b) = schedule a ++ schedule b.
Proof. apply flat_map_app. Qed.

Lemma failure_log_is_log (e : exn) :
  exists lvl site, failure_log e = ELog lvl site.
Proof. destruct e; cbn; eauto. Qed.

(** ** The renderer *)

Section JsonInduction.

Variable P : json -> Prop.

Hypothesis HNull : P JNull.
Hypothesis HBool : forall b, P (JBool b).
Hypothesis HInt : forall n, P (JInt n).
Hypothesis HFloat : forall bits, P (JFloat bits).
Hypothesis HStr : forall s, P (JStr s).
Hypothesis HList : forall items, Forall P items -> P (JList items).
Hypothesis HDict :
  forall items, Forall (fun kv => P (snd kv)) items -> P (JDict items).

(** Induction on a payload reaches the items of its lists and dicts. *)
Lemma json_nested_ind : forall j, P j.
Proof.
  fix IH 1. intros [| b | n | bits | s | items | items].
  - exact HNull.
  - apply HBool.
  - apply HInt.
  - apply HFloat.
  - apply HStr.
  - apply HList. revert items. fix IHl 1. intros [|x items].
    + constructor.
    + constructor; [apply IH | apply IHl].
  - apply HDict. revert items. fix IHl 1. intros [|[k v] items].
    + constructor.
    + constructor; [apply IH | apply IHl].
Qed.

End JsonInduction.

Section RenderFacts.

Context {E : Env}.

Lemma render_payload_list (items : list json) :
  _render_payload (JList items) = (l <- render_items items ;; ret (JList l)).
Proof. reflexivity. Qed.

Lemma render_payload_dict (items : list (text * json)) :
  _render_payload (JDict items) = render_entries items [].
Proof. reflexivity. Qed.

Lemma renders_only_ret {A : Type} (a : A) : renders_only (ret a).
Proof.
  intros w. exists (inr a), []. split; [constructor|]. split; [discriminate|].
  intros s <-. now rewrite record_nil.
Qed.

Lemma renders_only_bind {A B : Type} (m : M A) (k : A -> M B) :
  renders_only m -> (forall a, renders_only (k a)) -> renders_only (bind m k).
Proof.
  intros Hm Hk w. destruct (Hm w) as (res & tl & Htl & Herr & Hrun).
  destruct res as [e|a].
  - exists (inl e), tl. split; [assumption|]. split.
    + intros e' [= <-]. now apply Herr.
    + intros s Hs. now rewrite bind_run, (Hrun s Hs).
  - destruct (Hk a w) as (res' & tl' & Htl' & Herr' & Hrun').
    exists res', (tl ++ tl'). split; [now apply Forall_app|].
    split; [assumption|].
    intros s Hs. rewrite bind_run, (Hrun s Hs).
    rewrite (Hrun' (record s w tl)) by reflexivity.
    now rewrite record_record.
Qed.

(** Rendering a string gives a string. *)
Lemma render_template_str (v : text) (w : World) :
  exists (res : exn + text) (tl : list effect),
    Forall (fun e => exists t, e = ERender t) tl /\
    (forall e, res = inl e -> exists msg, e = TemplateError msg) /\
    forall s, world s = w ->
      _render_template (JStr v) s =
        (match res with inl e => inl e | inr r => inr (JStr r) end,
         record s w tl).
Proof.
  cbn [_render_template].
  destruct (contains (T "{{") v || contains (T "{%") v).
  - destruct (async_render w v) as [msg|rendered] eqn:Hr.
    + exists (inl (TemplateError msg)), [ERender v].
      split; [repeat constructor; eauto|]. split; [intros e [= <-]; eauto|].
      intros s <-. now rewrite Hr.
    + exists (inr rendered), [ERender v].
      split; [repeat constructor; eauto|]. split; [discriminate|].
      intros s <-. now rewrite Hr.
  - exists (inr v), []. split; [constructor|]. split; [discriminate|].
    intros s <-. unfold ret. now rewrite record_nil.
Qed.

Lemma render_template_only (v : json) : renders_only (_render_template v).
Proof.
  destruct v; try apply renders_only_ret.
  intros w. destruct (render_template_str s w) as (res & tl & H1 & H2 & H3).
  eexists _, tl. split; [assumption|]. split; [|exact H3].
  destruct res; [|discriminate]. intros e' [= <-]. now apply H2.
Qed.

Lemma render_headers_from_only (items rendered : dict text) :
  renders_only (render_headers_from items rendered).
Proof.
  revert rendered. induction items as [|[k v] items IH]; intros rendered.
  - apply renders_only_ret.
  - cbn [render_headers_from]. apply renders_only_bind.
    + apply render_template_only.
    + intros r. apply IH.
Qed.

Lemma render_items_only (items : list json) :
  Forall (fun j => renders_only (_render_payload j)) items ->
  renders_only (render_items items).
Proof.
  induction 1 as [|x items Hx _ IH]; cbn [render_items].
  - apply renders_only_ret.
  - apply renders_only_bind; [assumption|]. intros v.
    apply renders_only_bind; [assumption|]. intros vs.
    apply renders_only_ret.
Qed.

Lemma render_entries_only (items : list (text * json)) :
  Forall (fun kv => renders_only (_render_payload (snd kv))) items ->
  forall rendered, renders_only (render_entries items rendered).
Proof.
  induction 1 as [|[k v] items Hx _ IH]; intros rendered;
    cbn [render_entries].
  - apply renders_only_ret.
  - apply renders_only_bind; [assumption|]. intros v'. apply IH.
Qed.

Lemma render_payload_only (p : json) : renders_only (_render_payload p).
Proof.
  induction p using json_nested_ind; try apply renders_only_ret.
  - intros w. destruct (render_template_str s w) as (res & tl & H1 & H2 & H3).
    destruct res as [e|rendered].
    + exists (inl e), tl. split; [assumption|].
      split; [intros e' [= <-]; now apply H2|].
      intros st Hst. cbn [_render_payload]. now rewrite bind_run, (H3 st Hst).
    + exists (inr (if looks_like_json rendered
                   then match json_loads rendered with
                        | Some parsed => parsed
                        | None => JStr rendered
                        end
                   else JStr rendered)), tl.
      split; [assumption|]. split; [discriminate|].
      intros st Hst. cbn [_render_payload]. rewrite bind_run, (H3 st Hst).
      destruct (looks_like_json rendered); [|reflexivity].
      now destruct (json_loads rendered).
  - rewrite render_payload_list. apply renders_only_bind.
    + now apply render_items_only.
    + intros l. apply renders_only_ret.
  - rewrite render_payload_dict. now apply render_entries_only.
Qed.

Lemma render_all_only (b : built) : renders_only (render_all b).
Proof.
  unfold render_all. apply renders_only_bind; [apply render_template_only|].
  intros url. apply renders_only_bind; [apply render_headers_from_only|].
  intros headers. apply renders_only_bind; [apply render_payload_only|].
  intros payload. apply renders_only_ret.
Qed.

Lemma only_renders_projections (tl : list effect) :
  Forall (fun e => exists t, e = ERender t) tl ->
  events tl = [] /\ requests tl = [] /\ sleeps tl = [] /\ schedule tl = [].
Proof.
  induction 1 as [|e tl [t ->] _ IH]; [now repeat split|].
  cbn. exact IH.
Qed.

End RenderFacts.

(** ** The retry loop, attempt by attempt *)

Section LoopFacts.

Context {E : Env}.

Variables (webhook_id : text) (url : json) (method : text)
  (headers : dict text) (payload : json) (timeout : Z)
  (retry_attempts retry_backoff : Z).

Local Notation loop :=
  (retry_loop webhook_id url method headers payload timeout
     retry_attempts retry_backoff).
Local Notation attempt_request :=
  (_make_request url method headers payload timeout).
Local Notation waited := (waited retry_attempts retry_backoff).
Local Notation attempt_case :=
  (attempt_case webhook_id url method headers payload timeout
     retry_attempts retry_backoff).

Lemma backoff_wait_run (attempt : Z) (s : state) :
  backoff_wait attempt retry_attempts retry_backoff s =
    (inr tt,
     if attempt <? retry_attempts - 1 then
       record s (asyncio_sleep (retry_backoff ^ attempt) (world s))
         [ELog Debug LogWaiting; ESleep (retry_backoff ^ attempt)]
     else s).
Proof.
  unfold backoff_wait. destruct (attempt <? retry_attempts - 1); [|reflexivity].
  rewrite bind_run. unfold log. rewrite emit_run, sleep_run, record_record.
  reflexivity.
Qed.

Lemma loop_success (attempt : Z) (rest : list Z)
    (last_error : option (text * text)) (s s1 : state) (rd : response_data) :
  attempt_request s = (inr rd, s1) ->
  loop (attempt :: rest) last_error s =
    (inr (Some rd),
     record s1 (world s1)
       [EFire (WebhookSuccess webhook_id (rd_status_code rd) (attempt + 1));
        ELog Debug LogSuccess]).
Proof.
  intros H. cbn [retry_loop]. rewrite H.
  rewrite bind_run. unfold async_fire. rewrite emit_run, bind_run.
  unfold log. rewrite emit_run, record_record. reflexivity.
Qed.

Lemma loop_abort (attempt : Z) (rest : list Z)
    (last_error : option (text * text)) (s s1 : state) (status : Z)
    (message : text) :
  attempt_request s = (inl (ClientResponseError status message), s1) ->
  retryable (ClientResponseError status message) = false ->
  loop (attempt :: rest) last_error s =
    (inl (ClientResponseError status message),
     record s1 (world s1)
       [ELog Error LogNonRetryable;
        EFire (WebhookError webhook_id ERROR_HTTP
                 (T "HTTP " ++ str_of_int status ++ T ": " ++ message)
                 (attempt + 1) (Some status))]).
Proof.
  intros H Hr. cbn [retry_loop]. rewrite H. cbn [retryable] in Hr.
  apply negb_false_iff in Hr. rewrite Hr.
  rewrite bind_run. unfold log. rewrite emit_run, bind_run.
  unfold _fire_error_event, async_fire. rewrite emit_run, record_record.
  assert (Hs : int_truthy (Some status) = true).
  { cbn [int_truthy]. destruct (Z.eqb_spec status 0); [|reflexivity].
    subst status. discriminate Hr. }
  rewrite Hs. reflexivity.
Qed.

Lemma loop_retry (attempt : Z) (rest : list Z)
    (last_error : option (text * text)) (s s1 : state) (e : exn) :
  attempt_request s = (inl e, s1) ->
  retryable e = true ->
  loop (attempt :: rest) last_error s =
    loop rest (Some (last_error_of e)) (waited attempt e s1).
Proof.
  intros H Hr. cbn [retry_loop]. rewrite H.
  assert (Hgo : forall lvl site le,
             failure_log e = ELog lvl site ->
             (log lvl site ;;;
              (backoff_wait attempt retry_attempts retry_backoff ;;;
               loop rest le)) s1 = loop rest le (waited attempt e s1)).
  { intros lvl site le Hl. rewrite bind_run. unfold log. rewrite emit_run.
    rewrite bind_run, backoff_wait_run. unfold waited. rewrite Hl.
    destruct (attempt <? retry_attempts - 1); [|reflexivity].
    now rewrite record_record. }
  destruct e; cbn [retryable] in Hr;
    try (now rewrite (Hgo _ _ _ eq_refl)).
  apply negb_true_iff in Hr. rewrite Hr. now rewrite (Hgo _ _ _ eq_refl).
Qed.

(** An attempt issues one request: what [_make_request] leaves on record. *)
Lemma attempt_effects (s : state) :
  exists w tl,
    snd (attempt_request s) = record s w tl /\
    events tl = [] /\ renders tl = [] /\
    requests tl = [request_of url method headers payload timeout] /\
    schedule tl = [Attempt].
Proof.
  rewrite make_request_run.
  destruct (session_request _ _) as [[e|response] w].
  { eexists _, _. cbn [snd]. split; [reflexivity|]. now repeat split. }
  destruct (400 <=? _).
  { eexists _, _. cbn [snd]. split; [reflexivity|]. now repeat split. }
  destruct (declared_over_cap _).
  { eexists _, _. cbn [snd]. split; [reflexivity|]. now repeat split. }
  destruct (resp_text response) as [e|t].
  { eexists _, _. cbn [snd]. split; [reflexivity|]. now repeat split. }
  destruct (Utf8.encode t) as [bs|].
  2:{ eexists _, _. cbn [snd]. split; [reflexivity|]. now repeat split. }
  destruct (len bs >? MAX_RESPONSE_SIZE).
  all: eexists _, _; cbn [snd]; (split; [reflexivity|]); now repeat split.
Qed.

Lemma attempt_cases (attempt : Z) (rest : list Z)
    (last_error : option (text * text)) (s : state) :
  attempt_case attempt rest last_error s.
Proof.
  destruct (attempt_request s) as [[e|rd] s1] eqn:H.
  - destruct (retryable e) eqn:Hr.
    + eapply CaseRetry; eauto using loop_retry.
    + destruct e; try discriminate Hr.
      eapply CaseAbort; eauto using loop_abort.
  - eapply CaseSuccess; eauto using loop_success.
Qed.

(** What a run of the loop over the attempts [a + 1 .. a + m] leaves behind:
    no rendering, the same request at every attempt, the waits of the
    backoff between the attempts, and one event unless nothing was tried. *)
Lemma loop_outcome (m : nat) :
  forall (a : Z) (last_error : option (text * text)) (s : state),
    (m = 0%nat \/ a + Z.of_nat m = retry_attempts) ->
    exists res w tl,
      loop (count_from a m) last_error s = (res, record s w tl) /\
      renders tl = [] /\
      Forall (eq (request_of url method headers payload timeout))
        (requests tl) /\
      (length (requests tl) <= m)%nat /\
      (1 <= m -> 1 <= length (requests tl))%nat /\
      schedule tl =
        backoff_schedule retry_backoff a (length (requests tl)) /\
      match res with
      | inr (Some rd) =>
          events tl =
            [WebhookSuccess webhook_id (rd_status_code rd)
               (a + Z.of_nat (length (requests tl)))]
      | inr None => m = 0%nat /\ last_error = None /\ tl = []
      | inl (ClientResponseError status message) =>
          retryable (ClientResponseError status message) = false /\
          events tl =
            [WebhookError webhook_id ERROR_HTTP
               (T "HTTP " ++ str_of_int status ++ T ": " ++ message)
               (a + Z.of_nat (length (requests tl))) (Some status)]
      | inl (HomeAssistantError _) =>
          length (requests tl) = m /\
          exists error_type error_message,
            (m = 0%nat -> last_error = Some (error_type, error_message)) /\
            events tl =
              [WebhookError webhook_id error_type error_message
                 retry_attempts None]
      | inl _ => False
      end.
Proof.
  induction m as [|m IH]; intros a last_error s Hinv.
  - cbn [count_from retry_loop]. destruct last_error as [[ty em]|].
    + eexists _, (world s), [_]. split; [reflexivity|].
      cbn. repeat split; eauto; lia.
    + exists (inr None), (world s), []. rewrite record_nil.
      split; [reflexivity|]. cbn. repeat split; auto; lia.
  - destruct Hinv as [Hinv|Hinv]; [discriminate|].
    cbn [count_from].
    destruct (attempt_effects s) as (w0 & tl0 & Hs1 & Hev & Hrn & Hrq & Hsc).
    destruct (attempt_cases a (count_from (a + 1) m) last_error s)
      as [rd s1 Hreq Hloop | status message s1 Hreq Hr Hloop
         | e s1 Hreq Hr Hloop];
      rewrite Hreq in Hs1; cbn [snd] in Hs1; subst s1; rewrite Hloop.
    + rewrite record_record. eexists _, _, _. split; [reflexivity|].
      rewrite renders_app, requests_app, schedule_app, events_app.
      rewrite Hev, Hrn, Hrq, Hsc. cbn.
      repeat split; auto; try lia.
    + rewrite record_record. eexists _, _, _. split; [reflexivity|].
      rewrite renders_app, requests_app, schedule_app, events_app.
      rewrite Hev, Hrn, Hrq, Hsc. cbn.
      repeat split; auto; try lia.
    + destruct (failure_log_is_log e) as (lvl & site & Hlog).
      assert (Hw : exists w1 tw,
                 waited a e (record s w0 tl0) = record s w1 (tl0 ++ tw) /\
                 renders tw = [] /\ requests tw = [] /\ events tw = [] /\
                 schedule tw =
                   match m with
                   | O => []
                   | S _ => [Wait (retry_backoff ^ a)]
                   end).
      { unfold waited. rewrite Hlog.
        destruct (Z.ltb_spec a (retry_attempts - 1)).
        - rewrite record_record. eexists _, _. split; [reflexivity|].
          destruct m; [lia|]. now repeat split.
        - rewrite record_record. eexists _, _. split; [reflexivity|].
          destruct m; [|lia]. now repeat split. }
      destruct Hw as (w1 & tw & -> & Hwrn & Hwrq & Hwev & Hwsc).
      destruct (IH (a + 1) (Some (last_error_of e)) (record s w1 (tl0 ++ tw)))
        as (res & w2 & tl & -> & Hr1 & Hr2 & Hr3 & Hr4 & Hr5 & Hr6).
      { destruct m; [now left | right; lia]. }
      rewrite record_record. exists res, w2, ((tl0 ++ tw) ++ tl).
      split; [reflexivity|].
      rewrite !renders_app, !requests_app, !schedule_app, !events_app.
      rewrite Hev, Hrn, Hrq, Hsc, Hwrn, Hwrq, Hwev, Hwsc, Hr1, Hr5.
      cbn [app length].
      split; [reflexivity|]. split; [now constructor|].
      split; [lia|]. split; [lia|]. split.
      { destruct m as [|m'].
        - assert (length (requests tl) = 0)%nat as -> by lia. reflexivity.
        - destruct (length (requests tl)) as [|k]; [lia|]. reflexivity. }
      replace (a + Z.of_nat (S (length (requests tl))))
        with (a + 1 + Z.of_nat (length (requests tl))) by lia.
      destruct res as [[]|[rd|]]; auto.
      * destruct Hr6 as (Hn & ty & em & _ & Hevs). split; [lia|].
        exists ty, em. split; [discriminate|assumption].
      * destruct Hr6 as (Hm & Hl & _). discriminate Hl.
Qed.

End LoopFacts.

(** ** [execute]: rendering, then the loop *)

Section ExecuteFacts.

Context {E : Env}.

Variables (cfg : config) (url_override : option text)
  (headers_override : option (dict text)) (payload_override : json)
  (timeout_override : option Z).

Local Notation b :=
  (build cfg url_override headers_override payload_override
     timeout_override).
Local Notation webhook_id := (get_or (cfg_webhook_id cfg) (T "unknown")).
Local Notation run :=
  (execute cfg url_override headers_override payload_override
     timeout_override).

Lemma execute_run (s : state) :
  exists res tl,
    Forall (fun e => exists t, e = ERender t) tl /\
    render_all b s = (res, record s (world s) tl) /\
    match res with
    | inr (url, headers, payload) =>
        run s =
          retry_loop webhook_id url (b_method b) headers payload
            (b_timeout b) (b_retry_attempts b) (b_retry_backoff b)
            (range (b_retry_attempts b)) None (record s (world s) tl)
    | inl e =>
        exists msg,
          e = TemplateError msg /\
          run s =
            (inl e,
             record s (world s)
               (tl ++ [ELog Error LogTemplateFailed;
                       EFire (WebhookError webhook_id ERROR_TEMPLATE msg 0
                                None)]))
    end.
Proof.
  destruct (render_all_only b (world s)) as (res & tl & Htl & Herr & Hrun).
  specialize (Hrun s eq_refl). exists res, tl.
  split; [assumption|]. split; [assumption|].
  unfold execute. rewrite Hrun. destruct res as [e|[[url headers] payload]].
  - destruct (Herr e eq_refl) as [msg ->]. exists msg. split; [reflexivity|].
    rewrite bind_run. unfold log. rewrite emit_run, bind_run.
    unfold _fire_error_event, async_fire. rewrite emit_run.
    now rewrite !record_record.
  - reflexivity.
Qed.

Lemma build_retry_attempts :
  b_retry_attempts b = get_or (cfg_retry_attempts cfg) DEFAULT_RETRY_ATTEMPTS.
Proof. reflexivity. Qed.

Lemma range_inv (n : Z) :
  Z.to_nat n = 0%nat \/ 0 + Z.of_nat (Z.to_nat n) = n.
Proof. lia. Qed.

(** Every run of [execute]: the renderings, then the attempts. *)
Lemma execute_outcome (s : state) :
  exists res_r tl_r res w tl,
    render_all b s = (res_r, record s (world s) tl_r) /\
    Forall (fun e => exists t, e = ERender t) tl_r /\
    run s = (res, record s w (tl_r ++ tl)) /\
    renders tl = [] /\
    (length (requests tl) <= Z.to_nat (b_retry_attempts b))%nat /\
    schedule tl =
      backoff_schedule (b_retry_backoff b) 0 (length (requests tl)) /\
    match res_r with
    | inl e =>
        res = inl e /\ requests tl = [] /\
        exists msg,
          e = TemplateError msg /\
          events tl = [WebhookError webhook_id ERROR_TEMPLATE msg 0 None]
    | inr (url, headers, payload) =>
        Forall (eq (request_of url (b_method b) headers payload (b_timeout b)))
          (requests tl) /\
        (1 <= b_retry_attempts b -> (1 <= length (requests tl))%nat) /\
        match res with
        | inr (Some rd) =>
            events tl =
              [WebhookSuccess webhook_id (rd_status_code rd)
                 (Z.of_nat (length (requests tl)))]
        | inr None => b_retry_attempts b <= 0 /\ tl = []
        | inl (ClientResponseError status message) =>
            retryable (ClientResponseError status message) = false /\
            events tl =
              [WebhookError webhook_id ERROR_HTTP
                 (T "HTTP " ++ str_of_int status ++ T ": " ++ message)
                 (Z.of_nat (length (requests tl))) (Some status)]
        | inl (HomeAssistantError _) =>
            1 <= b_retry_attempts b /\
            Z.of_nat (length (requests tl)) = b_retry_attempts b /\
            exists error_type error_message,
              events tl =
                [WebhookError webhook_id error_type error_message
                   (b_retry_attempts b) None]
        | inl _ => False
        end
    end.
Proof.
  destruct (execute_run s) as (res_r & tl_r & Htl & Hrender & Hrun).
  exists res_r, tl_r. destruct res_r as [e|[[url headers] payload]].
  - destruct Hrun as (msg & -> & Hrun).
    eexists _, _, _. split; [eassumption|]. split; [assumption|].
    split; [exact Hrun|]. cbn. repeat split; eauto; lia.
  - rewrite Hrun. unfold range.
    destruct (loop_outcome webhook_id url (b_method b) headers payload
                (b_timeout b) (b_retry_attempts b) (b_retry_backoff b)
                (Z.to_nat (b_retry_attempts b)) 0 None
                (record s (world s) tl_r) (range_inv _))
      as (res & w & tl & -> & H1 & H2 & H3 & H4 & H5 & H6).
    rewrite record_record. exists res, w, tl.
    split; [assumption|]. split; [assumption|]. split; [reflexivity|].
    split; [assumption|]. split; [assumption|]. split; [assumption|].
    split; [assumption|]. split; [intros; apply H4; lia|].
    destruct res as [[]|[rd|]]; auto.
    + destruct H6 as (Hn & ty & em & Hle & Hev).
      assert (1 <= b_retry_attempts b).
      { destruct (Z.to_nat (b_retry_attempts b)) eqn:Hz; [|lia].
        now specialize (Hle eq_refl). }
      split; [assumption|]. split; [lia|]. eauto.
    + destruct H6 as (Hm & _ & Hnil). split; [lia | assumption].
Qed.

End ExecuteFacts.

Lemma retryable_http (status : Z) (message : text) :
  retryable (ClientResponseError status message) = false <->
  400 <= status < 500 /\ status <> 429.
Proof.
  cbn [retryable]. rewrite negb_false_iff, !andb_true_iff, negb_true_iff.
  rewrite Z.leb_le, Z.ltb_lt, Z.eqb_neq. tauto.
Qed.

(** ** The claims about [execute] *)

Section ExecuteClaims.

Context {E : Env}.

(** C1 (amended).  The templates of the url, the headers and the payload are
    rendered once per execution, before the first attempt: the rendering
    issues no request, nothing is rendered once the attempts have begun, and
    every attempt issues the request built from the values rendered then. *)
Theorem render_once_before_attempts (cfg : config)
    (url_override : option text) (headers_override : option (dict text))
    (payload_override : json) (timeout_override : option Z) (s : state) :
  let b := build cfg url_override headers_override payload_override
             timeout_override in
  exists res_r tl_r w tl,
    render_all b s = (res_r, record s (world s) tl_r) /\
    snd (execute cfg url_override headers_override payload_override
           timeout_override s) = record s w (tl_r ++ tl) /\
    requests tl_r = [] /\
    renders tl = [] /\
    match res_r with
    | inr (url, headers, payload) =>
        Forall (eq (request_of url (b_method b) headers payload (b_timeout b)))
          (requests tl)
    | inl _ => requests tl = []
    end.
Proof.
  intros b.
  destruct (execute_outcome cfg url_override headers_override
              payload_override timeout_override s)
    as (res_r & tl_r & res & w & tl & Hr & Htl & Hrun & Hrn & _ & _ & Hres).
  exists res_r, tl_r, w, tl. rewrite Hrun. cbn [snd].
  split; [assumption|]. split; [reflexivity|].
  split; [now apply only_renders_projections|]. split; [assumption|].
  destruct res_r as [e|[[url headers] payload]]; tauto.
Qed.

(** C10 (amended).  When the configuration carries [retry_attempts <= 0] and
    the templates render without error, [execute] returns [None] from the
    state the rendering left: no request, no event, no wait, no log entry
    and no exception. *)
Theorem no_attempts_no_op (cfg : config) (url_override : option text)
    (headers_override : option (dict text)) (payload_override : json)
    (timeout_override : option Z) (s s1 : state) (n : Z)
    (rendered : json * dict text * json) :
  cfg_retry_attempts cfg = Some n ->
  n <= 0 ->
  render_all (build cfg url_override headers_override payload_override
                timeout_override) s = (inr rendered, s1) ->
  execute cfg url_override headers_override payload_override
    timeout_override s = (inr None, s1) /\
  exists tl,
    s1 = record s (world s) tl /\
    Forall (fun e => exists t, e = ERender t) tl /\
    requests tl = [] /\ events tl = [] /\ sleeps tl = [].
Proof.
  intros Hn Hle Hrender.
  destruct (execute_run cfg url_override headers_override payload_override
              timeout_override s) as (res & tl & Htl & Hr & Hrun).
  rewrite Hrender in Hr. injection Hr as <- ->.
  destruct rendered as [[url headers] payload]. rewrite Hrun.
  replace (b_retry_attempts _) with n
    by (now rewrite build_retry_attempts, Hn).
  unfold range. replace (Z.to_nat n) with 0%nat by lia.
  split; [reflexivity|]. exists tl. split; [reflexivity|].
  split; [assumption|].
  destruct (only_renders_projections tl Htl) as (? & ? & ? & _). auto.
Qed.

(** C5.  An HTTP error with a 4xx status other than 429 ends the loop at the
    attempt it occurs in: the error is raised on, after one error event that
    carries the number of that attempt and the status, and with no further
    request; an HTTP error with any other status sends the loop on to the
    attempts that remain.  Over a whole execution: when [execute] raises an
    HTTP error, its status is such a 4xx, and the one event fired is the
    error event numbered with the last request issued. *)
Theorem client_error_aborts :
  (forall (webhook_id : text) (url : json) (method : text)
          (headers : dict text) (payload : json) (timeout : Z)
          (retry_attempts retry_backoff : Z) (attempt : Z) (rest : list Z)
          (last_error : option (text * text)) (s s1 : state) (status : Z)
          (message : text),
      _make_request url method headers payload timeout s =
        (inl (ClientResponseError status message), s1) ->
      (400 <= status < 500 /\ status <> 429 ->
       retry_loop webhook_id url method headers payload timeout
         retry_attempts retry_backoff (attempt :: rest) last_error s =
         (inl (ClientResponseError status message),
          record s1 (world s1)
            [ELog Error LogNonRetryable;
             EFire (WebhookError webhook_id ERROR_HTTP
                      (T "HTTP " ++ str_of_int status ++ T ": " ++ message)
                      (attempt + 1) (Some status))])) /\
      (status = 429 \/ status < 400 \/ 500 <= status ->
       retry_loop webhook_id url method headers payload timeout
         retry_attempts retry_backoff (attempt :: rest) last_error s =
         retry_loop webhook_id url method headers payload timeout
           retry_attempts retry_backoff rest
           (Some (ERROR_HTTP,
                  T "HTTP " ++ str_of_int status ++ T ": " ++ message))
           (waited retry_attempts retry_backoff attempt
              (ClientResponseError status message) s1))) /\
  (forall (cfg : config) (url_override : option text)
          (headers_override : option (dict text)) (payload_override : json)
          (timeout_override : option Z) (s : state) (status : Z)
          (message : text),
      fst (execute cfg url_override headers_override payload_override
             timeout_override s) = inl (ClientResponseError status message) ->
      (400 <= status < 500 /\ status <> 429) /\
      exists w tl,
        snd (execute cfg url_override headers_override payload_override
               timeout_override s) = record s w tl /\
        events tl =
          [WebhookError (get_or (cfg_webhook_id cfg) (T "unknown"))
             ERROR_HTTP
             (T "HTTP " ++ str_of_int status ++ T ": " ++ message)
             (Z.of_nat (length (requests tl))) (Some status)]).
Proof.
  split.
  - intros * Hreq. split; intros Hst.
    + apply loop_abort; [assumption|].
      exact (proj2 (retryable_http status message) Hst).
    + assert (Hr : retryable (ClientResponseError status message) = true).
      { destruct (retryable (ClientResponseError status message)) eqn:Hr;
          [reflexivity|].
        apply (proj1 (retryable_http status message)) in Hr. lia. }
      exact (loop_retry _ _ _ _ _ _ _ _ _ _ _ _ _ _ Hreq Hr).
  - intros * Hres.
    destruct (execute_outcome cfg url_override headers_override
                payload_override timeout_override s)
      as (res_r & tl_r & res & w & tl & Hr & Htl & Hrun & _ & _ & _ & Hcase).
    rewrite Hrun in Hres |- *. cbn [fst snd] in *. subst res.
    destruct (only_renders_projections tl_r Htl) as (Hev & Hrq & _).
    destruct res_r as [e|[[url headers] payload]].
    + destruct Hcase as (Heq & _ & msg & Hmsg & _).
      injection Heq as <-. discriminate Hmsg.
    + destruct Hcase as (_ & _ & Hnr & Hevs).
      split; [exact (proj1 (retryable_http status message) Hnr)|].
      exists w, (tl_r ++ tl). split; [reflexivity|].
      now rewrite events_app, requests_app, Hev, Hrq.
Qed.

(** C6.  After a retryable failure of attempt [k] the loop waits
    [retry_backoff ** (k - 1)] seconds and goes on with attempt [k + 1] when
    [k < retry_attempts], and goes on without a wait when [k] is the last
    attempt; over a whole execution the requests and waits alternate, the
    wait after the [k]-th request being [retry_backoff ** (k - 1)], and no
    wait follows the last request.  With three attempts and base 2, two
    connection errors and then a success give waits of 1 and 2 seconds and
    one success event with [attempt = 3]. *)
Theorem backoff_between_attempts :
  (forall (webhook_id : text) (url : json) (method : text)
          (headers : dict text) (payload : json) (timeout : Z)
          (retry_attempts retry_backoff : Z) (k : Z) (rest : list Z)
          (last_error : option (text * text)) (s s1 : state) (e : exn),
      _make_request url method headers payload timeout s = (inl e, s1) ->
      retryable e = true ->
      (k < retry_attempts ->
       retry_loop webhook_id url method headers payload timeout
         retry_attempts retry_backoff ((k - 1) :: rest) last_error s =
         retry_loop webhook_id url method headers payload timeout
           retry_attempts retry_backoff rest (Some (last_error_of e))
           (record s1 (asyncio_sleep (retry_backoff ^ (k - 1)) (world s1))
              [failure_log e; ELog Debug LogWaiting;
               ESleep (retry_backoff ^ (k - 1))])) /\
      (retry_attempts <= k ->
       retry_loop webhook_id url method headers payload timeout
         retry_attempts retry_backoff ((k - 1) :: rest) last_error s =
         retry_loop webhook_id url method headers payload timeout
           retry_attempts retry_backoff rest (Some (last_error_of e))
           (record s1 (world s1) [failure_log e]))) /\
  (forall (cfg : config) (url_override : option text)
          (headers_override : option (dict text)) (payload_override : json)
          (timeout_override : option Z) (s : state),
      exists w tl,
        snd (execute cfg url_override headers_override payload_override
               timeout_override s) = record s w tl /\
        schedule tl =
          backoff_schedule
            (get_or (cfg_retry_backoff cfg) DEFAULT_RETRY_BACKOFF) 0
            (length (requests tl))) /\
  (forall (cfg : config) (url_override : option text)
          (headers_override : option (dict text)) (payload_override : json)
          (timeout_override : option Z) (s s0 s1 s2 s3 : state)
          (url : json) (headers : dict text) (payload : json)
          (m1 m2 : text) (rd : response_data),
      let b := build cfg url_override headers_override payload_override
                 timeout_override in
      let attempt :=
        _make_request url (b_method b) headers payload (b_timeout b) in
      let after seconds s' :=
        record s' (asyncio_sleep seconds (world s'))
          [ELog Warning LogConnectionError; ELog Debug LogWaiting;
           ESleep seconds] in
      cfg_retry_attempts cfg = Some 3 ->
      cfg_retry_backoff cfg = Some 2 ->
      render_all b s = (inr (url, headers, payload), s0) ->
      attempt s0 = (inl (ClientConnectorError m1), s1) ->
      attempt (after 1 s1) = (inl (ClientConnectorError m2), s2) ->
      attempt (after 2 s2) = (inr rd, s3) ->
      exists w tl,
        execute cfg url_override headers_override payload_override
          timeout_override s = (inr (Some rd), record s w tl) /\
        schedule tl = [Attempt; Wait 1; Attempt; Wait 2; Attempt] /\
        events tl =
          [WebhookSuccess (get_or (cfg_webhook_id cfg) (T "unknown"))
             (rd_status_code rd) 3]).
Proof.
  split; [|split].
  - intros * Hreq Hr. rewrite (loop_retry _ _ _ _ _ _ _ _ _ _ _ _ _ _ Hreq Hr).
    unfold waited. split; intros Hk.
    + destruct (Z.ltb_spec (k - 1) (retry_attempts - 1)); [reflexivity | lia].
    + destruct (Z.ltb_spec (k - 1) (retry_attempts - 1)); [lia | reflexivity].
  - intros *.
    destruct (execute_outcome cfg url_override headers_override
                payload_override timeout_override s)
      as (res_r & tl_r & res & w & tl & _ & Htl & Hrun & _ & _ & Hsc & _).
    destruct (only_renders_projections tl_r Htl) as (_ & Hrq & _ & Hs).
    exists w, (tl_r ++ tl). rewrite Hrun. split; [reflexivity|].
    now rewrite schedule_app, requests_app, Hs, Hrq.
  - intros * Hn Hb Hrender H1 H2 H3.
    destruct (execute_run cfg url_override headers_override
                payload_override timeout_override s)
      as (res & tl_r & Htl & Hr & Hrun).
    fold b in Hr, Hrun. rewrite Hrender in Hr. injection Hr as <- ->.
    destruct (only_renders_projections tl_r Htl) as (Hev & _ & _ & Hs).
    assert (Hnb : b_retry_attempts b = 3 /\ b_retry_backoff b = 2).
    { unfold b, build. cbn [b_retry_attempts b_retry_backoff].
      now rewrite Hn, Hb. }
    destruct Hnb as [Hn3 Hb2]. rewrite Hn3, Hb2 in Hrun.
    change (range 3) with [0; 1; 2] in Hrun.
    fold attempt in Hrun.
    pose proof (attempt_effects url (b_method b) headers payload (b_timeout b)
                  (record s (world s) tl_r)) as (w1 & t1 & Hs1 & He1 & _ & _ & Hc1).
    fold attempt in Hs1. rewrite H1 in Hs1. cbn [snd] in Hs1. subst s1.
    rewrite (loop_retry _ _ _ _ _ _ _ _ _ _ _ _ _ _ H1 eq_refl) in Hrun.
    change (waited 3 2 0 (ClientConnectorError m1) (record (record s (world s) tl_r) w1 t1))
      with (after 1 (record (record s (world s) tl_r) w1 t1)) in Hrun.
    pose proof (attempt_effects url (b_method b) headers payload (b_timeout b)
                  (after 1 (record (record s (world s) tl_r) w1 t1)))
      as (w2 & t2 & Hs2 & He2 & _ & _ & Hc2).
    fold attempt in Hs2. rewrite H2 in Hs2. cbn [snd] in Hs2. subst s2.
    rewrite (loop_retry _ _ _ _ _ _ _ _ _ _ _ _ _ _ H2 eq_refl) in Hrun.
    match type of Hrun with
    | context [waited 3 2 1 ?e ?st] =>
        change (waited 3 2 1 e st) with (after 2 st) in Hrun
    end.
    match type of H3 with
    | attempt ?st = _ =>
        pose proof (attempt_effects url (b_method b) headers payload
                      (b_timeout b) st) as (w3 & t3 & Hs3 & He3 & _ & _ & Hc3)
    end.
    fold attempt in Hs3. rewrite H3 in Hs3. cbn [snd] in Hs3. subst s3.
    rewrite (loop_success _ _ _ _ _ _ _ _ _ _ _ _ _ _ H3) in Hrun.
    rewrite Hrun. unfold after. rewrite !record_record.
    eexists _, _. split; [reflexivity|].
    rewrite !schedule_app, !events_app, Hs, Hev, Hc1, Hc2, Hc3, He1, He2, He3.
    split; reflexivity.
Qed.

End ExecuteClaims.

(** ** storage.py and the service handler *)

Lemma text_eqb_eq (a b : text) : text_eqb a b = true <-> a = b.
Proof.
  revert b. induction a as [|x a IH]; intros [|y b]; cbn [text_eqb];
    try (split; [discriminate | discriminate]); [tauto|].
  rewrite andb_true_iff, Z.eqb_eq, IH. split.
  - intros [-> ->]. reflexivity.
  - intros [= -> ->]. auto.
Qed.

Lemma text_eqb_refl (a : text) : text_eqb a a = true.
Proof. now apply text_eqb_eq. Qed.

Lemma text_eqb_neq (a b : text) : text_eqb a b = false <-> a <> b.
Proof.
  rewrite <- text_eqb_eq. destruct (text_eqb a b); split; congruence.
Qed.

Lemma id_is_truthy (c : config) (webhook_id : text) :
  id_is c webhook_id = true -> config_truthy c = true.
Proof.
  unfold id_is, config_truthy. now destruct (cfg_webhook_id c).
Qed.

Lemma find_yaml_truthy (l : list config) (webhook_id : text) (c : config) :
  find_yaml l webhook_id = Some c -> config_truthy c = true.
Proof.
  induction l as [|x l IH]; cbn [find_yaml]; [discriminate|].
  destruct (id_is x webhook_id) eqn:Hx; [|assumption].
  intros [= <-]. eauto using id_is_truthy.
Qed.

(** What [get_webhook] returns is never an empty dict. *)
Lemma get_webhook_truthy (m : WebhookConfigManager) (webhook_id : text)
    (c : config) :
  get_webhook m webhook_id = Some c -> config_truthy c = true.
Proof.
  unfold get_webhook.
  destruct (storage_get_webhook (storage m) webhook_id) as [ui|];
    cbn [config_opt_truthy].
  - destruct (config_truthy ui) eqn:Hui.
    + now intros [= <-].
    + destruct (yaml_webhooks m); [apply find_yaml_truthy | discriminate].
  - destruct (yaml_webhooks m); [apply find_yaml_truthy | discriminate].
Qed.

Section HandlerClaims.

Context {E : Env}.


End HandlerClaims.

(** ** Dicts *)

Section DictFacts.

Context {V : Type}.

Lemma dict_get_set_same (k : text) (v : V) (d : dict V) :
  dict_get k (dict_set k v d) = Some v.
Proof.
  induction d as [|[k' v'] d IH]; cbn [dict_set dict_get].
  - now rewrite text_eqb_refl.
  - destruct (text_eqb k k') eqn:Hk; cbn [dict_get]; now rewrite Hk.
Qed.

Lemma dict_get_set_other (k k' : text) (v : V) (d : dict V) :
  k <> k' -> dict_get k (dict_set k' v d) = dict_get k d.
Proof.
  intros Hk. apply text_eqb_neq in Hk.
  induction d as [|[k1 v1] d IH]; cbn [dict_set dict_get].
  - now rewrite Hk.
  - destruct (text_eqb k' k1) eqn:H1; cbn [dict_get].
    + apply text_eqb_eq in H1. subst k1. now rewrite Hk.
    + now rewrite IH.
Qed.

Lemma dict_get_in (k : text) (v : V) (d : dict V) :
  dict_get k d = Some v -> In (k, v) d.
Proof.
  induction d as [|[k' v'] d IH]; cbn [dict_get]; [discriminate|].
  destruct (text_eqb k k') eqn:Hk.
  - apply text_eqb_eq in Hk. intros [= ->]. left. now subst.
  - intros H. right. auto.
Qed.

Lemma dict_get_none (k : text) (d : dict V) :
  ~ In k (keys d) -> dict_get k d = None.
Proof.
  induction d as [|[k' v'] d IH]; cbn [dict_get keys map fst]; [reflexivity|].
  intros H. destruct (text_eqb k k') eqn:Hk.
  - apply text_eqb_eq in Hk. subst. exfalso. apply H. now left.
  - apply IH. intros Hin. apply H. now right.
Qed.

Lemma dict_get_nodup (k : text) (v : V) (d : dict V) :
  NoDup (keys d) -> In (k, v) d -> dict_get k d = Some v.
Proof.
  induction d as [|[k' v'] d IH]; cbn [dict_get keys map fst]; [contradiction|].
  intros Hnd [[= -> ->]|Hin].
  - now rewrite text_eqb_refl.
  - inversion Hnd as [|? ? Hk' Hd]; subst.
    destruct (text_eqb k k') eqn:Hk.
    + apply text_eqb_eq in Hk. subst. exfalso. apply Hk'.
      change k' with (fst (k', v)). now apply in_map.
    + auto.
Qed.

Lemma text_eq_dec (a b : text) : {a = b} + {a <> b}.
Proof. apply list_eq_dec, Z.eq_dec. Qed.

(** Keys the update does not carry keep their binding. *)
Lemma dict_get_update_other (k : text) (o : dict V) :
  forall d, ~ In k (keys o) -> dict_get k (dict_update d o) = dict_get k d.
Proof.
  induction o as [|[k' v'] o IH]; intros d Hk; cbn [dict_update];
    [reflexivity|].
  rewrite IH by (intros Hin; apply Hk; right; exact Hin).
  apply dict_get_set_other. intros ->. apply Hk. now left.
Qed.

(** Keys the update carries take a binding of the update. *)
Lemma dict_get_update_in (k : text) (o : dict V) :
  forall d, In k (keys o) ->
    exists v, In (k, v) o /\ dict_get k (dict_update d o) = Some v.
Proof.
  induction o as [|[k' v'] o IH]; intros d Hk; [contradiction|].
  cbn [dict_update]. destruct (in_dec text_eq_dec k (keys o)) as [Hin|Hout].
  - destruct (IH (dict_set k' v' d) Hin) as (v & Hv & Hget).
    exists v. split; [now right | assumption].
  - destruct Hk as [Hk|Hk]; [|contradiction]. cbn [fst] in Hk. subst k'.
    exists v'. split; [now left|].
    rewrite dict_get_update_other by assumption. apply dict_get_set_same.
Qed.

Lemma dict_get_update (k : text) (v : V) (d o : dict V) :
  NoDup (keys o) -> dict_get k o = Some v ->
  dict_get k (dict_update d o) = Some v.
Proof.
  intros Hnd Hget.
  destruct (dict_get_update_in k o d) as (v' & Hin & ->).
  - apply dict_get_in in Hget. change k with (fst (k, v)). now apply in_map.
  - rewrite <- Hget. symmetry. now apply dict_get_nodup.
Qed.

End DictFacts.

(** ** The request builder *)

(** C4 (amended).  A url override that is a non-empty string, a payload
    override that is not [None] and a timeout override that is not zero
    replace the definition's field as a whole; an empty url override and a
    zero timeout override count as not supplied, and the definition's value
    stands.  A headers override is merged key by key into a copy of the
    definition's headers: keys of the override take the override's value,
    all other keys keep the definition's. *)
Theorem override_precedence (cfg : config) (url_override : option text)
    (headers_override : option (dict text)) (payload_override : json)
    (timeout_override : option Z) :
  let b := build cfg url_override headers_override payload_override
             timeout_override in
  let definition_url :=
    match cfg_url cfg with Some u => JStr u | None => JNull end in
  let definition_headers := get_or (cfg_headers cfg) [] in
  (forall u, url_override = Some u -> u <> [] -> b_url b = JStr u) /\
  (url_override = None \/ url_override = Some [] ->
   b_url b = definition_url) /\
  (payload_override <> JNull -> b_payload b = payload_override) /\
  (payload_override = JNull ->
   b_payload b = get_or (cfg_payload cfg) JNull) /\
  (forall t, timeout_override = Some t -> t <> 0 -> b_timeout b = t) /\
  (timeout_override = None \/ timeout_override = Some 0 ->
   b_timeout b = get_or (cfg_timeout cfg) DEFAULT_TIMEOUT) /\
  (headers_override = None -> b_headers b = definition_headers) /\
  (forall o, headers_override = Some o ->
     (forall k, ~ In k (keys o) ->
        dict_get k (b_headers b) = dict_get k definition_headers) /\
     (forall k, In k (keys o) ->
        exists v, In (k, v) o /\ dict_get k (b_headers b) = Some v) /\
     (NoDup (keys o) -> forall k v,
        dict_get k o = Some v -> dict_get k (b_headers b) = Some v)) /\
  dict_update [(T "A", T "1"); (T "B", T "2")]
              [(T "B", T "9"); (T "C", T "3")]
    = [(T "A", T "1"); (T "B", T "9"); (T "C", T "3")].
Proof.
  intros b definition_url definition_headers. unfold b, build.
  cbn [b_url b_payload b_timeout b_headers].
  repeat split.
  - intros u -> Hu. destruct u; [contradiction | reflexivity].
  - intros [-> | ->]; reflexivity.
  - intros Hp. destruct payload_override; congruence.
  - now intros ->.
  - intros t -> Ht. cbn [int_truthy get_or].
    destruct (Z.eqb_spec t 0); [contradiction | reflexivity].
  - intros [-> | ->]; reflexivity.
  - now intros ->.
  - intros k Hk. subst headers_override. destruct o as [|kv o]; [reflexivity|].
    cbn [dict_truthy get_or]. now apply dict_get_update_other.
  - intros k Hk. subst headers_override. destruct o as [|kv o]; [contradiction|].
    cbn [dict_truthy get_or]. now apply dict_get_update_in.
  - intros Hnd k v Hget. subst headers_override.
    destruct o as [|kv o]; [discriminate|].
    cbn [dict_truthy get_or]. now apply dict_get_update.
Qed.

(** ** The config resolver *)

(** Entries with another id leave the binding of [webhook_id] alone. *)
Lemma collect_yaml_other (webhook_id : text) (l : list config) :
  Forall (fun webhook => id_is webhook webhook_id = false) l ->
  forall webhooks,
    dict_get webhook_id (collect_yaml l webhooks) =
    dict_get webhook_id webhooks.
Proof.
  induction 1 as [|webhook l Hw _ IH]; intros webhooks; cbn [collect_yaml];
    [reflexivity|].
  destruct (str_truthy (cfg_webhook_id webhook)) eqn:Ht; [|apply IH].
  rewrite IH. apply dict_get_set_other. intros ->.
  unfold id_is in Hw. destruct (cfg_webhook_id webhook) as [i|];
    [|discriminate]. cbn [get_or] in Hw. now rewrite text_eqb_refl in Hw.
Qed.

Lemma collect_yaml_app (l1 l2 : list config) :
  forall webhooks,
    collect_yaml (l1 ++ l2) webhooks =
    collect_yaml l2 (collect_yaml l1 webhooks).
Proof.
  induction l1 as [|webhook l1 IH]; intros webhooks; cbn [collect_yaml app];
    [reflexivity|].
  destruct (str_truthy (cfg_webhook_id webhook)); apply IH.
Qed.

(** C7 (amended).  For a webhook id whose record in the editable store is a
    non-empty dict, [get_webhook] returns that record as it is, whatever the
    declarative source holds for the id, and so does the enumeration of
    [get_all_webhooks].  A declarative entry with a non-empty id that
    neither the editable store nor a later declarative entry carries keeps
    its original values in the enumeration. *)
Theorem store_record_wins (m : WebhookConfigManager) (webhook_id : text) :
  (forall ui_webhook,
      storage_get_webhook (storage m) webhook_id = Some ui_webhook ->
      config_truthy ui_webhook = true ->
      get_webhook m webhook_id = Some ui_webhook) /\
  (forall ui_webhook,
      NoDup (keys (storage_get_all_webhooks (storage m))) ->
      storage_get_webhook (storage m) webhook_id = Some ui_webhook ->
      dict_get webhook_id (get_all_webhooks m) = Some ui_webhook) /\
  (forall before webhook after,
      yaml_webhooks m = Some (before ++ webhook :: after) ->
      cfg_webhook_id webhook = Some webhook_id ->
      webhook_id <> [] ->
      Forall (fun later => id_is later webhook_id = false) after ->
      ~ In webhook_id (keys (storage_get_all_webhooks (storage m))) ->
      dict_get webhook_id (get_all_webhooks m) = Some webhook).
Proof.
  repeat split.
  - intros ui Hui Ht. unfold get_webhook. rewrite Hui. cbn [config_opt_truthy].
    now rewrite Ht.
  - intros ui Hnd Hui. unfold get_all_webhooks.
    now apply dict_get_update.
  - intros before webhook after Hy Hid Hne Hafter Hout.
    unfold get_all_webhooks. rewrite dict_get_update_other by assumption.
    rewrite Hy, collect_yaml_app. cbn [collect_yaml]. rewrite Hid.
    destruct webhook_id as [|c i]; [contradiction|]. cbn [str_truthy get_or].
    rewrite collect_yaml_other by assumption. apply dict_get_set_same.
Qed.

(** ** The payload renderer *)

Section PayloadClaims.

Context {E : Env}.

Lemma render_payload_same_world (p : json) (s1 s2 : state) :
  world s1 = world s2 ->
  fst (_render_payload p s1) = fst (_render_payload p s2).
Proof.
  intros Hw.
  destruct (render_payload_only p (world s1)) as (res & tl & _ & _ & Hrun).
  now rewrite (Hrun s1 eq_refl), (Hrun s2 (eq_sym Hw)).
Qed.

Lemma render_payload_keeps_world (p : json) (s : state) :
  world (snd (_render_payload p s)) = world s.
Proof.
  destruct (render_payload_only p (world s)) as (res & tl & _ & _ & Hrun).
  now rewrite (Hrun s eq_refl).
Qed.

Lemma render_items_result (items : list json) (s0 : state) :
  forall (s : state) (l : list json),
    world s = world s0 ->
    fst (render_items items s) = inr l ->
    Forall2 (fun item item' => fst (_render_payload item s0) = inr item')
      items l.
Proof.
  induction items as [|x items IH]; intros s l Hw; cbn [render_items].
  - intros [= <-]. constructor.
  - rewrite bind_run.
    pose proof (render_payload_same_world x s s0 Hw) as Hx.
    pose proof (render_payload_keeps_world x s) as Hw1.
    destruct (_render_payload x s) as [[e|v] s1]; [discriminate|].
    cbn [fst snd] in Hx, Hw1. rewrite bind_run.
    specialize (IH s1). destruct (render_items items s1) as [[e|vs] s2];
      [discriminate|].
    intros [= <-]. constructor; [now symmetry|].
    apply IH; [congruence | reflexivity].
Qed.

Lemma render_entries_result (items : list (text * json)) (s0 : state) :
  forall (rendered : dict json) (s : state) (v : json),
    world s = world s0 ->
    fst (render_entries items rendered s) = inr v ->
    exists vals,
      Forall2 (fun kv v' => fst (_render_payload (snd kv) s0) = inr v')
        items vals /\
      v = JDict (set_all (combine (keys items) vals) rendered).
Proof.
  induction items as [|[k x] items IH]; intros rendered s v Hw;
    cbn [render_entries].
  - intros [= <-]. exists []. split; [constructor | reflexivity].
  - rewrite bind_run.
    pose proof (render_payload_same_world x s s0 Hw) as Hx.
    pose proof (render_payload_keeps_world x s) as Hw1.
    destruct (_render_payload x s) as [[e|v'] s1]; [discriminate|].
    cbn [fst snd] in Hx, Hw1. intros Hres.
    destruct (IH (dict_set k v' rendered) s1 v) as (vals & Hvals & ->);
      [congruence | assumption |].
    exists (v' :: vals). split; [constructor; [now symmetry | assumption]|].
    reflexivity.
Qed.

Lemma keys_dict_set {V : Type} (k k' : text) (v : V) (d : dict V) :
  In k (keys (dict_set k' v d)) <-> k = k' \/ In k (keys d).
Proof.
  induction d as [|[k1 v1] d IH]; cbn [dict_set keys map fst].
  - cbn. intuition congruence.
  - destruct (text_eqb k' k1) eqn:H1; cbn [keys map fst In].
    + apply text_eqb_eq in H1. subst. intuition congruence.
    + unfold keys in IH. rewrite IH. intuition congruence.
Qed.

Lemma set_all_cons {V : Type} (k : text) (v : V) (items d : dict V) :
  set_all ((k, v) :: items) d = set_all items (dict_set k v d).
Proof. reflexivity. Qed.

Lemma keys_set_all {V : Type} (k : text) (items : dict V) :
  forall d, In k (keys (set_all items d)) <-> In k (keys items) \/ In k (keys d).
Proof.
  induction items as [|[k1 v1] items IH]; intros d.
  - cbn. tauto.
  - rewrite set_all_cons, IH, keys_dict_set.
    cbn [keys map fst In]. intuition congruence.
Qed.

Lemma dict_set_fresh {V : Type} (k : text) (v : V) (d : dict V) :
  ~ In k (keys d) -> dict_set k v d = d ++ [(k, v)].
Proof.
  induction d as [|[k1 v1] d IH]; intros Hk; cbn [dict_set app];
    [reflexivity|].
  destruct (text_eqb k k1) eqn:H1.
  - apply text_eqb_eq in H1. subst. exfalso. apply Hk. now left.
  - rewrite IH; [reflexivity|]. intros Hin. apply Hk. now right.
Qed.

Lemma set_all_fresh {V : Type} (items : dict V) :
  forall d, NoDup (keys d ++ keys items) -> set_all items d = d ++ items.
Proof.
  induction items as [|[k1 v1] items IH]; intros d Hnd.
  - cbn. now rewrite app_nil_r.
  - rewrite set_all_cons.
    cbn [keys map fst] in Hnd. pose proof (NoDup_remove_2 _ _ _ Hnd) as Hk.
    rewrite dict_set_fresh by (intros Hin; apply Hk, in_or_app; now left).
    rewrite IH.
    + now rewrite <- app_assoc.
    + unfold keys. rewrite map_app. cbn [map fst]. rewrite <- app_assoc.
      exact Hnd.
Qed.

Lemma keys_combine {V : Type} (ks : list text) (vals : list V) :
  length ks = length vals -> keys (combine ks vals) = ks.
Proof.
  revert vals. induction ks as [|k ks IH]; intros [|v vals] H;
    try discriminate; cbn [combine keys map fst]; [reflexivity|].
  f_equal. apply IH. now injection H.
Qed.

(** C8.  [_render_payload] returns [None], booleans and numbers as they are
    and records nothing for them.  A list renders to a list of the same
    length whose items are the renderings of the items, in order.  A dict
    renders to a dict with exactly the same keys; with one binding per key,
    as in any Python dict, the keys keep their order and each value is the
    rendering of the value it replaces. *)
Theorem render_payload_structure :
  (forall s, _render_payload JNull s = (inr JNull, s)) /\
  (forall b s, _render_payload (JBool b) s = (inr (JBool b), s)) /\
  (forall n s, _render_payload (JInt n) s = (inr (JInt n), s)) /\
  (forall bits s, _render_payload (JFloat bits) s = (inr (JFloat bits), s)) /\
  (forall items s v,
      fst (_render_payload (JList items) s) = inr v ->
      exists items',
        v = JList items' /\
        length items' = length items /\
        Forall2 (fun item item' => fst (_render_payload item s) = inr item')
          items items') /\
  (forall items s v,
      fst (_render_payload (JDict items) s) = inr v ->
      exists items',
        v = JDict items' /\
        (forall k, In k (keys items') <-> In k (keys items)) /\
        (NoDup (keys items) ->
         keys items' = keys items /\
         Forall2 (fun kv kv' =>
                    fst kv' = fst kv /\
                    fst (_render_payload (snd kv) s) = inr (snd kv'))
           items items')).
Proof.
  repeat split; try reflexivity.
  - intros items s v. rewrite render_payload_list, bind_run.
    pose proof (render_items_result items s s) as Hitems.
    destruct (render_items items s) as [[e|l] s1]; [discriminate|].
    intros [= <-]. specialize (Hitems l eq_refl eq_refl).
    exists l. split; [reflexivity|]. split; [|assumption].
    symmetry. eapply Forall2_length, Hitems.
  - intros items s v Hv. rewrite render_payload_dict in Hv.
    destruct (render_entries_result items s [] s v eq_refl Hv)
      as (vals & Hvals & ->).
    pose proof (Forall2_length Hvals) as Hlen.
    eexists. split; [reflexivity|]. split.
    + intros k. rewrite keys_set_all, keys_combine.
      * cbn. tauto.
      * unfold keys. now rewrite length_map.
    + intros Hnd.
      assert (Hk : keys (combine (keys items) vals) = keys items).
      { apply keys_combine. unfold keys. now rewrite length_map. }
      rewrite set_all_fresh by (cbn [keys map app]; now rewrite Hk).
      cbn [app]. split; [exact Hk|].
      clear Hnd Hv Hlen Hk.
      induction Hvals as [|[k x] v' items vals Hx _ IH];
        cbn [keys map fst combine]; constructor; auto.
Qed.

End PayloadClaims.

(** ** Strings that look like JSON *)





Section StringPayloadClaims.

Context {E : Env}.


End StringPayloadClaims.

(** ** Concrete runs in the scripted world *)

Section ConcreteRuns.

Import Utf8Facts.

Local Notation run_execute cfg outcomes :=
  (execute (E := Sim.env) cfg None None JNull None (Sim.start outcomes)).

(** C1, counterexample.  Two attempts, the first refused: the url template
    is rendered once, no rendering precedes the second request, and both
    requests carry the url rendered before the first. *)
Lemma render_per_attempt_counterexample :
  let run :=
    run_execute (Sim.webhook (T "w") (T "{{ now }}") 2)
      [Sim.refused; Sim.ok 200 (T "done")] in
  length (requests (trace (snd run))) = 2%nat /\
  fresh_render_per_attempt (trace (snd run)) = false /\
  renders (trace (snd run)) = [T "{{ now }}"] /\
  map req_url (requests (trace (snd run))) =
    [JStr (T "http://host/0"); JStr (T "http://host/0")] /\
  Sim.clock (world (snd run)) = 3.
Proof. vm_compute. repeat split. Qed.

(** C10, counterexample.  With [retry_attempts = 0] and a template that
    fails, [execute] raises and fires an error event. *)
Lemma no_attempts_counterexample :
  let run := run_execute (Sim.webhook (T "w") (T "{{ bad }}") 0) [] in
  fst run = inl (TemplateError (T "UndefinedError: bad")) /\
  events (trace (snd run)) =
    [WebhookError (T "w") ERROR_TEMPLATE (T "UndefinedError: bad") 0 None].
Proof. vm_compute. split; reflexivity. Qed.

Lemma no_attempts_no_op_witness :
  run_execute (Sim.webhook (T "w") (T "http://host/") 0) [Sim.refused]
    = (inr None, Sim.start [Sim.refused]).
Proof.
  apply (no_attempts_no_op (E := Sim.env)
           (Sim.webhook (T "w") (T "http://host/") 0) None None JNull None
           (Sim.start [Sim.refused]) (Sim.start [Sim.refused]) 0
           (JStr (T "http://host/"), [], JNull));
    [reflexivity | lia | reflexivity].
Defined.



(** C4, counterexample.  An empty url override and a zero timeout override
    are supplied, and the definition's url and timeout stand. *)
Lemma falsy_override_counterexample :
  let b :=
    build (Sim.webhook (T "w") (T "http://host/") 3) (Some []) None JNull
      (Some 0) in
  b_url b = JStr (T "http://host/") /\ b_url b <> JStr [] /\
  b_timeout b = 10 /\ b_timeout b <> 0.
Proof. vm_compute. repeat split; discriminate. Qed.

Lemma override_precedence_witness :
  b_url (build (Sim.webhook (T "w") (T "http://host/") 3)
           (Some (T "http://other/")) None JNull None)
    = JStr (T "http://other/").
Proof.
  apply (proj1 (override_precedence
                  (Sim.webhook (T "w") (T "http://host/") 3)
                  (Some (T "http://other/")) None JNull None));
    [reflexivity | discriminate].
Defined.

(** C7, counterexample.  An empty record in the editable store does not
    win over the declarative entry; a declarative entry with an empty id,
    and one that a later entry repeats, are not in the enumeration. *)
Lemma store_record_counterexample :
  let yaml_a := Sim.webhook (T "a") (T "http://yaml/") 3 in
  let yaml_a' := Sim.webhook (T "a") (T "http://later/") 3 in
  let yaml_blank := Sim.webhook [] (T "http://blank/") 3 in
  get_webhook (Sim.manager [yaml_a] [(T "a", Sim.empty_config)]) (T "a")
    = Some yaml_a /\
  dict_get [] (get_all_webhooks (Sim.manager [yaml_blank] [])) = None /\
  dict_get (T "a") (get_all_webhooks (Sim.manager [yaml_a; yaml_a'] []))
    = Some yaml_a'.
Proof. vm_compute. repeat split. Qed.

Lemma store_record_wins_witness :
  get_webhook
    (Sim.manager [Sim.webhook (T "a") (T "http://yaml/") 3]
       [(T "a", Sim.webhook (T "a") (T "http://store/") 1)]) (T "a")
    = Some (Sim.webhook (T "a") (T "http://store/") 1).
Proof.
  apply (proj1 (store_record_wins
                  (Sim.manager [Sim.webhook (T "a") (T "http://yaml/") 3]
                     [(T "a", Sim.webhook (T "a") (T "http://store/") 1)])
                  (T "a")));
    reflexivity.
Defined.

Lemma client_error_aborts_witness :
  fst (retry_loop (E := Sim.env) (T "w") (JStr (T "http://host/")) (T "POST")
         [] JNull 10 5 2 [0; 1; 2; 3; 4] None
         (Sim.start [Sim.http 404 (T "Not Found")]))
    = inl (ClientResponseError 404 (T "Not Found")).
Proof.
  erewrite (proj1 (proj1 client_error_aborts (T "w") (JStr (T "http://host/"))
                     (T "POST") [] JNull 10 5 2 0 [1; 2; 3; 4] None
                     (Sim.start [Sim.http 404 (T "Not Found")]) _ 404
                     (T "Not Found") eq_refl));
    [reflexivity | lia].
Defined.

Lemma backoff_between_attempts_witness :
  exists w tl,
    run_execute (Sim.webhook (T "w") (T "http://host/") 3)
      [Sim.refused; Sim.refused; Sim.http 200 (T "OK")]
      = (inr (Some {| rd_status_code := 200; rd_headers := [];
                      rd_body := []; rd_json := JNull |}),
         record (Sim.start [Sim.refused; Sim.refused; Sim.http 200 (T "OK")])
           w tl) /\
    schedule tl = [Attempt; Wait 1; Attempt; Wait 2; Attempt] /\
    events tl = [WebhookSuccess (T "w") 200 3].
Proof.
  eapply (proj2 (proj2 (backoff_between_attempts (E := Sim.env)))
            (Sim.webhook (T "w") (T "http://host/") 3) None None JNull None);
    reflexivity.
Defined.

Lemma render_payload_structure_witness :
  exists items',
    JList [JInt 1; JStr (T "a")] = JList items' /\
    length items' = 2%nat.
Proof.
  destruct (proj1 (proj2 (proj2 (proj2 (proj2
              (render_payload_structure (E := Sim.env))))))
              [JInt 1; JStr (T "a")] (Sim.start [])
              (JList [JInt 1; JStr (T "a")]) eq_refl)
    as (items' & Hv & Hlen & _).
  exists items'. split; assumption.
Defined.







End ConcreteRuns.

(** * Further properties of the code *)

(** ** Rendering payloads and headers that hold no template *)

Lemma distinct_NoDup (ks : list text) : distinct ks = true -> NoDup ks.
Proof.
  induction ks as [|k ks IH]; cbn [distinct]; [constructor|].
  rewrite andb_true_iff, negb_true_iff. intros [Hk Hks].
  constructor; [|auto]. intros Hin.
  assert (existsb (text_eqb k) ks = true) as Hex
      by (apply existsb_exists; exists k; split; [assumption | apply text_eqb_refl]).
  congruence.
Qed.

Section PlainFacts.

Context {E : Env}.

Lemma render_items_plain (items : list json) :
  Forall (fun p => well_formed p = true -> plain p = true ->
                   forall s, _render_payload p s = (inr p, s)) items ->
  forallb well_formed items = true ->
  forallb plain items = true ->
  forall s, render_items items s = (inr items, s).
Proof.
  induction 1 as [|p items Hp _ IH]; cbn [forallb render_items];
    [reflexivity|].
  rewrite !andb_true_iff. intros [Hw Hws] [Hpl Hpls] s.
  rewrite bind_run, (Hp Hw Hpl), bind_run, (IH Hws Hpls). reflexivity.
Qed.

Lemma render_entries_plain (items : list (text * json)) :
  Forall (fun kv => well_formed (snd kv) = true -> plain (snd kv) = true ->
                    forall s, _render_payload (snd kv) s = (inr (snd kv), s))
    items ->
  forallb (fun kv => well_formed (snd kv)) items = true ->
  forallb (fun kv => plain (snd kv)) items = true ->
  forall rendered s,
    render_entries items rendered s =
      (inr (JDict (set_all items rendered)), s).
Proof.
  induction 1 as [|[k p] items Hp _ IH]; cbn [forallb render_entries];
    [reflexivity|].
  rewrite !andb_true_iff. cbn [snd] in *. intros [Hw Hws] [Hpl Hpls] rendered s.
  rewrite bind_run, (Hp Hw Hpl), (IH Hws Hpls). reflexivity.
Qed.

(** X1.  A payload whose strings hold no template marker and do not look
    like JSON, and whose dicts have one binding per key, renders to itself:
    the renderer is not invoked and nothing is recorded. *)
Theorem render_payload_plain (p : json) :
  well_formed p = true -> plain p = true ->
  forall s, _render_payload p s = (inr p, s).
Proof.
  induction p using json_nested_ind; try reflexivity.
  - intros _ Hpl st. cbn [plain] in Hpl. unfold plain_text in Hpl.
    apply andb_true_iff in Hpl as [Hm Hj]. apply negb_true_iff in Hm, Hj.
    cbn [_render_payload _render_template]. rewrite Hm.
    rewrite bind_run. unfold ret. cbv beta iota. now rewrite Hj.
  - intros Hw Hpl st. cbn [well_formed plain] in Hw, Hpl.
    rewrite render_payload_list, bind_run.
    now rewrite (render_items_plain items H Hw Hpl).
  - intros Hw Hpl st. cbn [well_formed plain] in Hw, Hpl.
    apply andb_true_iff in Hw as [Hd Hw].
    rewrite render_payload_dict, (render_entries_plain items H Hw Hpl).
    rewrite set_all_fresh; [reflexivity|].
    cbn [keys map app]. now apply distinct_NoDup.
Qed.

End PlainFacts.

Section HeaderFacts.

Context {E : Env}.





End HeaderFacts.

(** ** What [_make_request] returns *)

Section RequestFacts.

Context {E : Env}.

Import Utf8Facts.

(** A returned record comes from a response below 400 whose text could be
    encoded; its body is the text, cut when the encoding exceeds the cap. *)
Lemma make_request_returns (url : json) (method : text)
    (headers : dict text) (payload : json) (timeout : Z) (s : state)
    (rd : response_data) :
  fst (_make_request url method headers payload timeout s) = inr rd ->
  exists response w t bs,
    session_request (world s) (request_of url method headers payload timeout)
      = (inr response, w) /\
    resp_status response < 400 /\
    resp_text response = inr t /\
    Utf8.encode t = Some bs /\
    rd = data_of response
           (if len bs >? MAX_RESPONSE_SIZE
            then Utf8.fit_prefix MAX_RESPONSE_SIZE t else t).
Proof.
  rewrite make_request_run.
  destruct (session_request _ _) as [[e|response] w]; [discriminate|].
  destruct (Z.leb_spec 400 (resp_status response)); [discriminate|].
  destruct (declared_over_cap _); [discriminate|].
  destruct (resp_text response) as [e|t] eqn:Ht; [discriminate|].
  destruct (Utf8.encode t) as [bs|] eqn:Hbs; [|discriminate].
  intros Hrd. exists response, w, t, bs. repeat (split; [auto|]).
  destruct (len bs >? MAX_RESPONSE_SIZE); injection Hrd as <-;
    [now rewrite (decode_slice t bs _ Hbs) | reflexivity].
Qed.

(** The body kept of a text fits the cap. *)
Lemma kept_body_fits (t : text) (bs : list Z) :
  Utf8.encode t = Some bs ->
  exists bs',
    Utf8.encode (if len bs >? MAX_RESPONSE_SIZE
                 then Utf8.fit_prefix MAX_RESPONSE_SIZE t else t) = Some bs' /\
    len bs' <= MAX_RESPONSE_SIZE.
Proof.
  intros Hbs. destruct (Z.gtb_spec (len bs) MAX_RESPONSE_SIZE); [|eauto].
  destruct (fit_prefix_cap t bs MAX_RESPONSE_SIZE Hbs) as (bs' & Hbs' & Hl);
    [unfold MAX_RESPONSE_SIZE in *; lia|].
  exists bs'. split; [assumption | lia].
Qed.

(** X3.  A record [_make_request] returns has a status below 400, a body of
    at most 1 MiB in UTF-8, and a [json] entry parsed from that body, not
    from the text received. *)
Theorem make_request_record (url : json) (method : text)
    (headers : dict text) (payload : json) (timeout : Z) (s : state)
    (rd : response_data) :
  fst (_make_request url method headers payload timeout s) = inr rd ->
  rd_status_code rd < 400 /\
  rd_json rd = parse_body (rd_body rd) /\
  exists bs,
    Utf8.encode (rd_body rd) = Some bs /\ len bs <= MAX_RESPONSE_SIZE.
Proof.
  intros Hrd.
  destruct (make_request_returns _ _ _ _ _ _ _ Hrd)
    as (response & w & t & bs & _ & Hst & _ & Hbs & ->).
  cbn [data_of rd_status_code rd_json rd_body].
  split; [exact Hst|]. split; [reflexivity|].
  exact (kept_body_fits t bs Hbs).
Qed.

(** X4.  The body of a returned record is a prefix of the text received,
    with the status and the headers of the response; it is the whole text
    exactly when the text takes at most 1 MiB in UTF-8, and then the only
    log entry is the debug line of the request. *)
Theorem make_request_body_prefix (url : json) (method : text)
    (headers : dict text) (payload : json) (timeout : Z) (s : state)
    (response : response) (w : World) (t : text) (rd : response_data) :
  let r := request_of url method headers payload timeout in
  session_request (world s) r = (inr response, w) ->
  resp_text response = inr t ->
  fst (_make_request url method headers payload timeout s) = inr rd ->
  rd = data_of response (rd_body rd) /\
  (exists rest, t = rd_body rd ++ rest) /\
  (rd_body rd = t <-> Utf8.byte_len t <= MAX_RESPONSE_SIZE) /\
  (rd_body rd = t ->
   snd (_make_request url method headers payload timeout s)
     = record s w [ELog Debug LogMakingRequest; ERequest r]).
Proof.
  intros r Hreq Ht. rewrite make_request_run. fold r. rewrite Hreq, Ht.
  destruct (Z.leb_spec 400 (resp_status response)); [discriminate|].
  destruct (declared_over_cap _); [discriminate|].
  destruct (Utf8.encode t) as [bs|] eqn:Hbs; [|discriminate].
  rewrite <- (encode_len t bs Hbs).
  destruct (Z.gtb_spec (len bs) MAX_RESPONSE_SIZE); intros [= <-];
    cbn [data_of rd_body snd].
  - rewrite (decode_slice t bs _ Hbs).
    assert (Hne : Utf8.fit_prefix MAX_RESPONSE_SIZE t <> t).
    { intros Heq.
      pose proof (fit_prefix_fits t MAX_RESPONSE_SIZE) as Hfit.
      rewrite Heq, <- (encode_len t bs Hbs) in Hfit.
      unfold MAX_RESPONSE_SIZE in *. lia. }
    split; [reflexivity|]. split; [apply fit_prefix_is_prefix|].
    split; [split; [contradiction | lia] | contradiction].
  - split; [reflexivity|]. split; [exists []; now rewrite app_nil_r|].
    split; [tauto | reflexivity].
Qed.







End RequestFacts.

(** ** How an execution ends *)

Section EndingFacts.

Context {E : Env}.

Variables (webhook_id : text) (url : json) (method : text)
  (headers : dict text) (payload : json) (timeout : Z)
  (retry_attempts retry_backoff : Z).

Local Notation loop :=
  (retry_loop webhook_id url method headers payload timeout
     retry_attempts retry_backoff).
Local Notation attempt_request :=
  (_make_request url method headers payload timeout).

Lemma waited_events (attempt : Z) (e : exn) (s1 : state) :
  events (trace (waited retry_attempts retry_backoff attempt e s1))
    = events (trace s1).
Proof.
  unfold waited. destruct (failure_log_is_log e) as (lvl & site & ->).
  destruct (attempt <? retry_attempts - 1); cbn [record trace];
    rewrite events_app; cbn; now rewrite app_nil_r.
Qed.

Lemma attempt_events (s : state) :
  events (trace (snd (attempt_request s))) = events (trace s).
Proof.
  destruct (attempt_effects url method headers payload timeout s)
    as (w & tl & -> & Hev & _).
  cbn [record trace]. now rewrite events_app, Hev, app_nil_r.
Qed.

(** The kinds of error the loop keeps in [last_error]. *)
Lemma last_error_kind (e : exn) :
  In (fst (last_error_of e)) [ERROR_CONNECTION; ERROR_TIMEOUT; ERROR_HTTP].
Proof. destruct e; cbn; auto. Qed.

(** When the loop gives up, the event and the exception tell the same
    error. *)
Lemma loop_gives_up (attempts : list Z) :
  forall (last_error : option (text * text)) (s s' : state) (msg : text),
    (forall ty em, last_error = Some (ty, em) ->
       In ty [ERROR_CONNECTION; ERROR_TIMEOUT; ERROR_HTTP]) ->
    loop attempts last_error s = (inl (HomeAssistantError msg), s') ->
    exists error_type error_message,
      In error_type [ERROR_CONNECTION; ERROR_TIMEOUT; ERROR_HTTP] /\
      msg = T "Webhook " ++ webhook_id ++ T " failed after "
            ++ str_of_int retry_attempts ++ T " attempts: " ++ error_message /\
      events (trace s') =
        events (trace s)
        ++ [WebhookError webhook_id error_type error_message retry_attempts
              None].
Proof.
  induction attempts as [|a rest IH]; intros last_error s s' msg Hkind.
  - cbn [retry_loop]. unfold exhausted.
    destruct last_error as [[ty em]|]; [|discriminate].
    rewrite bind_run. unfold _fire_error_event, async_fire.
    rewrite emit_run. unfold raise. intros [= <- <-].
    exists ty, em. split; [eauto|]. split; [reflexivity|].
    cbn [record trace int_truthy]. now rewrite events_app.
  - destruct (attempt_cases webhook_id url method headers payload timeout
                retry_attempts retry_backoff a rest last_error s)
      as [rd s1 Hreq Hloop | status message s1 Hreq Hr Hloop
         | e s1 Hreq Hr Hloop]; rewrite Hloop; try discriminate.
    intros Hrun.
    assert (Hk : forall ty em,
               Some (last_error_of e) = Some (ty, em) ->
               In ty [ERROR_CONNECTION; ERROR_TIMEOUT; ERROR_HTTP]).
    { intros ty em [= Heq]. pose proof (last_error_kind e) as Hin.
      now rewrite Heq in Hin. }
    destruct (IH _ _ _ _ Hk Hrun)
      as (ty & em & Hty & Hmsg & Hev).
    exists ty, em. split; [assumption|]. split; [assumption|].
    rewrite Hev, waited_events.
    pose proof (attempt_events s) as Ha. rewrite Hreq in Ha. cbn [snd] in Ha.
    now rewrite Ha.
Qed.

(** A response the loop returns is one [_make_request] returned. *)
Lemma loop_returns (attempts : list Z) :
  forall (last_error : option (text * text)) (s s' : state)
         (rd : response_data),
    loop attempts last_error s = (inr (Some rd), s') ->
    exists s0, fst (attempt_request s0) = inr rd.
Proof.
  induction attempts as [|a rest IH]; intros last_error s s' rd.
  - cbn [retry_loop]. unfold exhausted.
    destruct last_error as [[ty em]|]; discriminate.
  - destruct (attempt_cases webhook_id url method headers payload timeout
                retry_attempts retry_backoff a rest last_error s)
      as [rd1 s1 Hreq Hloop | status message s1 Hreq Hr Hloop
         | e s1 Hreq Hr Hloop]; rewrite Hloop; try discriminate.
    + intros [= <- _]. exists s. now rewrite Hreq.
    + apply IH.
Qed.

End EndingFacts.

Section ExecutionReports.

Context {E : Env}.

Import Utf8Facts.

(** X6.  A response that declares a size above the cap makes the attempt
    fail like any unexpected error: the loop logs it, keeps it in
    [last_error] as a [connection_error] with the size message, and goes on
    with the attempts that remain. *)
Theorem declared_size_is_retried (webhook_id : text) (url : json)
    (method : text) (headers : dict text) (payload : json) (timeout : Z)
    (retry_attempts retry_backoff : Z) (attempt : Z) (rest : list Z)
    (last_error : option (text * text)) (s : state) (response : response)
    (w : World) :
  let r := request_of url method headers payload timeout in
  session_request (world s) r = (inr response, w) ->
  resp_status response < 400 ->
  declared_over_cap (resp_content_length response) = true ->
  retry_loop webhook_id url method headers payload timeout retry_attempts
    retry_backoff (attempt :: rest) last_error s =
    retry_loop webhook_id url method headers payload timeout retry_attempts
      retry_backoff rest
      (Some (ERROR_CONNECTION,
             T "Response size (" ++ get_or (resp_content_length response) []
             ++ T " bytes) exceeds maximum allowed ("
             ++ str_of_int MAX_RESPONSE_SIZE ++ T " bytes)"))
      (waited retry_attempts retry_backoff attempt
         (size_error (resp_content_length response))
         (record s w [ELog Debug LogMakingRequest; ERequest r])) /\
  failure_log (size_error (resp_content_length response))
    = ELog Error LogUnexpected.
Proof.
  intros r Hreq Hst Hcl. split; [|reflexivity].
  pose proof (make_request_declared url method headers payload timeout s
                response w Hreq Hst Hcl) as Hrun.
  exact (loop_retry _ _ _ _ _ _ _ _ _ _ _ _ _ _ Hrun eq_refl).
Qed.

Variables (cfg : config) (url_override : option text)
  (headers_override : option (dict text)) (payload_override : json)
  (timeout_override : option Z).

Local Notation b :=
  (build cfg url_override headers_override payload_override
     timeout_override).
Local Notation webhook_id := (get_or (cfg_webhook_id cfg) (T "unknown")).
Local Notation run :=
  (execute cfg url_override headers_override payload_override
     timeout_override).

(** X7.  When [execute] gives up it has issued exactly [retry_attempts]
    requests; the one event it fires is an error event with
    [attempt = retry_attempts], no status code, and a kind among
    [connection_error], [timeout_error] and [http_error]; the exception
    raised quotes the message of that event. *)
Theorem exhaustion_report (s : state) (msg : text) :
  fst (run s) = inl (HomeAssistantError msg) ->
  1 <= b_retry_attempts b /\
  exists w tl error_type error_message,
    snd (run s) = record s w tl /\
    Z.of_nat (length (requests tl)) = b_retry_attempts b /\
    events tl =
      [WebhookError webhook_id error_type error_message (b_retry_attempts b)
         None] /\
    In error_type [ERROR_CONNECTION; ERROR_TIMEOUT; ERROR_HTTP] /\
    msg = T "Webhook " ++ webhook_id ++ T " failed after "
          ++ str_of_int (b_retry_attempts b) ++ T " attempts: "
          ++ error_message.
Proof.
  intros Hres.
  destruct (execute_outcome cfg url_override headers_override
              payload_override timeout_override s)
    as (res_r & tl_r & res & w & tl & Hr & Htl & Hrun & _ & _ & _ & Hcase).
  destruct (execute_run cfg url_override headers_override payload_override
              timeout_override s) as (res_r' & tl_r' & _ & Hr' & Hloop).
  rewrite Hr in Hr'. injection Hr' as <- Htr.
  apply app_inv_head in Htr. subst tl_r'.
  rewrite Hrun in Hres |- *. cbn [fst snd] in *. subst res.
  destruct (only_renders_projections tl_r Htl) as (Hev & Hrq & _).
  destruct res_r as [e|[[url headers] payload]].
  - destruct Hcase as (Heq & _ & m & -> & _). discriminate Heq.
  - destruct Hcase as (_ & _ & Hn & Hreqs & ty' & em' & Hevs).
    rewrite Hrun in Hloop. symmetry in Hloop.
    destruct (loop_gives_up _ _ _ _ _ _ _ _ _ None _ _ _
                ltac:(discriminate) Hloop)
      as (ty & em & Hty & Hmsg & Hevents).
    cbn [record trace] in Hevents.
    rewrite !events_app, Hev, Hevs in Hevents. cbn [app] in Hevents.
    rewrite <- app_assoc in Hevents. apply app_inv_head in Hevents.
    cbn [app] in Hevents. injection Hevents as -> ->.
    split; [assumption|]. exists w, (tl_r ++ tl), ty, em.
    split; [reflexivity|].
    rewrite requests_app, events_app, Hev, Hrq, Hevs. cbn [app].
    repeat split; assumption.
Qed.

(** X8.  A record [execute] returns has a status below 400 and a body of at
    most 1 MiB, and the one event fired is the success event with that
    status and with the number of the last request, at least 1 and at most
    [retry_attempts]. *)
Theorem success_report (s : state) (rd : response_data) :
  fst (run s) = inr (Some rd) ->
  rd_status_code rd < 400 /\
  (exists bs,
      Utf8.encode (rd_body rd) = Some bs /\ len bs <= MAX_RESPONSE_SIZE) /\
  exists w tl,
    snd (run s) = record s w tl /\
    events tl =
      [WebhookSuccess webhook_id (rd_status_code rd)
         (Z.of_nat (length (requests tl)))] /\
    1 <= Z.of_nat (length (requests tl)) <= b_retry_attempts b.
Proof.
  intros Hres.
  destruct (execute_outcome cfg url_override headers_override
              payload_override timeout_override s)
    as (res_r & tl_r & res & w & tl & Hr & Htl & Hrun & _ & Hle & _ & Hcase).
  destruct (execute_run cfg url_override headers_override payload_override
              timeout_override s) as (res_r' & tl_r' & _ & Hr' & Hloop).
  rewrite Hr in Hr'. injection Hr' as <- Htr.
  apply app_inv_head in Htr. subst tl_r'.
  rewrite Hrun in Hres |- *. cbn [fst snd] in *. subst res.
  destruct (only_renders_projections tl_r Htl) as (Hev & Hrq & _).
  destruct res_r as [e|[[url headers] payload]].
  - destruct Hcase as (Heq & _). discriminate Heq.
  - destruct Hcase as (_ & Hone & Hevs).
    rewrite Hrun in Hloop. symmetry in Hloop.
    destruct (loop_returns _ _ _ _ _ _ _ _ _ _ _ _ _ Hloop) as (s0 & Hs0).
    destruct (make_request_returns _ _ _ _ _ _ _ Hs0)
      as (response & w0 & t & bs & _ & Hst & _ & Hbs & ->).
    cbn [data_of rd_status_code rd_body] in *.
    split; [assumption|]. split; [exact (kept_body_fits t bs Hbs)|].
    exists w, (tl_r ++ tl). split; [reflexivity|].
    rewrite requests_app, events_app, Hev, Hrq, Hevs. cbn [app].
    split; [reflexivity|].
    assert (Hpos : 1 <= b_retry_attempts b).
    { destruct (Z.leb_spec 1 (b_retry_attempts b)); [assumption|].
      exfalso. unfold range in Hloop.
      replace (Z.to_nat (b_retry_attempts b)) with 0%nat in Hloop by lia.
      discriminate Hloop. }
    specialize (Hone Hpos). lia.
Qed.



End ExecutionReports.

(** ** The service handler *)

Section HandlerFacts.

Context {E : Env}.

Variables (config_manager : WebhookConfigManager) (call : ServiceCall).

Local Notation handle := (handle_webhook_call config_manager call).
Local Notation execute_for c :=
  (execute c (call_url_override call) (call_headers_override call)
     (call_payload_override call) (call_timeout_override call)).

Lemma handle_run (c : config) (s : state) :
  get_webhook config_manager (call_webhook_id call) = Some c ->
  handle s =
    match execute_for c s with
    | (inr (Some response), s1) =>
        (inr response, record s1 (world s1) [ELog Debug LogCallOk])
    | (inr None, s1) =>
        (inl (HomeAssistantError
                (T "Webhook execution failed: "
                 ++ T "'NoneType' object is not subscriptable")),
         record s1 (world s1) [ELog Error LogCallFailed])
    | (inl err, s1) =>
        (inl (HomeAssistantError
                (T "Webhook execution failed: " ++ str_exn err)),
         record s1 (world s1) [ELog Error LogCallFailed])
    end.
Proof.
  intros Hc. unfold handle_webhook_call.
  rewrite Hc, (get_webhook_truthy _ _ _ Hc).
  destruct (execute_for c s) as [[err|[rd|]] s1]; reflexivity.
Qed.

(** X11.  The handler raises nothing but [HomeAssistantError]: a failure of
    [execute], whatever its class, comes out as a [HomeAssistantError] whose
    message is ["Webhook execution failed: "] followed by the text of the
    failure; and the handler returns a record only when [execute] returned
    that record for the resolved definition. *)
Theorem handler_wraps_failures (s : state) :
  (forall e, fst (handle s) = inl e -> exists msg, e = HomeAssistantError msg) /\
  (forall c err,
      get_webhook config_manager (call_webhook_id call) = Some c ->
      fst (execute_for c s) = inl err ->
      fst (handle s) =
        inl (HomeAssistantError
               (T "Webhook execution failed: " ++ str_exn err))) /\
  (forall rd,
      fst (handle s) = inr rd ->
      exists c,
        get_webhook config_manager (call_webhook_id call) = Some c /\
        fst (execute_for c s) = inr (Some rd)).
Proof.
  split; [|split].
  - intros e He.
    destruct (get_webhook config_manager (call_webhook_id call)) as [c|] eqn:Hc.
    + rewrite (handle_run c s Hc) in He.
      destruct (execute_for c s) as [[err|[rd|]] s1]; cbn [fst] in He;
        try discriminate; injection He as <-; eauto.
    + unfold handle_webhook_call in He. rewrite Hc in He.
      injection He as <-. eauto.
  - intros c err Hc Herr. rewrite (handle_run c s Hc).
    destruct (execute_for c s) as [[err0|[rd|]] s1]; cbn [fst] in Herr;
      try discriminate. now injection Herr as ->.
  - intros rd Hrd.
    destruct (get_webhook config_manager (call_webhook_id call)) as [c|] eqn:Hc.
    + rewrite (handle_run c s Hc) in Hrd. exists c. split; [reflexivity|].
      destruct (execute_for c s) as [[err|[rd0|]] s1]; cbn [fst] in Hrd;
        try discriminate. now injection Hrd as ->.
    + unfold handle_webhook_call in Hrd. rewrite Hc in Hrd. discriminate.
Qed.

(** X12.  A call for a definition with [retry_attempts <= 0] whose
    templates render fails: [execute] returns [None], reading the status off
    it is a [TypeError], and the handler raises a [HomeAssistantError] for
    it, after no request and no event. *)
Theorem handler_without_attempts (c : config) (n : Z) (s s1 : state)
    (rendered : json * dict text * json) :
  get_webhook config_manager (call_webhook_id call) = Some c ->
  cfg_retry_attempts c = Some n ->
  n <= 0 ->
  render_all (build c (call_url_override call) (call_headers_override call)
                (call_payload_override call) (call_timeout_override call)) s
    = (inr rendered, s1) ->
  handle s =
    (inl (HomeAssistantError
            (T "Webhook execution failed: 'NoneType' object is not subscriptable")),
     record s1 (world s1) [ELog Error LogCallFailed]) /\
  requests (trace s1) = requests (trace s) /\
  events (trace s1) = events (trace s).
Proof.
  intros Hc Hn Hle Hrender.
  destruct (execute_run c (call_url_override call) (call_headers_override call)
              (call_payload_override call) (call_timeout_override call) s)
    as (res & tl & Htl & Hr & Hrun).
  rewrite Hrender in Hr. injection Hr as <- ->.
  destruct rendered as [[url headers] payload].
  replace (b_retry_attempts _) with n in Hrun
    by (now rewrite build_retry_attempts, Hn).
  unfold range in Hrun. replace (Z.to_nat n) with 0%nat in Hrun by lia.
  cbn [count_from retry_loop exhausted] in Hrun. unfold ret in Hrun.
  rewrite (handle_run c s Hc), Hrun.
  destruct (only_renders_projections tl Htl) as (Hev & Hrq & _).
  split; [reflexivity|]. cbn [record trace].
  now rewrite requests_app, events_app, Hev, Hrq, !app_nil_r.
Qed.

End HandlerFacts.

(** ** Stored configurations: adding, removing, reloading *)

Section DictChanges.

Context {V : Type}.

Lemma dict_mem_in (k : text) (d : dict V) :
  dict_mem k d = true <-> In k (keys d).
Proof.
  unfold dict_mem. induction d as [|[k' v] d IH]; cbn [dict_get keys map fst In].
  - split; [discriminate | contradiction].
  - destruct (text_eqb k k') eqn:Hk.
    + apply text_eqb_eq in Hk. subst. tauto.
    + apply text_eqb_neq in Hk. unfold keys in IH. rewrite IH.
      split; [tauto | intros [?|?]; congruence].
Qed.

Lemma keys_dict_del (k k' : text) (d : dict V) :
  In k (keys (dict_del k' d)) -> In k (keys d).
Proof.
  induction d as [|[k1 v1] d IH]; cbn [dict_del]; [auto|].
  destruct (text_eqb k' k1); cbn [keys map fst In]; [tauto|].
  intros [?|?]; [tauto|]. right. now apply IH.
Qed.

Lemma dict_del_NoDup (k : text) (d : dict V) :
  NoDup (keys d) -> NoDup (keys (dict_del k d)).
Proof.
  induction d as [|[k1 v1] d IH]; cbn [dict_del]; [auto|].
  cbn [keys map fst]. intros Hnd. inversion Hnd as [|? ? Hk1 Hd]; subst.
  destruct (text_eqb k k1); [assumption|]. cbn [keys map fst].
  constructor; [|now apply IH]. intros Hin. apply Hk1.
  now apply (keys_dict_del k1 k d).
Qed.

Lemma dict_get_del_same (k : text) (d : dict V) :
  NoDup (keys d) -> dict_get k (dict_del k d) = None.
Proof.
  induction d as [|[k1 v1] d IH]; cbn [dict_del]; [reflexivity|].
  cbn [keys map fst]. intros Hnd. inversion Hnd as [|? ? Hk1 Hd]; subst.
  destruct (text_eqb k k1) eqn:Hk.
  - apply text_eqb_eq in Hk. subst. now apply dict_get_none.
  - cbn [dict_get]. rewrite Hk. now apply IH.
Qed.

Lemma dict_get_del_other (k k' : text) (d : dict V) :
  k <> k' -> dict_get k (dict_del k' d) = dict_get k d.
Proof.
  intros Hne. induction d as [|[k1 v1] d IH]; cbn [dict_del]; [reflexivity|].
  destruct (text_eqb k' k1) eqn:Hk; cbn [dict_get].
  - apply text_eqb_eq in Hk. subst k1.
    apply text_eqb_neq in Hne. now rewrite Hne.
  - now rewrite IH.
Qed.

Lemma dict_set_NoDup (k : text) (v : V) (d : dict V) :
  NoDup (keys d) -> NoDup (keys (dict_set k v d)).
Proof.
  induction d as [|[k1 v1] d IH]; cbn [dict_set keys map fst].
  - intros _. constructor; [intros [] | constructor].
  - intros Hnd. inversion Hnd as [|? ? Hk1 Hd]; subst.
    destruct (text_eqb k k1) eqn:Hk; cbn [keys map fst]; [assumption|].
    constructor; [|now apply IH]. intros Hin.
    apply keys_dict_set in Hin as [->|Hin]; [|contradiction].
    now rewrite text_eqb_refl in Hk.
Qed.

Lemma dict_del_set_fresh (k : text) (v : V) (d : dict V) :
  ~ In k (keys d) -> dict_del k (dict_set k v d) = d.
Proof.
  induction d as [|[k1 v1] d IH]; cbn [dict_set dict_del keys map fst In].
  - now rewrite text_eqb_refl.
  - intros Hk. destruct (text_eqb k k1) eqn:H1.
    + apply text_eqb_eq in H1. subst. tauto.
    + cbn [dict_del]. rewrite H1, IH; tauto.
Qed.

Lemma dict_set_set (k : text) (v1 v2 : V) (d : dict V) :
  dict_set k v2 (dict_set k v1 d) = dict_set k v2 d.
Proof.
  induction d as [|[k1 x] d IH]; cbn [dict_set].
  - now rewrite text_eqb_refl.
  - destruct (text_eqb k k1) eqn:H1; cbn [dict_set]; rewrite H1;
      [reflexivity | now rewrite IH].
Qed.

Lemma dict_update_NoDup (o : dict V) :
  forall d, NoDup (keys d) -> NoDup (keys (dict_update d o)).
Proof.
  induction o as [|[k v] o IH]; intros d Hd; cbn [dict_update]; [assumption|].
  now apply IH, dict_set_NoDup.
Qed.

End DictChanges.

Lemma collect_yaml_NoDup (l : list config) :
  forall webhooks,
    NoDup (keys webhooks) -> NoDup (keys (collect_yaml l webhooks)).
Proof.
  induction l as [|webhook l IH]; intros webhooks Hnd; cbn [collect_yaml];
    [assumption|].
  destruct (str_truthy (cfg_webhook_id webhook)); [|now apply IH].
  now apply IH, dict_set_NoDup.
Qed.

Lemma keys_dict_update {V : Type} (k : text) (o : dict V) :
  forall d, In k (keys (dict_update d o)) <-> In k (keys d) \/ In k (keys o).
Proof.
  induction o as [|[k1 v1] o IH]; intros d; cbn [dict_update].
  - cbn. tauto.
  - rewrite IH, keys_dict_set. cbn [keys map fst In]. intuition congruence.
Qed.

Lemma keys_collect_yaml (k : text) (l : list config) :
  forall webhooks,
    In k (keys (collect_yaml l webhooks)) <->
    In k (keys webhooks) \/
    exists webhook,
      In webhook l /\ cfg_webhook_id webhook = Some k /\ k <> [].
Proof.
  induction l as [|w l IH]; intros webhooks; cbn [collect_yaml].
  - split; [auto | intros [H|(w & [] & _)]; exact H].
  - destruct (cfg_webhook_id w) as [[|c i]|] eqn:Hw; cbn [str_truthy get_or];
      rewrite IH; try rewrite keys_dict_set.
    + split; [intros [H|(w' & Hin & Hk)]; [auto | right; exists w'; cbn; tauto]|].
      intros [H|(w' & [<-|Hin] & Hid & Hk)]; [auto | congruence|].
      right. exists w'. auto.
    + split.
      * intros [[->|H]|(w' & Hin & Hk)]; [|auto|right; exists w'; cbn; tauto].
        right. exists w. cbn. repeat split; [auto | assumption | discriminate].
      * intros [H|(w' & [<-|Hin] & Hid & Hk)]; [auto | left; left; congruence|].
        right. exists w'. auto.
    + split; [intros [H|(w' & Hin & Hk)]; [auto | right; exists w'; cbn; tauto]|].
      intros [H|(w' & [<-|Hin] & Hid & Hk)]; [auto | congruence|].
      right. exists w'. auto.
Qed.

(** X13.  The ids [get_all_webhooks] enumerates are those of the stored
    configurations and the non-empty ids of the YAML entries, nothing else,
    and each id is enumerated once. *)
Theorem get_all_webhooks_ids (m : WebhookConfigManager) :
  (forall k,
     In k (keys (get_all_webhooks m)) <->
     In k (keys (storage_get_all_webhooks (storage m))) \/
     exists l webhook,
       yaml_webhooks m = Some l /\ In webhook l /\
       cfg_webhook_id webhook = Some k /\ k <> []) /\
  NoDup (keys (get_all_webhooks m)).
Proof.
  split.
  - intros k. unfold get_all_webhooks. rewrite keys_dict_update.
    destruct (yaml_webhooks m) as [l|].
    + rewrite keys_collect_yaml. cbn [keys map In]. split.
      * intros [[[]|(w & Hw)]|H]; [right; exists l, w; tauto | auto].
      * intros [H|(l' & w & [= <-] & Hw)]; [auto | left; right; exists w; tauto].
    + cbn [keys map In]. split; [tauto|].
      intros [H|(l' & w & Hl & _)]; [auto | discriminate].
  - unfold get_all_webhooks. apply dict_update_NoDup.
    destruct (yaml_webhooks m); [|constructor].
    apply collect_yaml_NoDup. constructor.
Qed.

(** X14.  After [async_add_webhook] the storage returns the configuration
    under its id and says the id exists, every other id is as before, the
    configuration replaces a previous one as a whole, and the store holds
    what the storage holds. *)
Theorem storage_add_then_get (webhook_id : text) (c : config)
    (st : storage_state) :
  let st' := storage_async_add_webhook webhook_id c st in
  storage_get_webhook (ss_data st') webhook_id = Some c /\
  storage_webhook_exists (ss_data st') webhook_id = true /\
  (forall k, k <> webhook_id ->
     storage_get_webhook (ss_data st') k = storage_get_webhook (ss_data st) k) /\
  (forall c0,
     ss_data (storage_async_add_webhook webhook_id c
                (storage_async_add_webhook webhook_id c0 st))
       = ss_data st') /\
  ss_store st' = Some (ss_data st').
Proof.
  cbn. unfold storage_get_webhook, storage_webhook_exists, storage_webhooks,
    dict_mem. cbn [data_webhooks get_or].
  rewrite dict_get_set_same. repeat split.
  - intros k Hk. now rewrite dict_get_set_other.
  - intros c0. now rewrite dict_set_set.
Qed.

(** X15.  [async_remove_webhook] of an id the storage holds leaves the
    storage without it, keeps every other id, and saves; of an id the
    storage does not hold, it changes nothing and does not save. *)
Theorem storage_remove (webhook_id : text) (st : storage_state) :
  NoDup (keys (storage_webhooks (ss_data st))) ->
  let st' := storage_async_remove_webhook webhook_id st in
  storage_get_webhook (ss_data st') webhook_id = None /\
  storage_webhook_exists (ss_data st') webhook_id = false /\
  (forall k, k <> webhook_id ->
     storage_get_webhook (ss_data st') k = storage_get_webhook (ss_data st) k) /\
  NoDup (keys (storage_webhooks (ss_data st'))) /\
  (storage_webhook_exists (ss_data st) webhook_id = true ->
   ss_store st' = Some (ss_data st')) /\
  (storage_webhook_exists (ss_data st) webhook_id = false -> st' = st).
Proof.
  intros Hnd st'. unfold st', storage_async_remove_webhook,
    storage_webhook_exists.
  destruct (dict_mem webhook_id (storage_webhooks (ss_data st))) eqn:Hmem.
  - cbn. unfold storage_get_webhook, storage_webhooks, dict_mem.
    cbn [data_webhooks get_or]. fold (storage_webhooks (ss_data st)).
    rewrite dict_get_del_same by assumption.
    repeat split; try discriminate.
    + intros k Hk. now rewrite dict_get_del_other.
    + now apply dict_del_NoDup.
  - unfold storage_get_webhook. unfold dict_mem in Hmem |- *.
    destruct (dict_get webhook_id (storage_webhooks (ss_data st)));
      [discriminate|].
    repeat split; try discriminate; assumption.
Qed.

(** X16.  Removing an id that was added to a storage without it brings the
    stored configurations back to what they were, order included. *)
Theorem storage_add_then_remove (webhook_id : text) (c : config)
    (st : storage_state) :
  ~ In webhook_id (keys (storage_webhooks (ss_data st))) ->
  storage_webhooks
    (ss_data (storage_async_remove_webhook webhook_id
                (storage_async_add_webhook webhook_id c st)))
    = storage_webhooks (ss_data st).
Proof.
  intros Hout. unfold storage_async_remove_webhook.
  assert (Hmem : dict_mem webhook_id
                   (storage_webhooks
                      (ss_data (storage_async_add_webhook webhook_id c st)))
                 = true).
  { cbn. unfold storage_webhooks, dict_mem. cbn [data_webhooks get_or].
    now rewrite dict_get_set_same. }
  rewrite Hmem. cbn. unfold storage_webhooks in Hout |- *.
  cbn [data_webhooks get_or].
  destruct (data_webhooks (ss_data st)) as [d|]; cbn [get_or] in *.
  - now rewrite dict_del_set_fresh.
  - apply (dict_del_set_fresh webhook_id c []). intros [].
Qed.

(** X17.  What a storage saves, a new storage over the same store loads:
    after an add, and after a remove that found its id, [async_load] on a
    fresh [WebhookStorage] gives the same data.  Over a store that was
    never written, or that holds an empty dict, [async_load] keeps the
    initial data, an empty [webhooks] dict. *)
Theorem storage_reload (webhook_id : text) (c : config) (st : storage_state) :
  (let st' := storage_async_add_webhook webhook_id c st in
   ss_data (storage_async_load (new_storage (ss_store st'))) = ss_data st') /\
  (storage_webhook_exists (ss_data st) webhook_id = true ->
   let st' := storage_async_remove_webhook webhook_id st in
   ss_data (storage_async_load (new_storage (ss_store st'))) = ss_data st') /\
  ss_data (storage_async_load (new_storage None))
    = {| data_webhooks := Some [] |} /\
  ss_data (storage_async_load
             (new_storage (Some {| data_webhooks := None |})))
    = {| data_webhooks := Some [] |}.
Proof.
  repeat split.
  intros Hex. unfold storage_async_remove_webhook.
  unfold storage_webhook_exists in Hex. rewrite Hex. reflexivity.
Qed.

(** ** The two sources together *)

Lemma dict_get_not_in {V : Type} (k : text) (d : dict V) :
  dict_get k d = None -> ~ In k (keys d).
Proof.
  intros Hget Hin. apply dict_mem_in in Hin. unfold dict_mem in Hin.
  now rewrite Hget in Hin.
Qed.

Lemma find_yaml_exists (l : list config) (webhook_id : text) (c : config) :
  find_yaml l webhook_id = Some c ->
  existsb (fun webhook => id_is webhook webhook_id) l = true.
Proof.
  induction l as [|w l IH]; cbn [find_yaml existsb]; [discriminate|].
  destruct (id_is w webhook_id); [reflexivity|]. exact IH.
Qed.

Lemma find_yaml_none (l : list config) (webhook_id : text) :
  find_yaml l webhook_id = None <->
  existsb (fun webhook => id_is webhook webhook_id) l = false.
Proof.
  induction l as [|w l IH]; cbn [find_yaml existsb]; [tauto|].
  destruct (id_is w webhook_id); [split; discriminate|]. exact IH.
Qed.

(** X18.  An id [get_webhook] resolves is an id [webhook_exists] reports;
    and for an id [webhook_exists] denies, the service handler raises the
    not-found error and leaves the state as it was: no request, no event,
    no log line. *)
Theorem resolved_ids_exist {E : Env} (m : WebhookConfigManager)
    (call : ServiceCall) (s : state) :
  (forall c, get_webhook m (call_webhook_id call) = Some c ->
     webhook_exists m (call_webhook_id call) = true) /\
  (webhook_exists m (call_webhook_id call) = false ->
   handle_webhook_call m call s =
     (inl (HomeAssistantError
             (T "Webhook '" ++ call_webhook_id call ++ T "' not found")),
      s)).
Proof.
  unfold webhook_exists, get_webhook, storage_webhook_exists,
    storage_get_webhook, dict_mem.
  split.
  - intros c.
    destruct (dict_get (call_webhook_id call) (storage_webhooks (storage m)))
      as [ui|]; [reflexivity|]. cbn [config_opt_truthy].
    destruct (yaml_webhooks m) as [l|]; [|discriminate].
    apply find_yaml_exists.
  - intros Hex. unfold handle_webhook_call, get_webhook, storage_get_webhook.
    destruct (dict_get (call_webhook_id call) (storage_webhooks (storage m)))
      as [ui|]; [discriminate|]. cbn [config_opt_truthy].
    destruct (yaml_webhooks m) as [l|]; [|reflexivity].
    apply find_yaml_none in Hex. now rewrite Hex.
Qed.

Lemma collect_yaml_find (webhook_id : text) (l : list config) :
  yaml_ids_distinct l = true ->
  forall webhooks,
    dict_get webhook_id (collect_yaml l webhooks) =
      match find_yaml l webhook_id with
      | Some c => Some c
      | None => dict_get webhook_id webhooks
      end.
Proof.
  unfold yaml_ids_distinct.
  induction l as [|w l IH]; intros Hd webhooks;
    cbn [collect_yaml find_yaml]; [reflexivity|].
  cbn [forallb map distinct] in Hd.
  apply andb_true_iff in Hd as [Ht Hd].
  apply andb_true_iff in Ht as [Hw Ht].
  apply andb_true_iff in Hd as [Hfresh Hd].
  apply negb_true_iff in Hfresh.
  rewrite Hw. unfold id_is at 1.
  destruct (cfg_webhook_id w) as [i|] eqn:Hi; [|discriminate].
  cbn [get_or] in *.
  destruct (text_eqb i webhook_id) eqn:Heq.
  - apply text_eqb_eq in Heq. subst i.
    rewrite collect_yaml_other; [apply dict_get_set_same|].
    apply Forall_forall. intros later Hin.
    destruct (id_is later webhook_id) eqn:Hl; [|reflexivity].
    exfalso. unfold id_is in Hl.
    destruct (cfg_webhook_id later) as [j|] eqn:Hj; [|discriminate].
    apply text_eqb_eq in Hl. subst j.
    assert (existsb (text_eqb webhook_id)
              (map (fun webhook => get_or (cfg_webhook_id webhook) []) l)
            = true) as Hex; [|congruence].
    apply existsb_exists. exists webhook_id. split; [|apply text_eqb_refl].
    apply in_map_iff. exists later. now rewrite Hj.
  - rewrite IH by (now rewrite Ht, Hd).
    destruct (find_yaml l webhook_id); [reflexivity|].
    apply dict_get_set_other. apply text_eqb_neq in Heq. congruence.
Qed.

(** X19.  When the editable store holds only non-empty records, one per id,
    and the declarative entries carry non-empty ids that are all different,
    looking an id up in the enumeration of [get_all_webhooks] and resolving
    it with [get_webhook] give the same answer, for every id. *)
Theorem lookup_agrees_with_enumeration (m : WebhookConfigManager)
    (webhook_id : text) :
  NoDup (keys (storage_get_all_webhooks (storage m))) ->
  Forall (fun kv => config_truthy (snd kv) = true)
    (storage_get_all_webhooks (storage m)) ->
  match yaml_webhooks m with
  | Some l => yaml_ids_distinct l = true
  | None => True
  end ->
  dict_get webhook_id (get_all_webhooks m) = get_webhook m webhook_id.
Proof.
  intros Hnd Htruthy Hyaml. unfold get_all_webhooks, get_webhook,
    storage_get_webhook.
  fold (storage_get_all_webhooks (storage m)).
  destruct (dict_get webhook_id (storage_get_all_webhooks (storage m)))
    as [ui|] eqn:Hui; cbn [config_opt_truthy].
  - rewrite (dict_get_update _ _ _ _ Hnd Hui).
    apply dict_get_in in Hui.
    rewrite Forall_forall in Htruthy. specialize (Htruthy _ Hui).
    cbn [snd] in Htruthy. now rewrite Htruthy.
  - rewrite dict_get_update_other by now apply dict_get_not_in.
    destruct (yaml_webhooks m) as [l|]; [|reflexivity].
    rewrite (collect_yaml_find webhook_id l Hyaml).
    now destruct (find_yaml l webhook_id).
Qed.

(** X20.  Adding a non-empty configuration through the manager makes
    [get_webhook] resolve its id to it, whatever the declarative source
    holds, without changing what any other id resolves to; removing an id
    the store held makes [get_webhook] fall back on the declarative entry
    of that id, if there is one, again without changing any other id. *)
Theorem manager_add_and_remove (webhook_id : text) (c : config)
    (m : manager_state) :
  (config_truthy c = true ->
   get_webhook (manager_of (manager_async_add_webhook webhook_id c m))
     webhook_id = Some c) /\
  (forall k, k <> webhook_id ->
     get_webhook (manager_of (manager_async_add_webhook webhook_id c m)) k
       = get_webhook (manager_of m) k) /\
  (NoDup (keys (storage_webhooks (ss_data (ms_storage m)))) ->
   get_webhook (manager_of (manager_async_remove_webhook webhook_id m))
     webhook_id
     = match ms_yaml m with
       | Some l => find_yaml l webhook_id
       | None => None
       end) /\
  (forall k, k <> webhook_id ->
     get_webhook (manager_of (manager_async_remove_webhook webhook_id m)) k
       = get_webhook (manager_of m) k).
Proof.
  unfold get_webhook, storage_get_webhook, storage_webhooks.
  cbn [manager_of storage yaml_webhooks manager_async_add_webhook
         manager_async_remove_webhook ms_storage ms_yaml].
  repeat split.
  - intros Hc. cbn. rewrite dict_get_set_same. cbn [config_opt_truthy].
    now rewrite Hc.
  - intros k Hk. cbn. now rewrite dict_get_set_other.
  - intros Hnd. unfold storage_async_remove_webhook, storage_webhooks in *.
    destruct (dict_mem webhook_id
                (get_or (data_webhooks (ss_data (ms_storage m))) []))
      eqn:Hmem.
    + cbn. now rewrite dict_get_del_same.
    + unfold dict_mem in Hmem.
      now destruct (dict_get webhook_id
                      (get_or (data_webhooks (ss_data (ms_storage m))) [])).
  - intros k Hk. unfold storage_async_remove_webhook, storage_webhooks.
    destruct (dict_mem webhook_id
                (get_or (data_webhooks (ss_data (ms_storage m))) []));
      [|reflexivity].
    cbn. now rewrite dict_get_del_other.
Qed.

(** ** Setting up the component and its config entries *)

Lemma nth_error_replace_at {A : Type} (l : list A) :
  forall r x m,
    nth_error l r = Some m -> nth_error (replace_at r x l) r = Some x.
Proof.
  induction l as [|y l IH]; intros [|r] x m; cbn; try discriminate; eauto.
Qed.

Lemma nth_error_new {A : Type} (l : list A) (x : A) :
  nth_error (l ++ [x]) (length l) = Some x.
Proof. induction l as [|y l IH]; cbn; auto. Qed.

Lemma loaded_distinct (store : option WebhookStorage) :
  store_distinct store = true ->
  NoDup (keys (storage_webhooks (loaded store))).
Proof.
  unfold loaded, storage_async_load, new_storage, storage_webhooks.
  cbn [ss_store ss_data].
  destruct store as [[[d|]]|]; cbn; intros H; try constructor.
  now apply distinct_NoDup.
Qed.

Lemma loaded_some (store : option WebhookStorage) :
  exists d, loaded store = {| data_webhooks := Some d |}.
Proof.
  unfold loaded, storage_async_load, new_storage.
  destruct store as [[[d|]]|]; cbn; eauto.
Qed.

(** What [hass.data] and the service hold of a consistent instance. *)
Lemma consistent_manager (h : hass) (r : nat) :
  consistent h ->
  data_config_manager h = inr r ->
  exists m,
    nth_error (hass_objects h) r = Some m /\
    hass_service h = Some r /\
    service_manager h = Some (manager_of m) /\
    ss_data (ms_storage m) = loaded (hass_store h) /\
    NoDup (keys (storage_webhooks (ss_data (ms_storage m)))).
Proof.
  intros [Hnd Hc]. unfold data_config_manager, service_manager.
  destruct (hass_data h) as [d|]; [|discriminate].
  destruct Hc as (r' & m & Hr & Hs & Hm & Hd). rewrite Hr. intros [= <-].
  exists m. rewrite Hs, Hm, Hd. auto.
Qed.

(** A method that saves what it leaves in the object, one binding per id,
    keeps the instance consistent. *)
Lemma on_manager_consistent (r : nat)
    (method : manager_state -> manager_state) (h : hass) :
  consistent h ->
  data_config_manager h = inr r ->
  (forall m,
      NoDup (keys (storage_webhooks (ss_data (ms_storage m)))) ->
      ss_data (ms_storage m) = loaded (ss_store (ms_storage m)) ->
      NoDup (keys (storage_webhooks (ss_data (ms_storage (method m))))) /\
      ss_data (ms_storage (method m))
        = loaded (ss_store (ms_storage (method m)))) ->
  consistent (on_manager r method h) /\
  data_config_manager (on_manager r method h) = inr r.
Proof.
  intros Hc Hr Hmethod.
  destruct (consistent_manager h r Hc Hr) as (m & Hm & Hs & _ & Hd & Hnd).
  unfold on_manager. rewrite Hm.
  destruct (Hmethod (attach (hass_store h) m)) as [Hnd' Hd'];
    [exact Hnd | exact Hd |].
  unfold data_config_manager in *. cbn [hass_data].
  split; [|exact Hr]. split; cbn [hass_store hass_data hass_service hass_objects].
  - now rewrite <- Hd'.
  - destruct (hass_data h) as [d|]; [|discriminate].
    destruct (dd_config_manager d) as [r'|]; [|discriminate].
    injection Hr as ->.
    exists r, (method (attach (hass_store h) m)).
    repeat split; try assumption.
    now apply (nth_error_replace_at _ _ _ m).
Qed.

Lemma add_saves (webhook_id : text) (c : config) (m : manager_state) :
  NoDup (keys (storage_webhooks (ss_data (ms_storage m)))) ->
  ss_data (ms_storage m) = loaded (ss_store (ms_storage m)) ->
  let m' := manager_async_add_webhook webhook_id c m in
  NoDup (keys (storage_webhooks (ss_data (ms_storage m')))) /\
  ss_data (ms_storage m') = loaded (ss_store (ms_storage m')).
Proof.
  intros Hnd _. cbn. split; [|reflexivity].
  unfold storage_webhooks in *. cbn [data_webhooks get_or].
  now apply dict_set_NoDup.
Qed.

Lemma remove_saves (webhook_id : text) (m : manager_state) :
  NoDup (keys (storage_webhooks (ss_data (ms_storage m)))) ->
  ss_data (ms_storage m) = loaded (ss_store (ms_storage m)) ->
  let m' := manager_async_remove_webhook webhook_id m in
  NoDup (keys (storage_webhooks (ss_data (ms_storage m')))) /\
  ss_data (ms_storage m') = loaded (ss_store (ms_storage m')).
Proof.
  intros Hnd Hd. cbn. unfold storage_async_remove_webhook.
  destruct (dict_mem webhook_id (storage_webhooks (ss_data (ms_storage m))));
    [|now split].
  cbn. split; [|reflexivity].
  unfold storage_webhooks at 1. cbn [data_webhooks get_or].
  now apply dict_del_NoDup.
Qed.

Lemma consistent_emit (e : setup_effect) (h : hass) :
  consistent h -> consistent (setup_emit e h).
Proof. exact (fun H => H). Qed.

(** Making a manager and putting it in [hass.data]. *)
Lemma consistent_new (yaml_config : option (list config))
    (y : option (option (list config))) (h : hass) :
  NoDup (keys (storage_webhooks (loaded (hass_store h)))) ->
  let h1 := snd (new_config_manager yaml_config h) in
  let r := fst (new_config_manager yaml_config h) in
  consistent
    (async_setup_services r
       (set_data {| dd_yaml_config := y; dd_config_manager := Some r |} h1)).
Proof.
  intros Hnd. split; [exact Hnd|].
  cbn. eexists _, _. repeat split; [apply nth_error_new | reflexivity].
Qed.

Lemma setup_consistent (yaml_config : option (list config)) (h : hass) :
  consistent h -> consistent (snd (async_setup yaml_config h)).
Proof.
  intros [Hnd _]. unfold async_setup. cbn [new_config_manager snd].
  apply consistent_emit. exact (consistent_new yaml_config _ h Hnd).
Qed.


Lemma ensure_manager_consistent (h : hass) :
  consistent h ->
  consistent (snd (ensure_manager h)) /\
  data_config_manager (snd (ensure_manager h)) = inr (fst (ensure_manager h)) /\
  (forall r, data_config_manager h = inr r ->
     fst (ensure_manager h) = r /\
     hass_objects (snd (ensure_manager h)) = hass_objects h) /\
  hass_store (snd (ensure_manager h)) = hass_store h.
Proof.
  intros Hc. pose proof Hc as [Hnd Hd]. unfold ensure_manager.
  unfold data_config_manager.
  destruct (hass_data h) as [d|] eqn:Hdata; cbn [get_or].
  - destruct Hd as (r & m & Hr & Hs & Hm & Hdm). rewrite Hr.
    cbn [fst snd set_data hass_data hass_store hass_objects].
    rewrite Hr. split; [|split; [reflexivity|split; [|reflexivity]]].
    + split; [exact Hnd|]. cbn [hass_data set_data]. exists r, m. auto.
    + now intros r0 [= <-].
  - cbn [dd_config_manager dd_yaml_config new_config_manager].
    cbn [set_data hass_service]. rewrite Hd. cbn [is_some fst snd].
    split; [exact (consistent_new None None h Hnd)|].
    split; [reflexivity|]. split; [discriminate | reflexivity].
Qed.

Lemma same_instance_refl (h : hass) : same_instance h h.
Proof. now repeat split. Qed.

Lemma same_instance_emit (e : setup_effect) (h h' : hass) :
  same_instance h h' -> same_instance h (setup_emit e h').
Proof. exact (fun H => H). Qed.

Lemma same_instance_consistent (h h' : hass) :
  same_instance h h' -> consistent h -> consistent h'.
Proof.
  intros (Hd & Ho & Hs & Hst). unfold consistent.
  now rewrite Hd, Ho, Hs, Hst.
Qed.

Lemma same_instance_service (h h' : hass) :
  same_instance h h' -> service_manager h' = service_manager h.
Proof.
  intros (Hd & Ho & Hs & Hst). unfold service_manager. now rewrite Ho, Hs.
Qed.

Lemma same_instance_data (h h' : hass) :
  same_instance h h' -> data_config_manager h' = data_config_manager h.
Proof.
  intros (Hd & Ho & Hs & Hst). unfold data_config_manager. now rewrite Hd.
Qed.

Lemma on_manager_service (r : nat) (method : manager_state -> manager_state)
    (h : hass) (m : manager_state) :
  nth_error (hass_objects h) r = Some m ->
  hass_service h = Some r ->
  service_manager (on_manager r method h)
    = Some (manager_of (method (attach (hass_store h) m))) /\
  hass_store (on_manager r method h)
    = ss_store (ms_storage (method (attach (hass_store h) m))).
Proof.
  intros Hm Hs. unfold on_manager, service_manager. rewrite Hm.
  cbn [hass_service hass_objects hass_store]. rewrite Hs.
  now rewrite (nth_error_replace_at _ _ _ m Hm).
Qed.

(** [add_entry] on the manager of a consistent instance. *)
Lemma add_entry_run (r : nat) (entry : ConfigEntry) (between : hass -> hass)
    (logged : text -> setup_effect) (h : hass) :
  consistent h ->
  data_config_manager h = inr r ->
  (forall x, same_instance x (between x)) ->
  let res := add_entry r entry between logged h in
  consistent (snd res) /\
  data_config_manager (snd res) = inr r /\
  (fst res = inl (KeyError CONF_WEBHOOK_ID) /\
   cfg_webhook_id (entry_data entry) = None /\ snd res = h
   \/
   exists webhook_id,
     cfg_webhook_id (entry_data entry) = Some webhook_id /\
     same_instance
       (on_manager r
          (manager_async_add_webhook webhook_id (entry_data entry)) h)
       (snd res) /\
     fst res = match cfg_name (entry_data entry) with
               | Some _ => inr tt
               | None => inl (KeyError CONF_NAME)
               end).
Proof.
  intros Hc Hr Hb. unfold add_entry.
  destruct (cfg_webhook_id (entry_data entry)) as [webhook_id|];
    [|cbn [fst snd]; split; [exact Hc|]; split; [exact Hr|]; left; auto].
  set (h1 := on_manager r _ h).
  destruct (on_manager_consistent r
              (manager_async_add_webhook webhook_id (entry_data entry)) h
              Hc Hr) as [Hc1 Hr1];
    [intros m; apply add_saves|]. fold h1 in Hc1, Hr1.
  pose proof (Hb h1) as Hsame.
  assert (Hres : same_instance h1
            (snd (match cfg_name (entry_data entry) with
                  | Some name =>
                      (@inr exn unit tt, setup_emit (logged name) (between h1))
                  | None => (inl (KeyError CONF_NAME), between h1)
                  end))).
  { destruct (cfg_name (entry_data entry)); exact Hsame. }
  split; [exact (same_instance_consistent _ _ Hres Hc1)|].
  split; [now rewrite (same_instance_data _ _ Hres)|].
  right. exists webhook_id. split; [reflexivity|]. split; [exact Hres|].
  now destruct (cfg_name (entry_data entry)).
Qed.

Lemma setup_entry_consistent (entry : ConfigEntry) (h : hass) :
  consistent h -> consistent (snd (async_setup_entry entry h)).
Proof.
  intros Hc. unfold async_setup_entry.
  destruct (ensure_manager_consistent h Hc) as (Hc1 & Hr1 & _).
  destruct (ensure_manager h) as [r h1]. cbn [fst snd] in *.
  destruct (add_entry_run r entry (setup_emit UpdateListenerAdded)
              LogEntryAdded h1 Hc1 Hr1) as (Hc2 & _);
    [intros x; apply same_instance_emit, same_instance_refl|].
  cbv zeta in Hc2.
  now destruct (add_entry r entry _ LogEntryAdded h1) as [[e|[]] h2].
Qed.

Lemma update_options_consistent (entry : ConfigEntry) (h : hass) :
  consistent h -> consistent (snd (async_update_options entry h)).
Proof.
  intros Hc. unfold async_update_options.
  destruct (data_config_manager h) as [e|r] eqn:Hr; [exact Hc|].
  apply (add_entry_run r entry (fun h => h) LogEntryUpdated h Hc Hr).
  apply same_instance_refl.
Qed.

(** [async_unload_entry] on a consistent instance. *)
Lemma unload_entry_run (entry : ConfigEntry) (h : hass) :
  consistent h ->
  let res := async_unload_entry entry h in
  consistent (snd res) /\
  data_config_manager (snd res) = data_config_manager h /\
  (forall b, fst res = inr b ->
     exists r webhook_id,
       data_config_manager h = inr r /\
       cfg_webhook_id (entry_data entry) = Some webhook_id /\
       same_instance
         (on_manager r (manager_async_remove_webhook webhook_id) h)
         (snd res)).
Proof.
  intros Hc. unfold async_unload_entry.
  destruct (data_config_manager h) as [e|r] eqn:Hr;
    [cbn; repeat split; [apply Hc | apply Hc | assumption | discriminate]|].
  destruct (cfg_webhook_id (entry_data entry)) as [webhook_id|];
    [|cbn; repeat split; [apply Hc | apply Hc | assumption | discriminate]].
  set (h1 := on_manager r _ h).
  destruct (on_manager_consistent r
              (manager_async_remove_webhook webhook_id) h Hc Hr)
    as [Hc1 Hr1]; [intros m; apply remove_saves|]. fold h1 in Hc1, Hr1.
  destruct (cfg_name (entry_data entry)) as [name|]; cbn [fst snd].
  - split; [exact Hc1|]. split; [exact Hr1|]. intros b _.
    exists r, webhook_id. repeat split.
  - split; [exact Hc1|]. split; [exact Hr1|]. discriminate.
Qed.

Lemma reload_entry_consistent (entry : ConfigEntry) (h : hass) :
  consistent h -> consistent (snd (async_reload_entry entry h)).
Proof.
  intros Hc. unfold async_reload_entry.
  destruct (unload_entry_run entry h Hc) as (Hc1 & _). cbv zeta in Hc1.
  destruct (async_unload_entry entry h) as [[e|b] h1]; [exact Hc1|].
  cbn [snd] in Hc1.
  pose proof (setup_entry_consistent entry h1 Hc1) as Hc2.
  now destruct (async_setup_entry entry h1) as [[e|b'] h2].
Qed.

Lemma after_call_consistent (c : setup_call) (h : hass) :
  consistent h -> consistent (after_call c h).
Proof.
  destruct c; cbn [after_call].
  - apply setup_consistent.
  - apply setup_entry_consistent.
  - intros Hc. apply (unload_entry_run entry h Hc).
  - apply reload_entry_consistent.
  - apply update_options_consistent.
Qed.

Lemma after_calls_consistent (cs : list setup_call) :
  forall h, consistent h -> consistent (after_calls cs h).
Proof.
  induction cs as [|c cs IH]; intros h Hc; [exact Hc|].
  apply IH, after_call_consistent, Hc.
Qed.

(** X21.  Whatever calls Home Assistant has made into the module, in
    whatever order and whether they returned or raised: a handler is
    registered for the service exactly when [hass.data] holds a manager, the
    handler reads that very manager, and the manager holds, one binding per
    id, what a new storage would load from the store: the instance is
    [consistent]. *)
Theorem handler_reads_current_manager (store : option WebhookStorage)
    (cs : list setup_call) :
  store_distinct store = true ->
  let h := after_calls cs (hass_start store) in
  consistent h /\
  (hass_data h = None -> hass_service h = None) /\
  (forall d, hass_data h = Some d ->
     exists r m,
       dd_config_manager d = Some r /\
       hass_service h = Some r /\
       nth_error (hass_objects h) r = Some m /\
       service_manager h = Some (manager_of m) /\
       ss_data (ms_storage m) = loaded (hass_store h) /\
       NoDup (keys (storage_webhooks (ss_data (ms_storage m))))).
Proof.
  intros Hstore h.
  assert (Hc : consistent h).
  { apply after_calls_consistent. split; [now apply loaded_distinct|].
    reflexivity. }
  split; [exact Hc|]. destruct Hc as [Hnd Hc]. split.
  - intros Hd. now rewrite Hd in Hc.
  - intros d Hd. rewrite Hd in Hc. destruct Hc as (r & m & Hr & Hs & Hm & Hdm).
    exists r, m. unfold service_manager. rewrite Hs, Hm, Hdm. auto 10.
Qed.

(** ** What the handler serves after a call on an entry *)

Lemma id_config_truthy (c : config) (webhook_id : text) :
  cfg_webhook_id c = Some webhook_id -> config_truthy c = true.
Proof. unfold config_truthy. now intros ->. Qed.

Lemma manager_add_get (webhook_id : text) (c : config) (m : manager_state) :
  config_truthy c = true ->
  get_webhook (manager_of (manager_async_add_webhook webhook_id c m))
    webhook_id = Some c.
Proof.
  intros Hc. unfold get_webhook, storage_get_webhook, storage_webhooks. cbn.
  rewrite dict_get_set_same. cbn [config_opt_truthy]. now rewrite Hc.
Qed.

Lemma manager_add_other (webhook_id k : text) (c : config)
    (m : manager_state) :
  k <> webhook_id ->
  get_webhook (manager_of (manager_async_add_webhook webhook_id c m)) k
    = get_webhook (manager_of m) k.
Proof.
  intros Hk. unfold get_webhook, storage_get_webhook, storage_webhooks. cbn.
  now rewrite dict_get_set_other.
Qed.

Lemma manager_remove_get (webhook_id : text) (m : manager_state) :
  NoDup (keys (storage_webhooks (ss_data (ms_storage m)))) ->
  let m' := manager_of (manager_async_remove_webhook webhook_id m) in
  get_webhook m' webhook_id
    = match ms_yaml m with
      | Some l => find_yaml l webhook_id
      | None => None
      end /\
  storage_webhook_exists (storage m') webhook_id = false.
Proof.
  intros Hnd. unfold get_webhook, storage_webhook_exists, storage_get_webhook.
  cbn [manager_of storage yaml_webhooks manager_async_remove_webhook
         ms_storage ms_yaml].
  unfold storage_async_remove_webhook.
  destruct (dict_mem webhook_id (storage_webhooks (ss_data (ms_storage m))))
    eqn:Hmem.
  - cbn. unfold storage_webhooks at 1 2. cbn [data_webhooks get_or].
    unfold dict_mem. now rewrite !dict_get_del_same by assumption.
  - rewrite Hmem. unfold dict_mem in Hmem.
    now destruct (dict_get webhook_id
                    (storage_webhooks (ss_data (ms_storage m)))).
Qed.

Lemma manager_remove_other (webhook_id k : text) (m : manager_state) :
  k <> webhook_id ->
  get_webhook (manager_of (manager_async_remove_webhook webhook_id m)) k
    = get_webhook (manager_of m) k.
Proof.
  intros Hk. unfold get_webhook, storage_get_webhook.
  cbn [manager_of storage yaml_webhooks manager_async_remove_webhook
         ms_storage ms_yaml].
  unfold storage_async_remove_webhook.
  destruct (dict_mem webhook_id (storage_webhooks (ss_data (ms_storage m))));
    [|reflexivity].
  cbn. unfold storage_webhooks at 1 2. cbn [data_webhooks get_or].
  now rewrite dict_get_del_other.
Qed.

Lemma dict_del_absent {V : Type} (k : text) (d : dict V) :
  ~ In k (keys d) -> dict_del k d = d.
Proof.
  induction d as [|[k1 v1] d IH]; cbn [dict_del keys map fst In];
    [reflexivity|].
  intros Hk. destruct (text_eqb k k1) eqn:H1.
  - apply text_eqb_eq in H1. subst. tauto.
  - rewrite IH; tauto.
Qed.

(** The stored configurations after a removal. *)
Lemma manager_remove_stored (webhook_id : text) (m : manager_state) :
  storage_webhooks
    (ss_data (ms_storage (manager_async_remove_webhook webhook_id m)))
    = dict_del webhook_id (storage_webhooks (ss_data (ms_storage m))).
Proof.
  cbn [manager_async_remove_webhook ms_storage].
  unfold storage_async_remove_webhook.
  destruct (dict_mem webhook_id (storage_webhooks (ss_data (ms_storage m))))
    eqn:Hmem; [reflexivity|].
  symmetry. apply dict_del_absent. rewrite <- dict_mem_in. congruence.
Qed.

(** The manager the handler read before, under a consistent instance. *)
Lemma consistent_service (h : hass) (m : WebhookConfigManager) :
  consistent h ->
  service_manager h = Some m ->
  exists r m0,
    data_config_manager h = inr r /\
    nth_error (hass_objects h) r = Some m0 /\ m = manager_of m0.
Proof.
  intros [_ Hc]. unfold service_manager, data_config_manager.
  destruct (hass_data h) as [d|]; [|now rewrite Hc].
  destruct Hc as (r & m0 & Hr & Hs & Hm & _). rewrite Hs, Hm, Hr.
  intros [= <-]. eauto.
Qed.

(** What [add_entry] leaves to the handler when it returns. *)
Lemma add_entry_serves (r : nat) (entry : ConfigEntry)
    (between : hass -> hass) (logged : text -> setup_effect) (h : hass) :
  consistent h ->
  data_config_manager h = inr r ->
  (forall x, same_instance x (between x)) ->
  let res := add_entry r entry between logged h in
  forall u, fst res = inr u ->
  exists webhook_id m m',
    cfg_webhook_id (entry_data entry) = Some webhook_id /\
    service_manager h = Some m /\
    service_manager (snd res) = Some m' /\
    get_webhook m' webhook_id = Some (entry_data entry) /\
    hass_store (snd res) = Some (storage m') /\
    yaml_webhooks m' = yaml_webhooks m /\
    storage_webhooks (storage m')
      = dict_set webhook_id (entry_data entry) (storage_webhooks (storage m)) /\
    (forall k, k <> webhook_id -> get_webhook m' k = get_webhook m k).
Proof.
  intros Hc Hr Hb res u Hu. subst res.
  destruct (add_entry_run r entry between logged h Hc Hr Hb)
    as (_ & _ & [(He & _)|(webhook_id & Hid & Hsame & _)]);
    [congruence|].
  destruct (consistent_manager h r Hc Hr) as (m0 & Hm0 & Hs & Hsm & _).
  destruct (on_manager_service r
              (manager_async_add_webhook webhook_id (entry_data entry)) h m0
              Hm0 Hs) as [Hserv Hstore].
  exists webhook_id, (manager_of m0), (manager_of
    (manager_async_add_webhook webhook_id (entry_data entry)
       (attach (hass_store h) m0))).
  split; [exact Hid|]. split; [exact Hsm|].
  split; [now rewrite (same_instance_service _ _ Hsame)|].
  split; [apply manager_add_get, (id_config_truthy _ _ Hid)|].
  split; [destruct Hsame as (_ & _ & _ & ->); exact Hstore|].
  split; [reflexivity|]. split; [reflexivity|].
  intros k Hk. now rewrite manager_add_other.
Qed.

Lemma ensure_manager_service (h : hass) :
  consistent h ->
  match service_manager h with
  | Some m => service_manager (snd (ensure_manager h)) = Some m
  | None =>
      service_manager (snd (ensure_manager h))
        = Some {| yaml_webhooks := None;
                  storage := loaded (hass_store h) |}
  end.
Proof.
  intros Hc. destruct (service_manager h) as [m|] eqn:Hm.
  - destruct (consistent_service h m Hc Hm) as (r & m0 & Hr & Hm0 & ->).
    unfold ensure_manager. unfold data_config_manager in Hr.
    destruct (hass_data h) as [d|]; [|discriminate]. cbn [get_or].
    destruct (dd_config_manager d); [|discriminate]. exact Hm.
  - destruct Hc as [_ Hc]. unfold ensure_manager, service_manager in *.
    destruct (hass_data h) as [d|].
    + destruct Hc as (r & m0 & _ & Hs & Hm0 & _).
      rewrite Hs, Hm0 in Hm. discriminate.
    + cbn [get_or dd_config_manager dd_yaml_config new_config_manager].
      cbn [set_data hass_service]. rewrite Hc. cbn [is_some snd].
      cbn [async_setup_services setup_emit set_data hass_service
             hass_objects].
      now rewrite nth_error_new.
Qed.

(** What [async_setup_entry] leaves to the handler when it returns. *)
Lemma setup_entry_serves (entry : ConfigEntry) (h : hass) :
  consistent h ->
  forall b, fst (async_setup_entry entry h) = inr b ->
  exists webhook_id m',
    cfg_webhook_id (entry_data entry) = Some webhook_id /\
    service_manager (snd (async_setup_entry entry h)) = Some m' /\
    get_webhook m' webhook_id = Some (entry_data entry) /\
    hass_store (snd (async_setup_entry entry h)) = Some (storage m') /\
    let m :=
      get_or (service_manager h)
        {| yaml_webhooks := None; storage := loaded (hass_store h) |} in
    yaml_webhooks m' = yaml_webhooks m /\
    storage_webhooks (storage m')
      = dict_set webhook_id (entry_data entry)
          (storage_webhooks (storage m)) /\
    (forall k, k <> webhook_id -> get_webhook m' k = get_webhook m k).
Proof.
  intros Hc. unfold async_setup_entry.
  destruct (ensure_manager_consistent h Hc) as (Hc1 & Hr1 & _ & _).
  pose proof (ensure_manager_service h Hc) as Hserv.
  destruct (ensure_manager h) as [r h1]. cbn [fst snd] in *.
  pose proof (add_entry_serves r entry (setup_emit UpdateListenerAdded)
                LogEntryAdded h1 Hc1 Hr1
                (fun x => same_instance_emit _ _ _ (same_instance_refl x)))
    as Hadd.
  cbv zeta in Hadd.
  destruct (add_entry r entry _ LogEntryAdded h1) as [[e|[]] h2];
    cbn [fst snd] in *; [discriminate|].
  intros b _.
  destruct (Hadd tt eq_refl)
    as (webhook_id & m & m' & Hid & Hm & Hm' & Hget & Hst & Hy & Hd & Ho).
  exists webhook_id, m'. repeat (split; [assumption|]).
  assert (Heq : get_or (service_manager h)
                  {| yaml_webhooks := None;
                     storage := loaded (hass_store h) |} = m).
  { destruct (service_manager h); cbn [get_or]; congruence. }
  rewrite Heq. auto.
Qed.

(** X22.  When [async_setup_entry] returns, the handler of the service
    resolves the id of the entry to the data of the entry, whatever the YAML
    configuration holds for that id, and the store holds what the manager
    holds.  When a handler was registered before, every other id resolves as
    it did; when none was, the handler reads a new manager without YAML
    entries over what the store held.  [async_update_options] that returns
    does the same to the manager in place. *)
Theorem setup_entry_serves_entry (entry : ConfigEntry) (h : hass) :
  consistent h ->
  (forall b, fst (async_setup_entry entry h) = inr b ->
   exists webhook_id m',
     cfg_webhook_id (entry_data entry) = Some webhook_id /\
     service_manager (snd (async_setup_entry entry h)) = Some m' /\
     get_webhook m' webhook_id = Some (entry_data entry) /\
     hass_store (snd (async_setup_entry entry h)) = Some (storage m') /\
     let m :=
       get_or (service_manager h)
         {| yaml_webhooks := None; storage := loaded (hass_store h) |} in
     yaml_webhooks m' = yaml_webhooks m /\
     storage_webhooks (storage m')
       = dict_set webhook_id (entry_data entry)
           (storage_webhooks (storage m)) /\
     (forall k, k <> webhook_id -> get_webhook m' k = get_webhook m k)) /\
  (forall u, fst (async_update_options entry h) = inr u ->
   exists webhook_id m m',
     cfg_webhook_id (entry_data entry) = Some webhook_id /\
     service_manager h = Some m /\
     service_manager (snd (async_update_options entry h)) = Some m' /\
     get_webhook m' webhook_id = Some (entry_data entry) /\
     hass_store (snd (async_update_options entry h)) = Some (storage m') /\
     yaml_webhooks m' = yaml_webhooks m /\
     storage_webhooks (storage m')
       = dict_set webhook_id (entry_data entry)
           (storage_webhooks (storage m)) /\
     (forall k, k <> webhook_id -> get_webhook m' k = get_webhook m k)).
Proof.
  intros Hc. split; [now apply setup_entry_serves|].
  unfold async_update_options.
  destruct (data_config_manager h) as [e|r] eqn:Hr; [discriminate|].
  apply (add_entry_serves r entry (fun h => h) LogEntryUpdated h Hc Hr).
  apply same_instance_refl.
Qed.

(** What [async_unload_entry] leaves to the handler when it returns: the
    manager it read, after the removal. *)
Lemma unload_entry_serves (entry : ConfigEntry) (h : hass) :
  consistent h ->
  forall b, fst (async_unload_entry entry h) = inr b ->
  exists webhook_id m0,
    cfg_webhook_id (entry_data entry) = Some webhook_id /\
    service_manager h = Some (manager_of m0) /\
    service_manager (snd (async_unload_entry entry h))
      = Some (manager_of (manager_async_remove_webhook webhook_id m0)) /\
    NoDup (keys (storage_webhooks (ss_data (ms_storage m0)))).
Proof.
  intros Hc b Hb.
  destruct (unload_entry_run entry h Hc) as (_ & _ & Hrun).
  destruct (Hrun b Hb) as (r & webhook_id & Hr & Hid & Hsame).
  destruct (consistent_manager h r Hc Hr) as (m0 & Hm0 & Hs & Hsm & _ & Hnd).
  destruct (on_manager_service r (manager_async_remove_webhook webhook_id)
              h m0 Hm0 Hs) as [Hserv _].
  exists webhook_id, (attach (hass_store h) m0).
  split; [exact Hid|]. split; [exact Hsm|].
  split; [now rewrite (same_instance_service _ _ Hsame)|]. exact Hnd.
Qed.

(** X23.  When [async_unload_entry] returns, the store of the handler's
    manager no longer holds the id of the entry, so the handler resolves
    that id to the first YAML entry carrying it, or to nothing; every other
    id resolves as before. *)
Theorem unload_entry_falls_back (entry : ConfigEntry) (h : hass) :
  consistent h ->
  forall b, fst (async_unload_entry entry h) = inr b ->
  exists webhook_id m m',
    cfg_webhook_id (entry_data entry) = Some webhook_id /\
    service_manager h = Some m /\
    service_manager (snd (async_unload_entry entry h)) = Some m' /\
    get_webhook m' webhook_id
      = match yaml_webhooks m with
        | Some l => find_yaml l webhook_id
        | None => None
        end /\
    storage_webhook_exists (storage m') webhook_id = false /\
    yaml_webhooks m' = yaml_webhooks m /\
    storage_webhooks (storage m')
      = dict_del webhook_id (storage_webhooks (storage m)) /\
    (forall k, k <> webhook_id -> get_webhook m' k = get_webhook m k).
Proof.
  intros Hc b Hb.
  destruct (unload_entry_serves entry h Hc b Hb)
    as (webhook_id & m0 & Hid & Hm & Hm' & Hnd).
  exists webhook_id, (manager_of m0),
    (manager_of (manager_async_remove_webhook webhook_id m0)).
  repeat (split; [assumption|]).
  destruct (manager_remove_get webhook_id m0 Hnd) as [Hget Hex].
  split; [exact Hget|]. split; [exact Hex|]. split; [reflexivity|].
  split; [exact (manager_remove_stored webhook_id m0)|].
  intros k Hk. exact (manager_remove_other webhook_id k m0 Hk).
Qed.

(** X24.  When [async_reload_entry] returns, the handler resolves the id of
    the entry to the data of the entry and every other id as before; in the
    store the entry has moved behind the others. *)
Theorem reload_entry_serves_entry (entry : ConfigEntry) (h : hass) :
  consistent h ->
  forall u, fst (async_reload_entry entry h) = inr u ->
  exists webhook_id m m',
    cfg_webhook_id (entry_data entry) = Some webhook_id /\
    service_manager h = Some m /\
    service_manager (snd (async_reload_entry entry h)) = Some m' /\
    get_webhook m' webhook_id = Some (entry_data entry) /\
    hass_store (snd (async_reload_entry entry h)) = Some (storage m') /\
    yaml_webhooks m' = yaml_webhooks m /\
    storage_webhooks (storage m')
      = dict_del webhook_id (storage_webhooks (storage m))
        ++ [(webhook_id, entry_data entry)] /\
    (forall k, k <> webhook_id -> get_webhook m' k = get_webhook m k).
Proof.
  intros Hc u. unfold async_reload_entry.
  destruct (unload_entry_run entry h Hc) as (Hc1 & _). cbv zeta in Hc1.
  pose proof (unload_entry_serves entry h Hc) as Hun.
  destruct (async_unload_entry entry h) as [[e|b] h1]; [discriminate|].
  cbn [fst snd] in Hc1, Hun.
  destruct (Hun b eq_refl) as (webhook_id & m0 & Hid & Hm & Hm1 & Hnd).
  destruct (manager_remove_get webhook_id m0 Hnd) as [_ Hex].
  pose proof (setup_entry_serves entry h1 Hc1) as Hset.
  destruct (async_setup_entry entry h1) as [[e|b'] h2]; [discriminate|].
  cbn [fst snd] in Hset |- *. intros _.
  destruct (Hset b' eq_refl)
    as (webhook_id' & m' & Hid' & Hm' & Hget & Hst & Hy & Hd & Ho).
  rewrite Hid in Hid'. injection Hid' as <-.
  rewrite Hm1 in Hy, Hd, Ho. cbn [get_or] in Hy, Hd, Ho.
  exists webhook_id, (manager_of m0), m'.
  split; [exact Hid|]. split; [exact Hm|]. split; [exact Hm'|].
  split; [exact Hget|]. split; [exact Hst|]. split; [exact Hy|]. split.
  - rewrite Hd. change (storage (manager_of ?x)) with (ss_data (ms_storage x)).
    rewrite manager_remove_stored. apply dict_set_fresh.
    rewrite <- manager_remove_stored, <- dict_mem_in.
    unfold storage_webhook_exists in Hex. cbn [manager_of storage] in Hex.
    congruence.
  - intros k Hk. rewrite (Ho k Hk). now apply manager_remove_other.
Qed.

(** X25.  How the calls on an entry fail.  On an instance whose
    [hass.data] holds nothing of the integration, [async_unload_entry],
    [async_reload_entry] and [async_update_options] raise [KeyError] for the
    domain and change nothing.  [async_setup_entry] raises nothing but
    [KeyError]: for the id, with nothing added, or for the name, and then
    the handler already resolves the id to the data of the entry and the
    update listener is registered. *)
Theorem entry_calls_that_raise (entry : ConfigEntry) (h : hass) :
  (hass_data h = None ->
   async_unload_entry entry h = (inl (KeyError DOMAIN), h) /\
   async_reload_entry entry h = (inl (KeyError DOMAIN), h) /\
   async_update_options entry h = (inl (KeyError DOMAIN), h)) /\
  (consistent h ->
   forall e, fst (async_setup_entry entry h) = inl e ->
     (e = KeyError CONF_WEBHOOK_ID /\
      cfg_webhook_id (entry_data entry) = None /\
      snd (async_setup_entry entry h) = snd (ensure_manager h))
     \/
     (e = KeyError CONF_NAME /\
      cfg_name (entry_data entry) = None /\
      exists webhook_id m' tr,
        cfg_webhook_id (entry_data entry) = Some webhook_id /\
        service_manager (snd (async_setup_entry entry h)) = Some m' /\
        get_webhook m' webhook_id = Some (entry_data entry) /\
        hass_trace (snd (async_setup_entry entry h))
          = tr ++ [UpdateListenerAdded])).
Proof.
  split.
  - intros Hd. unfold async_reload_entry, async_unload_entry,
      async_update_options, data_config_manager. now rewrite Hd.
  - intros Hc e. unfold async_setup_entry.
    destruct (ensure_manager_consistent h Hc) as (Hc1 & Hr1 & _ & _).
    destruct (ensure_manager h) as [r h1]. cbn [fst snd] in *.
    destruct (consistent_manager h1 r Hc1 Hr1) as (m0 & Hm0 & Hs & _).
    unfold add_entry.
    destruct (cfg_webhook_id (entry_data entry)) as [webhook_id|] eqn:Hid;
      [|cbn [fst snd]; intros [= <-]; left; auto].
    destruct (cfg_name (entry_data entry)) as [name|] eqn:Hname;
      [discriminate|].
    cbn [fst snd]. intros [= <-]. right. split; [reflexivity|].
    split; [reflexivity|].
    destruct (on_manager_service r
                (manager_async_add_webhook webhook_id (entry_data entry))
                h1 m0 Hm0 Hs) as [Hserv _].
    eexists webhook_id, _, _. split; [reflexivity|].
    split; [exact Hserv|].
    split; [apply manager_add_get, (id_config_truthy _ _ Hid)|].
    reflexivity.
Qed.

(** ** Concrete cases of the further properties *)

Section FurtherRuns.

Import Utf8Facts.

Local Notation send outcomes :=
  (_make_request (E := Sim.env) (JStr (T "http://host/")) (T "GET") []
     JNull 10 (Sim.start outcomes)).
Local Notation run_execute cfg outcomes :=
  (execute (E := Sim.env) cfg None None JNull None (Sim.start outcomes)).

Lemma render_payload_plain_witness :
  _render_payload (E := Sim.env) Cases.nested_payload (Sim.start [])
    = (inr Cases.nested_payload, Sim.start []).
Proof.
  exact (render_payload_plain (E := Sim.env) Cases.nested_payload
           eq_refl eq_refl (Sim.start [])).
Defined.


Lemma make_request_record_witness :
  exists rd,
    fst (send [inr Cases.short_response]) = inr rd /\
    rd_status_code rd < 400 /\
    rd_json rd = JDict [].
Proof.
  eexists. split; [reflexivity|].
  destruct (make_request_record (E := Sim.env) (JStr (T "http://host/"))
              (T "GET") [] JNull 10 (Sim.start [inr Cases.short_response])
              _ eq_refl) as (Hst & Hjson & _).
  split; [exact Hst|]. rewrite Hjson. reflexivity.
Defined.

Lemma make_request_body_prefix_witness :
  exists rd,
    fst (send [inr Cases.short_response]) = inr rd /\
    (rd_body rd = T "{}" <-> Utf8.byte_len (T "{}") <= MAX_RESPONSE_SIZE).
Proof.
  eexists. split; [reflexivity|].
  exact (proj1 (proj2 (proj2
           (make_request_body_prefix (E := Sim.env) (JStr (T "http://host/"))
              (T "GET") [] JNull 10 (Sim.start [inr Cases.short_response])
              Cases.short_response Sim.after_one (T "{}") _
              eq_refl eq_refl eq_refl)))).
Defined.



Lemma declared_size_is_retried_witness :
  exists last_error s',
    retry_loop (E := Sim.env) (T "w") (JStr (T "http://host/")) (T "GET") []
      JNull 10 2 2 [0; 1] None (Sim.start [inr Sim.declared_response])
    = retry_loop (E := Sim.env) (T "w") (JStr (T "http://host/")) (T "GET") []
        JNull 10 2 2 [1] (Some (ERROR_CONNECTION, last_error)) s'.
Proof.
  eexists _, _.
  exact (proj1 (declared_size_is_retried (E := Sim.env) (T "w")
                  (JStr (T "http://host/")) (T "GET") [] JNull 10 2 2 0 [1]
                  None (Sim.start [inr Sim.declared_response])
                  Sim.declared_response Sim.after_one
                  eq_refl eq_refl eq_refl)).
Defined.

Lemma exhaustion_report_witness :
  1 <= b_retry_attempts
         (build (Sim.webhook (T "w") (T "http://host/") 2) None None JNull
            None) /\
  exists w tl error_type error_message,
    snd (run_execute (Sim.webhook (T "w") (T "http://host/") 2)
           [Sim.refused; Sim.refused])
      = record (Sim.start [Sim.refused; Sim.refused]) w tl /\
    Z.of_nat (length (requests tl)) = 2 /\
    events tl = [WebhookError (T "w") error_type error_message 2 None].
Proof.
  destruct (exhaustion_report (E := Sim.env)
              (Sim.webhook (T "w") (T "http://host/") 2) None None JNull None
              (Sim.start [Sim.refused; Sim.refused])
              (T "Webhook w failed after 2 attempts: refused") eq_refl)
    as (Hpos & w & tl & ty & em & Hs & Hn & Hev & _).
  split; [exact Hpos|]. exists w, tl, ty, em. auto.
Defined.

Lemma success_report_witness :
  exists w tl,
    snd (run_execute (Sim.webhook (T "w") (T "http://host/") 3)
           [Sim.refused; Sim.ok 200 (T "{}")])
      = record (Sim.start [Sim.refused; Sim.ok 200 (T "{}")]) w tl /\
    events tl = [WebhookSuccess (T "w") 200 (Z.of_nat (length (requests tl)))].
Proof.
  destruct (success_report (E := Sim.env)
              (Sim.webhook (T "w") (T "http://host/") 3) None None JNull None
              (Sim.start [Sim.refused; Sim.ok 200 (T "{}")])
              {| rd_status_code := 200; rd_headers := []; rd_body := T "{}";
                 rd_json := JDict [] |} eq_refl)
    as (_ & _ & w & tl & Hs & Hev & _).
  exists w, tl. auto.
Defined.



Lemma handler_wraps_failures_witness :
  fst (handle_webhook_call (E := Sim.env)
         (Sim.manager [] [(T "w", Sim.webhook (T "w") (T "http://host/") 1)])
         (Sim.call (T "w")) (Sim.start [Sim.http 404 (T "Not Found")]))
    = inl (HomeAssistantError
             (T "Webhook execution failed: 404, message=Not Found")).
Proof.
  exact (proj1 (proj2 (handler_wraps_failures (E := Sim.env)
                  (Sim.manager []
                     [(T "w", Sim.webhook (T "w") (T "http://host/") 1)])
                  (Sim.call (T "w"))
                  (Sim.start [Sim.http 404 (T "Not Found")])))
           (Sim.webhook (T "w") (T "http://host/") 1)
           (ClientResponseError 404 (T "Not Found")) eq_refl eq_refl).
Defined.

Lemma handler_without_attempts_witness :
  fst (handle_webhook_call (E := Sim.env)
         (Sim.manager [] [(T "w", Sim.webhook (T "w") (T "http://host/") 0)])
         (Sim.call (T "w")) (Sim.start [Sim.ok 200 (T "{}")]))
    = inl (HomeAssistantError
             (T "Webhook execution failed: 'NoneType' object is not subscriptable")).
Proof.
  rewrite (proj1 (handler_without_attempts (E := Sim.env)
                    (Sim.manager []
                       [(T "w", Sim.webhook (T "w") (T "http://host/") 0)])
                    (Sim.call (T "w"))
                    (Sim.webhook (T "w") (T "http://host/") 0) 0
                    (Sim.start [Sim.ok 200 (T "{}")])
                    (Sim.start [Sim.ok 200 (T "{}")])
                    (JStr (T "http://host/"), [], JNull)
                    eq_refl eq_refl ltac:(lia) eq_refl)).
  reflexivity.
Defined.

Lemma storage_remove_witness :
  storage_get_webhook
    (ss_data (storage_async_remove_webhook (T "a") Cases.two_stored)) (T "a")
    = None /\
  storage_get_webhook
    (ss_data (storage_async_remove_webhook (T "a") Cases.two_stored)) (T "b")
    = Some (Sim.webhook (T "b") (T "http://b/") 3).
Proof.
  destruct (storage_remove (T "a") Cases.two_stored
              (distinct_NoDup [T "a"; T "b"] eq_refl))
    as (Hget & _ & Hother & _).
  split; [exact Hget|]. rewrite Hother; [reflexivity|].
  intros H. apply text_eqb_eq in H. discriminate H.
Defined.

Lemma storage_add_then_remove_witness :
  storage_webhooks
    (ss_data (storage_async_remove_webhook (T "c")
                (storage_async_add_webhook (T "c")
                   (Sim.webhook (T "c") (T "http://c/") 3) Cases.two_stored)))
    = storage_webhooks (ss_data Cases.two_stored).
Proof.
  apply (storage_add_then_remove (T "c")
           (Sim.webhook (T "c") (T "http://c/") 3) Cases.two_stored).
  apply dict_get_not_in. reflexivity.
Defined.

Lemma storage_reload_witness :
  ss_data (storage_async_load
             (new_storage
                (ss_store (storage_async_remove_webhook (T "a")
                             Cases.two_stored))))
    = ss_data (storage_async_remove_webhook (T "a") Cases.two_stored).
Proof.
  exact (proj1 (proj2 (storage_reload (T "a") Sim.empty_config
                         Cases.two_stored)) eq_refl).
Defined.

Lemma resolved_ids_exist_witness :
  handle_webhook_call (E := Sim.env)
    (Sim.manager [Sim.webhook (T "a") (T "http://a/") 3] [])
    (Sim.call (T "w")) (Sim.start [])
    = (inl (HomeAssistantError (T "Webhook '" ++ T "w" ++ T "' not found")),
       Sim.start []).
Proof.
  exact (proj2 (resolved_ids_exist (E := Sim.env)
                  (Sim.manager [Sim.webhook (T "a") (T "http://a/") 3] [])
                  (Sim.call (T "w")) (Sim.start [])) eq_refl).
Defined.

Lemma lookup_agrees_with_enumeration_witness :
  dict_get (T "a")
    (get_all_webhooks
       (Sim.manager [Sim.webhook (T "a") (T "http://yaml/") 3;
                     Sim.webhook (T "b") (T "http://b/") 3]
          [(T "a", Sim.webhook (T "a") (T "http://store/") 1)]))
    = get_webhook
        (Sim.manager [Sim.webhook (T "a") (T "http://yaml/") 3;
                      Sim.webhook (T "b") (T "http://b/") 3]
           [(T "a", Sim.webhook (T "a") (T "http://store/") 1)]) (T "a").
Proof.
  apply lookup_agrees_with_enumeration.
  - exact (distinct_NoDup [T "a"] eq_refl).
  - repeat constructor.
  - reflexivity.
Defined.

Lemma manager_add_and_remove_witness :
  get_webhook
    (manager_of
       (manager_async_remove_webhook (T "a")
          {| ms_yaml := Some [Sim.webhook (T "a") (T "http://yaml/") 3];
             ms_storage := Cases.two_stored |})) (T "a")
    = Some (Sim.webhook (T "a") (T "http://yaml/") 3).
Proof.
  exact (proj1 (proj2 (proj2
           (manager_add_and_remove (T "a") Sim.empty_config
              {| ms_yaml := Some [Sim.webhook (T "a") (T "http://yaml/") 3];
                 ms_storage := Cases.two_stored |})))
           (distinct_NoDup [T "a"; T "b"] eq_refl)).
Defined.

Lemma handler_reads_current_manager_witness :
  exists r m,
    hass_service Cases.yaml_then_entry = Some r /\
    nth_error (hass_objects Cases.yaml_then_entry) r = Some m /\
    service_manager Cases.yaml_then_entry = Some (manager_of m) /\
    ss_data (ms_storage m) = loaded (hass_store Cases.yaml_then_entry).
Proof.
  destruct (proj2 (proj2 (handler_reads_current_manager None
                     [CallSetup
                        (Some [Sim.webhook (T "w") (T "http://yaml/") 3]);
                      CallSetupEntry (Cases.entry (T "w") (T "http://entry/"))]
                     eq_refl))
              {| dd_yaml_config :=
                   Some (Some [Sim.webhook (T "w") (T "http://yaml/") 3]);
                 dd_config_manager := Some 0%nat |} eq_refl)
    as (r & m & _ & Hs & Hm & Hsm & Hd & _).
  exists r, m. auto.
Defined.

(** The instance of [Cases.yaml_then_entry] is consistent. *)
Lemma yaml_then_entry_consistent : consistent Cases.yaml_then_entry.
Proof.
  split; [exact (distinct_NoDup [T "w"] eq_refl)|].
  exists 0%nat. eexists. repeat split.
Qed.

Lemma setup_entry_serves_entry_witness :
  exists m',
    service_manager
      (snd (async_setup_entry (Cases.entry (T "w") (T "http://entry/"))
              (hass_start None))) = Some m' /\
    get_webhook m' (T "w") = Some (Sim.webhook (T "w") (T "http://entry/") 3).
Proof.
  destruct (proj1 (setup_entry_serves_entry
                     (Cases.entry (T "w") (T "http://entry/"))
                     (hass_start None)
                     (conj (NoDup_nil text) eq_refl)) true eq_refl)
    as (webhook_id & m' & Hid & Hm' & Hget & _).
  injection Hid as <-. exists m'. auto.
Defined.

Lemma unload_entry_falls_back_witness :
  exists m',
    service_manager
      (snd (async_unload_entry (Cases.entry (T "w") (T "http://entry/"))
              Cases.yaml_then_entry)) = Some m' /\
    get_webhook m' (T "w") = Some (Sim.webhook (T "w") (T "http://yaml/") 3).
Proof.
  destruct (unload_entry_falls_back
              (Cases.entry (T "w") (T "http://entry/")) Cases.yaml_then_entry
              yaml_then_entry_consistent true eq_refl)
    as (webhook_id & m & m' & Hid & Hm & Hm' & Hget & _).
  injection Hid as <-. injection Hm as <-. exists m'. auto.
Defined.

Lemma reload_entry_serves_entry_witness :
  exists m',
    service_manager
      (snd (async_reload_entry (Cases.entry (T "w") (T "http://new/"))
              Cases.yaml_then_entry)) = Some m' /\
    get_webhook m' (T "w") = Some (Sim.webhook (T "w") (T "http://new/") 3).
Proof.
  destruct (reload_entry_serves_entry
              (Cases.entry (T "w") (T "http://new/")) Cases.yaml_then_entry
              yaml_then_entry_consistent tt eq_refl)
    as (webhook_id & m & m' & Hid & Hm & Hm' & Hget & _).
  injection Hid as <-. exists m'. auto.
Defined.

Lemma entry_calls_that_raise_witness :
  async_unload_entry (Cases.entry (T "w") (T "http://entry/"))
    (hass_start None)
    = (inl (KeyError DOMAIN), hass_start None) /\
  exists m',
    service_manager
      (snd (async_setup_entry (Cases.nameless_entry (T "w"))
              (hass_start None))) = Some m' /\
    get_webhook m' (T "w") = Some (entry_data (Cases.nameless_entry (T "w"))).
Proof.
  split.
  - exact (proj1 (proj1 (entry_calls_that_raise
                           (Cases.entry (T "w") (T "http://entry/"))
                           (hass_start None)) eq_refl)).
  - destruct (proj2 (entry_calls_that_raise (Cases.nameless_entry (T "w"))
                       (hass_start None))
                (conj (NoDup_nil text) eq_refl) (KeyError CONF_NAME) eq_refl)
      as [(_ & Hid & _)|(_ & _ & webhook_id & m' & tr & Hid & Hm' & Hget & _)];
      [discriminate Hid|].
    injection Hid as <-. exists m'. auto.
Defined.

End FurtherRuns.
